(** * The browser-mode run orchestrator and the DOM picker injection

    A shallow embedding of [runBrowserMode] (src/browser/index.ts) and of
    the page-side script the [pick] command of scripts/browser-tools.ts
    evaluates, together with the properties the specification states
    about them; and, beside these, of the commands of
    scripts/browser-tools.ts, of the picker at work in the page and of
    [readFiles] (src/oracle/files.ts), with properties read off their
    code.

    [runBrowserMode] is effectful: it creates a directory, starts a
    process, opens a control session, talks to a page and tears all of it
    down again.  The collaborators it imports (chromeLifecycle, cookies,
    pageActions, config, utils) are not part of the embedded sources, so
    what each of their calls answers is read from a scenario ([Env]); the
    orchestrator itself is written in a small state-and-exception monad
    whose state survives a throw, as the effects of a JavaScript call do. *)

From Stdlib Require Import ZArith NArith Lia Ascii String.
From stdpp Require Import base option list gmap strings.

Set Warnings "-clear-no-such-hyp".

Local Open Scope Z_scope.

(** ** JavaScript strings *)

(** A JavaScript string is a sequence of UTF-16 code units. *)
Abbreviation JsString := (list N).

(** The code units of an ASCII literal. *)
Definition units (s : string) : JsString :=
  map N_of_ascii (list_ascii_of_string s).

(** ECMAScript [WhiteSpace] and [LineTerminator] code points, the ones
    [String.prototype.trim] strips; all of them are single code units. *)
Definition isWhiteSpace (u : N) : bool :=
  match u with
  | 9 | 10 | 11 | 12 | 13 | 32 | 160 => true
  | 5760 => true
  | 8192 | 8193 | 8194 | 8195 | 8196 | 8197 | 8198 | 8199 | 8200
  | 8201 | 8202 => true
  | 8232 | 8233 | 8239 | 8287 | 12288 | 65279 => true
  | _ => false
  end%N.

Fixpoint trimStart (s : JsString) : JsString :=
  match s with
  | u :: rest => if isWhiteSpace u then trimStart rest else s
  | [] => []
  end.

Definition trimEnd (s : JsString) : JsString :=
  rev (trimStart (rev s)).

Definition trim (s : JsString) : JsString := trimEnd (trimStart s).

(** Truthiness of a string value: the empty string is falsy. *)
Definition truthyString (s : JsString) : bool :=
  match s with [] => false | _ :: _ => true end.

(** Truthiness of [string | null | undefined]. *)
Definition truthy (v : option JsString) : bool :=
  match v with Some s => truthyString s | None => false end.

(** A prompt that is absent, empty or made of white space only. *)
Definition blankPrompt (p : option JsString) : Prop :=
  match p with
  | None => True
  | Some s => Forall (fun u => isWhiteSpace u = true) s
  end.

(** ** Configuration, options and results (types.ts) *)

Record BrowserConfig := {
  url : JsString;
  desiredModel : option JsString;
  chromeProfile : option JsString;
  timeoutMs : Z;
  inputTimeoutMs : Z;
  headless : bool;
  hideWindow : bool;
  keepBrowser : bool;
  cookieSync : bool;
  debug : bool
}.

(** [options.log] is a function; what matters to the run is whether the
    caller supplied one ([log = true]) or the no-op default is used. *)
Record BrowserRunOptions (Raw : Type) := {
  prompt : option JsString;
  config : Raw;
  log : bool
}.
Arguments prompt {Raw} _.
Arguments config {Raw} _.
Arguments log {Raw} _.

Record BrowserRunResult := {
  answerTextR : JsString;
  answerMarkdownR : JsString;
  answerHtmlR : option JsString;
  tookMs : Z;
  answerTokens : Z;
  answerChars : nat;
  chromePid : Z;
  chromePort : Z;
  userDataDirR : JsString
}.

(** The handle [launchChrome] resolves to. *)
Record Chrome := { pid : Z; port : Z }.

(** What [waitForAssistantResponse] resolves to; [meta] is opaque here. *)
Record Answer := {
  text : JsString;
  html : option JsString;
  meta : N
}.

(** ** Thrown values *)

(** JavaScript throws arbitrary values.  [runBrowserMode] only asks
    whether the value is an [Error], and then for its [message] and
    [stack]; anything else is turned into text with [String(error)]. *)
Inductive Thrown :=
  | ErrorObject (name message : JsString) (stack : option JsString)
  | NonError (asString : JsString).

Definition messageOf (e : Thrown) : JsString :=
  match e with
  | ErrorObject _ m _ => m
  | NonError s => s
  end.

Definition stackOf (e : Thrown) : option JsString :=
  match e with
  | ErrorObject _ _ (Some s) => if truthyString s then Some s else None
  | _ => None
  end.

(** [new Error('Prompt text is required when using browser mode.')]; the
    stack a host attaches to a fresh error is host-defined and left out. *)
Definition promptRequired : Thrown :=
  ErrorObject (units "Error")
    (units "Prompt text is required when using browser mode.") None.

(** ** The observable world *)

Inductive RunStatus := attempted | complete.

(** The lines [runBrowserMode] itself hands to the logger, one
    constructor per template literal of the source. *)
Inductive LogLine :=
  | LogConfig (c : BrowserConfig) (promptLength : nat)
      (* `[browser-mode] config: ${JSON.stringify({...config, promptLength})}` *)
  | LogCreatedProfile (dir : JsString)
      (* `Created temporary Chrome profile at ${userDataDir}` *)
  | LogCopiedCookies (count : Z) (profile : JsString)
      (* `Copied ${cookieCount} cookies from Chrome profile ${...}` *)
  | LogNoCookies
      (* 'No Chrome cookies found; continuing without session reuse' *)
  | LogSkipCookieSync
      (* 'Skipping Chrome cookie sync (--browser-no-cookie-sync)' *)
  | LogFailed (message : JsString)
      (* `Failed to complete ChatGPT run: ${message}` *)
  | LogStack (stack : JsString)
      (* error.stack *)
  | LogCleanup (status : RunStatus) (elapsedMs : Z)
      (* `Cleanup ${runStatus} • ${totalSeconds.toFixed(1)}s total` *)
  | LogLeftRunning (port : Z) (dir : JsString).
      (* `Chrome left running on port ${chrome.port} with profile ${userDataDir}` *)

(** The calls into collaborators, in the order they are issued. *)
Inductive Call :=
  | CallMkdtemp
  | CallLaunchChrome (dir : JsString)
  | CallRegisterTerminationHooks (chromePid : Z) (dir : JsString) (keep : bool)
  | CallConnectToChrome (port : Z)
  | CallHideChromeWindow
  | CallNetworkEnable
  | CallPageEnable
  | CallRuntimeEnable
  | CallClearBrowserCookies
  | CallSyncCookies (url : JsString) (profile : option JsString)
  | CallNavigate (url : JsString)
  | CallEnsureNotBlocked (headless : bool)
  | CallEnsurePromptReady (timeout : Z)
  | CallEnsureModelSelection (model : JsString)
  | CallSubmitPrompt (promptText : JsString)
  | CallWaitForAssistantResponse (timeout : Z)
  | CallCaptureAssistantMarkdown (meta : N)
  | CallClientClose
  | CallRemoveTerminationHooks
  | CallChromeKill (chromePid : Z)
  | CallRm (dir : JsString).

#[global] Instance Call_eq_dec : EqDecision Call.
Proof. solve_decision. Defined.

Record World := {
  dirs : gset JsString;        (* profile directories on disk *)
  procs : gset Z;              (* pids of running browser processes *)
  session : bool;              (* a control session is open *)
  hooks : bool;                (* termination hooks are registered *)
  ticks : nat;                 (* number of Date.now() readings so far *)
  calls : list Call;
  logged : list LogLine        (* lines received by the caller's sink *)
}.

Definition addDir (d : JsString) (w : World) : World :=
  {| dirs := {[ d ]} ∪ dirs w; procs := procs w; session := session w;
     hooks := hooks w; ticks := ticks w; calls := calls w;
     logged := logged w |}.

Definition removeDir (d : JsString) (w : World) : World :=
  {| dirs := dirs w ∖ {[ d ]}; procs := procs w; session := session w;
     hooks := hooks w; ticks := ticks w; calls := calls w;
     logged := logged w |}.

Definition addProc (p : Z) (w : World) : World :=
  {| dirs := dirs w; procs := {[ p ]} ∪ procs w; session := session w;
     hooks := hooks w; ticks := ticks w; calls := calls w;
     logged := logged w |}.

Definition removeProc (p : Z) (w : World) : World :=
  {| dirs := dirs w; procs := procs w ∖ {[ p ]}; session := session w;
     hooks := hooks w; ticks := ticks w; calls := calls w;
     logged := logged w |}.

Definition setSession (b : bool) (w : World) : World :=
  {| dirs := dirs w; procs := procs w; session := b; hooks := hooks w;
     ticks := ticks w; calls := calls w; logged := logged w |}.

Definition setHooks (b : bool) (w : World) : World :=
  {| dirs := dirs w; procs := procs w; session := session w; hooks := b;
     ticks := ticks w; calls := calls w; logged := logged w |}.

Definition tick (w : World) : World :=
  {| dirs := dirs w; procs := procs w; session := session w;
     hooks := hooks w; ticks := S (ticks w); calls := calls w;
     logged := logged w |}.

Definition addCall (c : Call) (w : World) : World :=
  {| dirs := dirs w; procs := procs w; session := session w;
     hooks := hooks w; ticks := ticks w; calls := calls w ++ [c];
     logged := logged w |}.

Definition addLog (l : LogLine) (w : World) : World :=
  {| dirs := dirs w; procs := procs w; session := session w;
     hooks := hooks w; ticks := ticks w; calls := calls w;
     logged := logged w ++ [l] |}.

(** The world at the start of a call: nothing of the call is recorded
    yet. *)
Definition begin (w : World) : World :=
  {| dirs := dirs w; procs := procs w; session := session w;
     hooks := hooks w; ticks := 0; calls := []; logged := [] |}.

(** ** The mutable locals of [runBrowserMode] *)

Record Frame := {
  removeTerminationHooks : bool;   (* the deregistration function is non-null *)
  client : bool;                   (* the client is non-null *)
  answerText : JsString;
  answerMarkdown : JsString;
  answerHtml : JsString;
  runStatus : RunStatus
}.

Definition initialFrame : Frame :=
  {| removeTerminationHooks := false; client := false; answerText := [];
     answerMarkdown := []; answerHtml := []; runStatus := attempted |}.

Record Machine := { world : World; frame : Frame }.

(** ** A state monad with exceptions whose state survives a throw *)

Definition M (A : Type) : Type := Machine -> (Thrown + A) * Machine.

Definition ret {A} (a : A) : M A := fun m => (inr a, m).

Definition bind {A B} (c : M A) (k : A -> M B) : M B :=
  fun m =>
    match c m with
    | (inr a, m') => k a m'
    | (inl e, m') => (inl e, m')
    end.

Definition throw {A} (e : Thrown) : M A := fun m => (inl e, m).

(** [try { body } catch (e) { handler e }] *)
Definition tryCatch {A} (body : M A) (handler : Thrown -> M A) : M A :=
  fun m =>
    match body m with
    | (inr a, m') => (inr a, m')
    | (inl e, m') => handler e m'
    end.

(** [try { body } finally { fin }]: [fin] runs whatever [body] did, and
    a throw of [fin] replaces the completion of [body]. *)
Definition tryFinally {A} (body : M A) (fin : M unit) : M A :=
  fun m =>
    match body m with
    | (r, m') =>
        match fin m' with
        | (inr _, m'') => (r, m'')
        | (inl e, m'') => (inl e, m'')
        end
    end.

Declare Scope js_scope.
Delimit Scope js_scope with js.
Notation "x <- c ;; k" := (bind c (fun x => k))
  (at level 100, c at next level, right associativity) : js_scope.
Notation "c ;; k" := (bind c (fun _ => k))
  (at level 100, right associativity) : js_scope.
Local Open Scope js_scope.

Definition onWorld (f : World -> World) : M unit :=
  fun m => (inr tt, {| world := f (world m); frame := frame m |}).

Definition onFrame (f : Frame -> Frame) : M unit :=
  fun m => (inr tt, {| world := world m; frame := f (frame m) |}).

Definition getFrame : M Frame := fun m => (inr (frame m), m).

Definition when (b : bool) (c : M unit) : M unit :=
  if b then c else ret tt.

(** [logger(line)] with [logger = options.log ?? (() => {})]. *)
Definition logger (supplied : bool) (l : LogLine) : M unit :=
  when supplied (onWorld (addLog l)).

(** A call into a collaborator: the call is issued, and it either
    throws, leaving the world as it is, or takes effect on the world and
    answers.  The effects are those the names promise: [mkdtemp] makes
    the directory, [launchChrome] starts the process, a successful
    registration installs the hooks and the function it returns removes
    them, [connectToChrome] opens the session and [close] closes it,
    [kill] ends the process, [rm] removes the directory; the calls on
    the page leave the host alone. *)
Definition perform {A} (c : Call) (outcome : Thrown + A)
    (effect : World -> World) : M A :=
  onWorld (addCall c);;
  match outcome with
  | inr a => onWorld effect;; ret a
  | inl e => throw e
  end.

Definition setRemoveTerminationHooks (b : bool) : M unit :=
  onFrame (fun f =>
    {| removeTerminationHooks := b; client := client f;
       answerText := answerText f; answerMarkdown := answerMarkdown f;
       answerHtml := answerHtml f; runStatus := runStatus f |}).

Definition setClient (b : bool) : M unit :=
  onFrame (fun f =>
    {| removeTerminationHooks := removeTerminationHooks f; client := b;
       answerText := answerText f; answerMarkdown := answerMarkdown f;
       answerHtml := answerHtml f; runStatus := runStatus f |}).

Definition setAnswerText (s : JsString) : M unit :=
  onFrame (fun f =>
    {| removeTerminationHooks := removeTerminationHooks f;
       client := client f; answerText := s;
       answerMarkdown := answerMarkdown f; answerHtml := answerHtml f;
       runStatus := runStatus f |}).

Definition setAnswerMarkdown (s : JsString) : M unit :=
  onFrame (fun f =>
    {| removeTerminationHooks := removeTerminationHooks f;
       client := client f; answerText := answerText f;
       answerMarkdown := s; answerHtml := answerHtml f;
       runStatus := runStatus f |}).

Definition setAnswerHtml (s : JsString) : M unit :=
  onFrame (fun f =>
    {| removeTerminationHooks := removeTerminationHooks f;
       client := client f; answerText := answerText f;
       answerMarkdown := answerMarkdown f; answerHtml := s;
       runStatus := runStatus f |}).

Definition setRunStatus (s : RunStatus) : M unit :=
  onFrame (fun f =>
    {| removeTerminationHooks := removeTerminationHooks f;
       client := client f; answerText := answerText f;
       answerMarkdown := answerMarkdown f; answerHtml := answerHtml f;
       runStatus := s |}).

(** ** What the collaborators answer *)

(** One field per call site of a collaborator: [inl e] when the call
    throws (or its promise rejects with) [e], [inr v] when it answers
    [v].  The deregistration function has type [() => void] and the
    logger is the caller's own; both are called unguarded by the source
    and are taken to return. *)
Record Env := {
  traceEnv : bool;      (* process.env.CHATGPT_DEVTOOLS_TRACE === '1' *)
  epoch : Z;            (* Date.now() at its first reading *)
  lapse : nat -> N;     (* milliseconds between reading n and reading n+1 *)
  mkdtempE : Thrown + JsString;
  launchChromeE : Thrown + Chrome;
  registerTerminationHooksE : Thrown + unit;
  connectToChromeE : Thrown + unit;
  hideChromeWindowE : Thrown + unit;
  networkEnableE : Thrown + unit;
  pageEnableE : Thrown + unit;
  runtimeEnableE : Thrown + unit;
  clearBrowserCookiesE : Thrown + unit;
  syncCookiesE : Thrown + Z;
  navigateToChatGPTE : Thrown + unit;
  ensureNotBlockedE : Thrown + unit;
  ensurePromptReadyE : Thrown + unit;
  ensureModelSelectionE : Thrown + unit;
  ensurePromptReadyAgainE : Thrown + unit;
  submitPromptE : Thrown + unit;
  waitForAssistantResponseE : Thrown + Answer;
  captureAssistantMarkdownE : Thrown + option JsString;
  clientCloseE : Thrown + unit;
  chromeKillE : Thrown + unit;
  rmE : Thrown + unit
}.

(** The n-th reading of [Date.now()]; time does not run backwards. *)
Fixpoint elapsed (lapse : nat -> N) (n : nat) : N :=
  match n with
  | O => 0
  | S k => elapsed lapse k + lapse k
  end%N.

Definition clock (env : Env) (n : nat) : Z :=
  epoch env + Z.of_N (elapsed (lapse env) n).

(** [Date.now()] *)
Definition dateNow (env : Env) : M Z :=
  fun m =>
    (inr (clock env (ticks (world m))),
     {| world := tick (world m); frame := frame m |}).

(** [await Promise.all([a, b, c])] for three calls that are all issued
    before anything is awaited.  The promise rejects as soon as one of
    them does; the settle order is taken to be the array order. *)
Definition promiseAll3 (a b c : Call) (ra rb rc : Thrown + unit) : M unit :=
  onWorld (addCall a);; onWorld (addCall b);; onWorld (addCall c);;
  match ra, rb, rc with
  | inr _, inr _, inr _ => ret tt
  | inl e, _, _ => throw e
  | _, inl e, _ => throw e
  | _, _, inl e => throw e
  end.

(** ** [runBrowserMode] *)

Section RunBrowserMode.

(** [resolveBrowserConfig] (config.ts) and [estimateTokenCount]
    (utils.ts) are pure helpers defined outside the embedded sources. *)
Context {Raw : Type}.
Variable resolveBrowserConfig : Raw -> BrowserConfig.
Variable estimateTokenCount : JsString -> Z.

Variable env : Env.

(** The [try] block, lines 59-107. *)
Definition attempt (config : BrowserConfig) (supplied : bool)
    (chrome : Chrome) (userDataDir promptText : JsString)
    (startedAt : Z) : M BrowserRunResult :=
  perform (CallConnectToChrome (port chrome)) (connectToChromeE env)
    (setSession true);;
  setClient true;;
  when (negb (headless config) && hideWindow config)
    (perform CallHideChromeWindow (hideChromeWindowE env) id);;
  promiseAll3 CallNetworkEnable CallPageEnable CallRuntimeEnable
    (networkEnableE env) (pageEnableE env) (runtimeEnableE env);;
  perform CallClearBrowserCookies (clearBrowserCookiesE env) id;;
  (if cookieSync config then
     cookieCount <- perform
       (CallSyncCookies (url config) (chromeProfile config))
       (syncCookiesE env) id;;
     logger supplied
       (if 0 <? cookieCount
        then LogCopiedCookies cookieCount
               (default (units "Default") (chromeProfile config))
        else LogNoCookies)
   else logger supplied LogSkipCookieSync);;
  perform (CallNavigate (url config)) (navigateToChatGPTE env) id;;
  perform (CallEnsureNotBlocked (headless config)) (ensureNotBlockedE env) id;;
  perform (CallEnsurePromptReady (inputTimeoutMs config))
    (ensurePromptReadyE env) id;;
  match desiredModel config with
  | Some model =>
      when (truthyString model)
        (perform (CallEnsureModelSelection model)
           (ensureModelSelectionE env) id;;
         perform (CallEnsurePromptReady (inputTimeoutMs config))
           (ensurePromptReadyAgainE env) id)
  | None => ret tt
  end;;
  perform (CallSubmitPrompt promptText) (submitPromptE env) id;;
  answer <- perform (CallWaitForAssistantResponse (timeoutMs config))
              (waitForAssistantResponseE env) id;;
  setAnswerText (text answer);;
  setAnswerHtml (default [] (html answer));;
  copiedMarkdown <- perform (CallCaptureAssistantMarkdown (meta answer))
                      (captureAssistantMarkdownE env) id;;
  f <- getFrame;;
  setAnswerMarkdown (default (answerText f) copiedMarkdown);;
  setRunStatus complete;;
  now <- dateNow env;;
  f <- getFrame;;
  ret {| answerTextR := answerText f;
         answerMarkdownR := answerMarkdown f;
         answerHtmlR :=
           if truthyString (answerHtml f) then Some (answerHtml f)
           else None;
         tookMs := now - startedAt;
         answerTokens := estimateTokenCount (answerMarkdown f);
         answerChars := length (answerText f);
         chromePid := pid chrome;
         chromePort := port chrome;
         userDataDirR := userDataDir |}.

(** The [catch] block, lines 108-114. *)
Definition rethrow (config : BrowserConfig) (supplied : bool)
    (error : Thrown) : M BrowserRunResult :=
  logger supplied (LogFailed (messageOf error));;
  when (debug config || traceEnv env)
    (match stackOf error with
     | Some stack => logger supplied (LogStack stack)
     | None => ret tt
     end);;
  throw error.

(** The [finally] block, lines 115-134. *)
Definition cleanup (config : BrowserConfig) (supplied : bool)
    (chrome : Chrome) (userDataDir : JsString) (startedAt : Z) : M unit :=
  f <- getFrame;;
  when (client f)
    (tryCatch (perform CallClientClose (clientCloseE env) (setSession false))
       (fun _ => ret tt));;
  when (removeTerminationHooks f)
    (perform CallRemoveTerminationHooks (inr tt) (setHooks false));;
  if negb (keepBrowser config) then
    tryCatch (perform (CallChromeKill (pid chrome)) (chromeKillE env)
                (removeProc (pid chrome)))
      (fun _ => ret tt);;
    tryCatch (perform (CallRm userDataDir) (rmE env) (removeDir userDataDir))
      (fun _ => ret tt);;
    now <- dateNow env;;
    f <- getFrame;;
    logger supplied (LogCleanup (runStatus f) (now - startedAt))
  else
    logger supplied (LogLeftRunning (port chrome) userDataDir).

(** Lines 23-135. *)
Definition runBrowserMode (options : BrowserRunOptions Raw)
    : M BrowserRunResult :=
  match trim <$> prompt options with
  | None | Some [] => throw promptRequired
  | Some promptText =>
      let config := resolveBrowserConfig (config options) in
      let supplied := log options in
      when (debug config || traceEnv env)
        (logger supplied (LogConfig config (length promptText)));;
      userDataDir <- perform CallMkdtemp (mkdtempE env)
                       (match mkdtempE env with
                        | inr d => addDir d
                        | inl _ => id
                        end);;
      logger supplied (LogCreatedProfile userDataDir);;
      chrome <- perform (CallLaunchChrome userDataDir) (launchChromeE env)
                  (match launchChromeE env with
                   | inr c => addProc (pid c)
                   | inl _ => id
                   end);;
      tryCatch
        (perform (CallRegisterTerminationHooks (pid chrome) userDataDir
                    (keepBrowser config))
           (registerTerminationHooksE env) (setHooks true);;
         setRemoveTerminationHooks true)
        (fun _ => ret tt);;
      startedAt <- dateNow env;;
      tryFinally
        (tryCatch
           (attempt config supplied chrome userDataDir promptText startedAt)
           (rethrow config supplied))
        (cleanup config supplied chrome userDataDir startedAt)
  end.

(** A call, started in world [w]: how it completes and what it
    leaves.  The clock readings, calls and log lines recorded in the
    final world are those of this call. *)
Definition run (options : BrowserRunOptions Raw) (w : World)
    : (Thrown + BrowserRunResult) * Machine :=
  runBrowserMode options {| world := begin w; frame := initialFrame |}.

End RunBrowserMode.

Definition emptyWorld : World :=
  {| dirs := ∅; procs := ∅; session := false; hooks := false; ticks := 0;
     calls := []; logged := [] |}.

(** ** The picker script of the [pick] command (scripts/browser-tools.ts) *)

Module Picker.

(** The values a property of [globalThis] can hold; functions and
    objects are known by their identity. *)
Inductive JsValue :=
  | VUndefined
  | VNull
  | VBool (b : bool)
  | VNumber (z : Z)
  | VString (s : JsString)
  | VFunction (id : nat)
  | VObject (id : nat).

(** [ToBoolean] of a property read; a missing property reads as
    [undefined]. *)
Definition toBoolean (v : option JsValue) : bool :=
  match v with
  | None | Some VUndefined | Some VNull => false
  | Some (VBool b) => b
  | Some (VNumber z) => negb (z =? 0)
  | Some (VString s) => truthyString s
  | Some (VFunction _) | Some (VObject _) => true
  end.

(** The state of the page the script runs in: the properties of
    [globalThis], the number of function objects created so far (the
    next one gets that identity), and the listeners registered on
    [document], as (event type, handler identity). *)
Record Page := {
  globals : gmap string JsValue;
  allocated : nat;
  listeners : list (string * nat)
}.

(** The function passed to the first [page.evaluate] of [pick],
    lines 182-285: it returns at once when the marker is set, and
    otherwise sets the marker and stores a fresh [pick] closure. *)
Definition injectPicker (p : Page) : Page :=
  if toBoolean (globals p !! "pickOverlayInjected"%string) then p
  else
    {| globals :=
         <[ "pick"%string := VFunction (allocated p) ]>
           (<[ "pickOverlayInjected"%string := VBool true ]> (globals p));
       allocated := S (allocated p);
       listeners := listeners p |}.

(** The same script without its guard, for comparison. *)
Definition injectUnguarded (p : Page) : Page :=
  {| globals :=
       <[ "pick"%string := VFunction (allocated p) ]>
         (<[ "pickOverlayInjected"%string := VBool true ]> (globals p));
     allocated := S (allocated p);
     listeners := listeners p |}.

Definition blankPage : Page :=
  {| globals := ∅; allocated := 0; listeners := [] |}.

End Picker.

(** ** Scenarios used to exercise the embedding *)

Module Scenario.

Definition ok : Thrown + unit := inr tt.

Definition chrome : Chrome := {| pid := 4242; port := 9222 |}.

Definition profileDir : JsString := units "/tmp/oracle-browser-a1b2c3".

Definition answer : Answer :=
  {| text := units "OK"; html := Some (units "<p>OK</p>"); meta := 7%N |}.

(** A scenario in which every collaborator succeeds, except possibly
    the six given; 1500 ms pass between two readings of the clock. *)
Definition scenario (launch : Thrown + Chrome) (register : Thrown + unit)
    (sync : Thrown + Z) (wait : Thrown + Answer)
    (capture : Thrown + option JsString) (rm : Thrown + unit) : Env :=
  {| traceEnv := false;
     epoch := 1000;
     lapse := fun _ => 1500%N;
     mkdtempE := inr profileDir;
     launchChromeE := launch;
     registerTerminationHooksE := register;
     connectToChromeE := ok;
     hideChromeWindowE := ok;
     networkEnableE := ok;
     pageEnableE := ok;
     runtimeEnableE := ok;
     clearBrowserCookiesE := ok;
     syncCookiesE := sync;
     navigateToChatGPTE := ok;
     ensureNotBlockedE := ok;
     ensurePromptReadyE := ok;
     ensureModelSelectionE := ok;
     ensurePromptReadyAgainE := ok;
     submitPromptE := ok;
     waitForAssistantResponseE := wait;
     captureAssistantMarkdownE := capture;
     clientCloseE := ok;
     chromeKillE := ok;
     rmE := rm |}.

Definition copied : option JsString := Some (units "**OK**").

(** Everything succeeds. *)
Definition allGood : Env :=
  scenario (inr chrome) ok (inr 3) (inr answer) (inr copied) ok.

Definition launchTimeout : Thrown :=
  ErrorObject (units "Error") (units "Chrome did not start") None.

(** The browser does not come up. *)
Definition launchFails : Env :=
  scenario (inl launchTimeout) ok (inr 3) (inr answer) (inr copied) ok.

Definition busy : Thrown :=
  ErrorObject (units "Error") (units "EBUSY: resource busy or locked") None.

(** The profile directory cannot be removed. *)
Definition rmFails : Env :=
  scenario (inr chrome) ok (inr 3) (inr answer) (inr copied) (inl busy).

Definition responseTimeout : Thrown :=
  ErrorObject (units "Error")
    (units "Timed out waiting for the assistant response") None.

(** The response never stabilises. *)
Definition timesOut : Env :=
  scenario (inr chrome) ok (inr 3) (inl responseTimeout) (inr copied) ok.

Definition hookError : Thrown :=
  ErrorObject (units "Error") (units "cannot register signal handlers") None.

(** The termination hooks cannot be registered. *)
Definition hooksFail : Env :=
  scenario (inr chrome) (inl hookError) (inr 3) (inr answer) (inr copied) ok.

(** The page offers no way to copy the answer as markdown. *)
Definition noCopy : Env :=
  scenario (inr chrome) ok (inr 3) (inr answer) (inr None) ok.

(** The local profile holds no cookies. *)
Definition noCookies : Env :=
  scenario (inr chrome) ok (inr 0) (inr answer) (inr copied) ok.

Definition baseConfig : BrowserConfig :=
  {| url := units "https://chatgpt.com/";
     desiredModel := Some (units "GPT-5 Pro");
     chromeProfile := None;
     timeoutMs := 30000;
     inputTimeoutMs := 5000;
     headless := false;
     hideWindow := false;
     keepBrowser := false;
     cookieSync := true;
     debug := false |}.

Definition options (c : BrowserConfig) (p : option JsString)
    : BrowserRunOptions BrowserConfig :=
  {| prompt := p; config := c; log := true |}.

(** A rough token estimate, one token per four code units. *)
Definition estimate (s : JsString) : Z := Z.of_nat (length s) / 4.

(** The call with configuration [c] and prompt [p], in scenario
    [env], started in the empty world. *)
Abbreviation go env c p := (run id estimate env (options c p) emptyWorld).

Definition sayOk : option JsString := Some (units "  Say OK. ").

Definition keeping : BrowserConfig :=
  {| url := url baseConfig; desiredModel := None;
     chromeProfile := Some (units "Work"); timeoutMs := 30000;
     inputTimeoutMs := 5000; headless := true; hideWindow := false;
     keepBrowser := true; cookieSync := false; debug := true |}.

End Scenario.

(** ** The commands of scripts/browser-tools.ts *)

(** The commands run on a host: they execute shell commands, spawn
    Chrome, talk to it through puppeteer and write to the console.
    What the host answers is read from a scenario ([Devtools]); what a
    command does is recorded, in order, in a trace of events.  The
    console and [spawn] are taken to return; [browserURL] is the
    [http://localhost:${port}] behind every [Connect port]. *)
Module Tools.

(** How a command stops short of returning: by a throw, or by
    [process.exit], which ends the process then and there and which no
    [catch] or [finally] block sees. *)
Inductive Stop :=
  | Threw (e : Thrown)
  | Exited (code : Z).

#[local] Set Warnings "-register-all".

(** The values [page.evaluate] hands back, as far as the commands look
    at them; a number is known by the integer it is. *)
Inductive Json :=
  | JUndefined
  | JNull
  | JBool (b : bool)
  | JNumber (z : Z)
  | JString (s : JsString)
  | JArray (items : list Json)
  | JObject (fields : list (JsString * Json)).

(** A property key as [Object.entries] lists it: a name, or the index
    of an array element or of a code unit of a string. *)
Inductive Key :=
  | Name (s : JsString)
  | Index (i : nat).

(** What the commands write to the console, one constructor per
    call of [console.log] and [console.error]. *)
Inductive Line :=
  | FailedToStart (port : Z)
      (* `✗ Failed to start Chrome on port ${port}` *)
  | Listening (port : Z) (profileCopied : bool)
      (* `✓ Chrome listening on http://localhost:${port}${...}` *)
  | OpenedInNewTab (url : JsString)
  | NavigatedCurrentTab (url : JsString)
  | FilePath (path : JsString)
  | CookiesJson (cookies : Json)
      (* JSON.stringify(cookies, null, 2) *)
  | Entry (key : Key) (value : Json)
      (* `${key}: ${value}` *)
  | Blank
      (* '' *)
  | Value (v : Json).

(** The scripts handed to [page.evaluate]. *)
Inductive Script :=
  | RunSnippet (body : JsString)
  | InjectPicker
  | CallPick (message : JsString).

(** What a command does to its host, in the order it does it.  A
    browser is known by the rank of the [puppeteer.connect] call that
    returned it, a tab by its identity. *)
Inductive Event :=
  | Killall                       (* execSync("killall 'Google Chrome'") *)
  | Sleep (ms : Z)                (* await new Promise((r) => setTimeout(r, ms)) *)
  | Mkdir (dir : JsString)        (* execSync(`mkdir -p "${profileDir}"`) *)
  | Rsync (dir : JsString)        (* execSync(`rsync -a --delete ... "${profileDir}/"`) *)
  | Spawn (chromePath : JsString) (port : Z) (dir : JsString)
  | Connect (port : Z)            (* puppeteer.connect({ browserURL: browserURL(port) }) *)
  | Disconnect (browser : nat)
  | Pages (browser : nat)
  | NewPage (browser : nat)
  | Goto (page : nat) (url : JsString)
  | Evaluate (page : nat) (script : Script)
  | Screenshot (page : nat) (path : JsString)
  | Cookies (page : nat)
  | Out (line : Line)             (* console.log *)
  | Err (line : Line).            (* console.error *)

Record Host := {
  trace : list Event;
  dialled : nat                   (* calls of puppeteer.connect so far *)
}.

Definition freshHost : Host := {| trace := []; dialled := 0 |}.

(** What the host answers: [inl e] for a throw or a rejection with
    [e].  The answers of [connect] depend on the rank of the call, those
    of [disconnect] on the browser. *)
Record Devtools := {
  killallE : Thrown + unit;
  mkdirE : Thrown + unit;
  rsyncE : Thrown + unit;
  connectE : nat -> Thrown + unit;
  disconnectE : nat -> Thrown + unit;
  pagesE : Thrown + list nat;
  newPageE : Thrown + nat;
  gotoE : Thrown + unit;
  evaluateE : Script -> Thrown + Json;
  screenshotE : Thrown + unit;
  cookiesE : Thrown + Json;
  isoNow : JsString;              (* new Date().toISOString() *)
  tmpdir : JsString;              (* os.tmpdir() *)
  pathJoin : JsString -> JsString -> JsString   (* path.join *)
}.

Definition T (A : Type) : Type := Host -> (Stop + A) * Host.

Definition ret {A} (a : A) : T A := fun h => (inr a, h).

Definition bind {A B} (c : T A) (k : A -> T B) : T B :=
  fun h =>
    match c h with
    | (inr a, h') => k a h'
    | (inl s, h') => (inl s, h')
    end.

Definition throw {A} (e : Thrown) : T A := fun h => (inl (Threw e), h).

(** [process.exit(code)] *)
Definition exit {A} (code : Z) : T A := fun h => (inl (Exited code), h).

Definition tryCatch {A} (body : T A) (handler : Thrown -> T A) : T A :=
  fun h =>
    match body h with
    | (inl (Threw e), h') => handler e h'
    | done => done
    end.

Definition tryFinally {A} (body : T A) (fin : T unit) : T A :=
  fun h =>
    match body h with
    | (inl (Exited code), h') => (inl (Exited code), h')
    | (r, h') =>
        match fin h' with
        | (inr _, h'') => (r, h'')
        | (inl s, h'') => (inl s, h'')
        end
    end.

Declare Scope tools_scope.
Delimit Scope tools_scope with tools.
Notation "x <- c ;; k" := (bind c (fun x => k))
  (at level 100, c at next level, right associativity) : tools_scope.
Notation "c ;; k" := (bind c (fun _ => k))
  (at level 100, right associativity) : tools_scope.
Local Open Scope tools_scope.

Definition emit (ev : Event) : T unit :=
  fun h => (inr tt, {| trace := trace h ++ [ev]; dialled := dialled h |}).

(** A call into the host: it is made, and throws or answers. *)
Definition request {A} (ev : Event) (o : Thrown + A) : T A :=
  emit ev;;
  match o with
  | inr a => ret a
  | inl e => throw e
  end.

Definition when (b : bool) (c : T unit) : T unit :=
  if b then c else ret tt.

Definition sleep (ms : Z) : T unit := emit (Sleep ms).

(** [new Error('No active tab found')] *)
Definition noActiveTab : Thrown :=
  ErrorObject (units "Error") (units "No active tab found") None.

(** The [TypeError] of [Object.entries(null)] and
    [Object.entries(undefined)]; the wording is V8's. *)
Definition notAnObject : Thrown :=
  ErrorObject (units "TypeError")
    (units "Cannot convert undefined or null to object") None.

(** [parts.join(' ')] *)
Fixpoint joinWords (parts : list JsString) : JsString :=
  match parts with
  | [] => []
  | [word] => word
  | word :: rest => word ++ units " " ++ joinWords rest
  end.

(** [timestamp.replace(/[:.]/g, '-')] *)
Definition dashed (timestamp : JsString) : JsString :=
  map (fun u => if (u =? 58)%N || (u =? 46)%N then 45%N else u) timestamp.

(** [Object.entries(value)] *)
Definition entries (value : Json) : Thrown + list (Key * Json) :=
  match value with
  | JUndefined | JNull => inl notAnObject
  | JBool _ | JNumber _ => inr []
  | JString s => inr (imap (fun i u => (Index i, JString [u])) s)
  | JArray items => inr (imap (fun i item => (Index i, item)) items)
  | JObject fields => inr (map (fun field => (Name field.1, field.2)) fields)
  end.

Section Commands.

Variable env : Devtools.

(** Lines 27-29. *)
Definition connectBrowser (port : Z) : T nat :=
  fun h =>
    let h' := {| trace := trace h ++ [Connect port]; dialled := S (dialled h) |} in
    match connectE env (dialled h) with
    | inr _ => (inr (dialled h), h')
    | inl e => (inl (Threw e), h')
    end.

(** [await browser.disconnect()] *)
Definition disconnect (browser : nat) : T unit :=
  request (Disconnect browser) (disconnectE env browser).

(** Lines 31-40; [pages.at(-1)] is the last tab, if there is one. *)
Definition getActivePage (port : Z) : T (nat * nat) :=
  browser <- connectBrowser port;;
  pages <- request (Pages browser) (pagesE env);;
  match last pages with
  | None => disconnect browser;; throw noActiveTab
  | Some page => ret (browser, page)
  end.

(** The loop of lines 81-91, with [remaining] iterations to go: it
    answers whether a connection was made and closed again. *)
Fixpoint poll (port : Z) (remaining : nat) : T bool :=
  match remaining with
  | O => ret false
  | S later =>
      connected <-
        tryCatch
          (browser <- connectBrowser port;;
           disconnect browser;;
           ret true)
          (fun _ => sleep 500;; ret false);;
      if connected then ret true else poll port later
  end.

(** The [start] command, lines 56-98. *)
Definition startAction (port : Z) (profile : bool)
    (profileDir chromePath : JsString) : T unit :=
  tryCatch (request Killall (killallE env)) (fun _ => ret tt);;
  sleep 1000;;
  request (Mkdir profileDir) (mkdirE env);;
  when profile (request (Rsync profileDir) (rsyncE env));;
  emit (Spawn chromePath port profileDir);;
  connected <- poll port 30;;
  (if negb connected
   then emit (Err (FailedToStart port));; exit 1
   else ret tt);;
  emit (Out (Listening port profile)).

(** The [nav] command, lines 105-125. *)
Definition navAction (url : JsString) (port : Z) (new : bool) : T unit :=
  browser <- connectBrowser port;;
  tryFinally
    (if new then
       page <- request (NewPage browser) (newPageE env);;
       request (Goto page url) (gotoE env);;
       emit (Out (OpenedInNewTab url))
     else
       pages <- request (Pages browser) (pagesE env);;
       match last pages with
       | None => throw noActiveTab
       | Some page =>
           request (Goto page url) (gotoE env);;
           emit (Out (NavigatedCurrentTab url))
       end)
    (disconnect browser).

(** [Object.entries(value).forEach(([key, value]) =>
    console.log(`${key}: ${value}`))] *)
Definition printEntries (value : Json) : T unit :=
  match entries value with
  | inl e => throw e
  | inr fields =>
      foldr (fun field rest => emit (Out (Entry field.1 field.2));; rest)
        (ret tt) fields
  end.

(** The [forEach] of lines 142-145 and 296-299, from index [index] on. *)
Fixpoint printItems (index : nat) (items : list Json) : T unit :=
  match items with
  | [] => ret tt
  | item :: rest =>
      when (bool_decide (0 < index)%nat) (emit (Out Blank));;
      printEntries item;;
      printItems (S index) rest
  end.

(** Lines 141-150, and lines 295-304, which differ in the wording of
    the second test only. *)
Definition printResult (result : Json) : T unit :=
  match result with
  | JArray items => printItems 0 items
  | JObject _ => printEntries result
  | _ => emit (Out (Value result))
  end.

(** The [eval] command, lines 131-154. *)
Definition evalAction (code : list JsString) (port : Z) : T unit :=
  let snippet := joinWords code in
  active <- getActivePage port;;
  let '(browser, page) := active in
  tryFinally
    (result <- request (Evaluate page (RunSnippet snippet))
                 (evaluateE env (RunSnippet snippet));;
     printResult result)
    (disconnect browser).

(** The [screenshot] command, lines 160-171. *)
Definition screenshotAction (port : Z) : T unit :=
  active <- getActivePage port;;
  let '(browser, page) := active in
  tryFinally
    (let timestamp := dashed (isoNow env) in
     let filePath :=
       pathJoin env (tmpdir env)
         (units "screenshot-" ++ timestamp ++ units ".png") in
     request (Screenshot page filePath) (screenshotE env);;
     emit (Out (FilePath filePath)))
    (disconnect browser).

(** The [pick] command, lines 177-308. *)
Definition pickAction (messageParts : list JsString) (port : Z) : T unit :=
  let message := joinWords messageParts in
  active <- getActivePage port;;
  let '(browser, page) := active in
  tryFinally
    (request (Evaluate page InjectPicker) (evaluateE env InjectPicker);;
     result <- request (Evaluate page (CallPick message))
                 (evaluateE env (CallPick message));;
     printResult result)
    (disconnect browser).

(** The [cookies] command, lines 314-323. *)
Definition cookiesAction (port : Z) : T unit :=
  active <- getActivePage port;;
  let '(browser, page) := active in
  tryFinally
    (cookies <- request (Cookies page) (cookiesE env);;
     emit (Out (CookiesJson cookies)))
    (disconnect browser).

End Commands.

End Tools.

(** ** The picker at work in the page (scripts/browser-tools.ts) *)

(** The closure [pick] installs, lines 191-284, seen from the page:
    the variables its handlers share and what they do to the document,
    as events arrive.  What the document answers to a handler (the
    element under the pointer, whether the overlay or the banner
    contains it) comes with the event. *)
Module Picking.

(** [s.split(/\s+/)]: the pieces between the runs of white space; a
    run at either end leaves an empty piece there. *)
Fixpoint splitFrom (inRun : bool) (s : JsString) : list JsString :=
  match s with
  | [] => [[]]
  | u :: rest =>
      if isWhiteSpace u then
        if inRun then splitFrom true rest else [] :: splitFrom true rest
      else
        match splitFrom false rest with
        | piece :: pieces => (u :: piece) :: pieces
        | [] => [[u]]
        end
  end.

Definition splitWhiteSpace (s : JsString) : list JsString :=
  splitFrom false s.

(** [pieces.join(separator)] *)
Fixpoint joinWith (separator : JsString) (pieces : list JsString) : JsString :=
  match pieces with
  | [] => []
  | [piece] => piece
  | piece :: rest => piece ++ separator ++ joinWith separator rest
  end.

(** What [serialize] reads of an ancestor. *)
Record Ancestor := {
  ancestorTagName : JsString;
  ancestorId : JsString;
  ancestorClassName : JsString
}.

(** An element as it is when an event reaches it: its identity, what
    [serialize] reads of it, and its [parentElement] chain, nearest
    first, up to [document.body] (excluded) or to the root. *)
Record Element := {
  node : nat;
  tagName : JsString;
  elementId : JsString;
  className : JsString;
  textContent : option JsString;
  outerHTML : JsString;
  ancestors : list Ancestor
}.

(** The object [serialize] builds; the fields are its keys [tag],
    [id], [class], [text], [html] and [parents], in this order. *)
Record Info := {
  infoTag : JsString;
  infoId : option JsString;
  infoClass : option JsString;
  infoText : option JsString;
  infoHtml : JsString;
  infoParents : JsString
}.

(** What the promise of [pick] is resolved with. *)
Inductive Picked :=
  | Nothing                       (* null *)
  | One (info : Info)
  | Many (selections : list Info).

(** What [document.elementFromPoint] found, and whether the overlay
    and the banner contain it. *)
Record Hit := {
  element : Element;
  inOverlay : bool;
  inBanner : bool
}.

Inductive DomEvent :=
  | MouseMove (hit : option Hit)
  | Click (targetInBanner : bool) (hit : option Hit) (metaKey ctrlKey : bool)
  | KeyDown (key : JsString).

(** The variables the closures of one call of [pick] share, and what
    they do to the page: whether the three listeners are on
    [document] (they are added together, lines 278-280, and removed
    together, lines 214-216), whether the overlay and the banner are
    in the document, the prompt and the count the banner shows, the
    element the highlight frames, the inline outline of the elements touched, how
    many clicks were kept from the page, and what the promise was
    resolved with. *)
Record State := {
  selections : list Info;
  selectedElements : list nat;
  listening : bool;
  overlayAttached : bool;
  bannerAttached : bool;
  bannerShows : JsString * nat;
  highlighted : option nat;
  outlines : gmap nat JsString;
  swallowed : nat;
  settled : option Picked
}.

Definition selectionOutline : JsString := units "3px solid #10b981".

Section Closures.

(** [String.prototype.toLowerCase] *)
Variable toLowerCase : JsString -> JsString.

(** The argument of [pick]. *)
Variable prompt : JsString.

(** Lines 226-228. *)
Definition describe (current : Ancestor) : JsString :=
  let id := if truthyString (ancestorId current)
            then units "#" ++ ancestorId current else [] in
  let cls := if truthyString (ancestorClassName current)
             then units "."
                  ++ joinWith (units ".")
                       (splitWhiteSpace (trim (ancestorClassName current)))
             else [] in
  toLowerCase (ancestorTagName current) ++ id ++ cls.

(** Lines 222-239. *)
Definition serialize (el : Element) : Info :=
  {| infoTag := toLowerCase (tagName el);
     infoId := if truthyString (elementId el) then Some (elementId el) else None;
     infoClass := if truthyString (className el) then Some (className el) else None;
     infoText :=
       match textContent el with
       | Some content =>
           let slice := take 200 (trim content) in
           if truthyString slice then Some slice else None
       | None => None
       end;
     infoHtml := take 500 (outerHTML el);
     infoParents := joinWith (units " > ") (map describe (ancestors el)) |}.

(** Lines 209-211. *)
Definition updateBanner (s : State) : State :=
  {| selections := selections s; selectedElements := selectedElements s;
     listening := listening s; overlayAttached := overlayAttached s;
     bannerAttached := bannerAttached s;
     bannerShows := (prompt, length (selections s));
     highlighted := highlighted s; outlines := outlines s;
     swallowed := swallowed s; settled := settled s |}.

(** Lines 213-220. *)
Definition cleanup (s : State) : State :=
  {| selections := selections s; selectedElements := selectedElements s;
     listening := false; overlayAttached := false; bannerAttached := false;
     bannerShows := bannerShows s; highlighted := highlighted s;
     outlines := foldr (fun el styles => <[ el := [] ]> styles) (outlines s)
                   (selectedElements s);
     swallowed := swallowed s; settled := settled s |}.

(** [resolve(value)]; only the first call counts. *)
Definition resolve (value : Picked) (s : State) : State :=
  {| selections := selections s; selectedElements := selectedElements s;
     listening := listening s; overlayAttached := overlayAttached s;
     bannerAttached := bannerAttached s; bannerShows := bannerShows s;
     highlighted := highlighted s; outlines := outlines s;
     swallowed := swallowed s;
     settled := match settled s with Some first => Some first | None => Some value end |}.

(** What stops [onMove] and [onClick] at lines 243 and 252. *)
Definition target (hit : option Hit) : option Element :=
  match hit with
  | Some found =>
      if inOverlay found || inBanner found then None else Some (element found)
  | None => None
  end.

(** Lines 241-246. *)
Definition onMove (hit : option Hit) (s : State) : State :=
  match target hit with
  | None => s
  | Some el =>
      {| selections := selections s; selectedElements := selectedElements s;
         listening := listening s; overlayAttached := overlayAttached s;
         bannerAttached := bannerAttached s; bannerShows := bannerShows s;
         highlighted := Some (node el); outlines := outlines s;
         swallowed := swallowed s; settled := settled s |}
  end.

(** [event.preventDefault(); event.stopPropagation()] *)
Definition swallow (s : State) : State :=
  {| selections := selections s; selectedElements := selectedElements s;
     listening := listening s; overlayAttached := overlayAttached s;
     bannerAttached := bannerAttached s; bannerShows := bannerShows s;
     highlighted := highlighted s; outlines := outlines s;
     swallowed := S (swallowed s); settled := settled s |}.

(** Lines 255-259. *)
Definition select (el : Element) (s : State) : State :=
  updateBanner
    {| selections := selections s ++ [serialize el];
       selectedElements := selectedElements s ++ [node el];
       listening := listening s; overlayAttached := overlayAttached s;
       bannerAttached := bannerAttached s; bannerShows := bannerShows s;
       highlighted := highlighted s;
       outlines := <[ node el := selectionOutline ]> (outlines s);
       swallowed := swallowed s; settled := settled s |}.

(** Lines 247-266. *)
Definition onClick (targetInBanner : bool) (hit : option Hit)
    (metaKey ctrlKey : bool) (s : State) : State :=
  if targetInBanner then s
  else
    let s := swallow s in
    match target hit with
    | None => s
    | Some el =>
        if metaKey || ctrlKey then
          if bool_decide (node el ∈ selectedElements s) then s
          else select el s
        else
          let s := cleanup s in
          let info := serialize el in
          resolve (match selections s with
                   | [] => One info
                   | _ :: _ => Many (selections s)
                   end) s
    end.

(** Lines 268-276. *)
Definition onKey (key : JsString) (s : State) : State :=
  if bool_decide (key = units "Escape") then resolve Nothing (cleanup s)
  else if bool_decide (key = units "Enter")
          && negb (bool_decide (selections s = []))
  then let s := cleanup s in resolve (Many (selections s)) s
  else s.

(** An event on the page reaches the handlers while they are
    registered. *)
Definition dispatch (s : State) (event : DomEvent) : State :=
  if listening s then
    match event with
    | MouseMove hit => onMove hit s
    | Click targetInBanner hit metaKey ctrlKey =>
        onClick targetInBanner hit metaKey ctrlKey s
    | KeyDown key => onKey key s
    end
  else s.

(** The state a call of [pick] sets up, lines 193-283, on a page
    whose elements carry the inline outlines [styles]. *)
Definition pick (styles : gmap nat JsString) : State :=
  updateBanner
    {| selections := []; selectedElements := []; listening := true;
       overlayAttached := true; bannerAttached := true;
       bannerShows := ([], 0%nat);
       highlighted := None; outlines := styles; swallowed := 0;
       settled := None |}.

(** The call of [pick] after the events [events]. *)
Definition after (styles : gmap nat JsString) (events : list DomEvent)
    : State :=
  foldl dispatch (pick styles) events.

End Closures.

End Picking.

(** ** Reading the files of a prompt (src/oracle/files.ts) *)

Module Files.

(** What the code asks of an [fs.Stats]. *)
Record Stats := { isFile : bool; isDirectory : bool }.

(** The [MinimalFsModule] a call works with; its answers do not
    change during the call. *)
Record FsModule := {
  stat : JsString -> Thrown + Stats;
  readdir : JsString -> Thrown + list JsString;
  readFile : JsString -> Thrown + JsString
}.

Record FileContent := { path : JsString; content : JsString }.

(** `Missing file or directory: ${targetPath}` *)
Definition missing (targetPath : JsString) : Thrown :=
  ErrorObject (units "Error")
    (units "Missing file or directory: " ++ targetPath) None.

(** `Not a file or directory: ${targetPath}` *)
Definition neither (targetPath : JsString) : Thrown :=
  ErrorObject (units "Error")
    (units "Not a file or directory: " ++ targetPath) None.

(** The first rejection among promises; which of several comes
    first is taken to be the array order.  [None] stands for a promise
    that does not settle. *)
Fixpoint rejection {A} (promises : list (option (Thrown + A)))
    : option Thrown :=
  match promises with
  | [] => None
  | Some (inl e) :: _ => Some e
  | _ :: rest => rejection rest
  end.

(** The values of promises that are all fulfilled. *)
Fixpoint fulfilled {A} (promises : list (option (Thrown + A)))
    : option (list A) :=
  match promises with
  | [] => Some []
  | Some (inr a) :: rest =>
      match fulfilled rest with
      | Some values => Some (a :: values)
      | None => None
      end
  | _ :: _ => None
  end.

(** [await Promise.all(promises)]: it rejects as soon as one of them
    does, and is fulfilled when all of them are. *)
Definition promiseAll {A} (promises : list (option (Thrown + A)))
    : option (Thrown + list A) :=
  match rejection promises with
  | Some e => Some (inl e)
  | None =>
      match fulfilled promises with
      | Some values => Some (inr values)
      | None => None
      end
  end.

Section ReadFiles.

(** [path.resolve(cwd, rawPath)] and [path.join(targetPath, entry)] *)
Variables resolve join : JsString -> JsString -> JsString.

Variable fsModule : FsModule.

(** Lines 5-23; [depth] bounds the nesting of the recursive calls. *)
Fixpoint expandToFiles (depth : nat) (targetPath : JsString)
    : option (Thrown + list JsString) :=
  match depth with
  | O => None
  | S deeper =>
      match stat fsModule targetPath with
      | inl _ => Some (inl (missing targetPath))
      | inr stats =>
          if isFile stats then Some (inr [targetPath])
          else if isDirectory stats then
            match readdir fsModule targetPath with
            | inl e => Some (inl e)
            | inr entries =>
                match
                  promiseAll
                    (map (fun entry =>
                            expandToFiles deeper (join targetPath entry))
                       entries)
                with
                | Some (inr nestedFiles) => Some (inr (concat nestedFiles))
                | Some (inl e) => Some (inl e)
                | None => None
                end
            end
          else Some (inl (neither targetPath))
      end
  end.

(** The inner loop, lines 34-41, on what is left of [expandedPaths]. *)
Fixpoint readExpanded (expandedPaths : list JsString)
    (files : list FileContent) (seen : gset JsString)
    : Thrown + list FileContent * gset JsString :=
  match expandedPaths with
  | [] => inr (files, seen)
  | concretePath :: rest =>
      if bool_decide (concretePath ∈ seen) then readExpanded rest files seen
      else
        match readFile fsModule concretePath with
        | inl e => inl e
        | inr content =>
            readExpanded rest
              (files ++ [{| path := concretePath; content := content |}])
              ({[ concretePath ]} ∪ seen)
        end
  end.

(** The outer loop, lines 31-42, on what is left of [filePaths]. *)
Fixpoint readEach (depth : nat) (cwd : JsString) (filePaths : list JsString)
    (files : list FileContent) (seen : gset JsString)
    : option (Thrown + list FileContent) :=
  match filePaths with
  | [] => Some (inr files)
  | rawPath :: rest =>
      let absolutePath := resolve cwd rawPath in
      match expandToFiles depth absolutePath with
      | None => None
      | Some (inl e) => Some (inl e)
      | Some (inr expandedPaths) =>
          match readExpanded expandedPaths files seen with
          | inl e => Some (inl e)
          | inr (files, seen) => readEach depth cwd rest files seen
          end
      end
  end.

(** Lines 25-44. *)
Definition readFiles (depth : nat) (filePaths : list JsString)
    (cwd : JsString) : option (Thrown + list FileContent) :=
  readEach depth cwd filePaths [] ∅.

End ReadFiles.

End Files.

(** ** More scenarios *)

Module Cases.
Import Scenario.

(** A headed browser whose window is to be hidden. *)
Definition hiding : BrowserConfig :=
  {| url := url baseConfig; desiredModel := None; chromeProfile := None;
     timeoutMs := 30000; inputTimeoutMs := 5000; headless := false;
     hideWindow := true; keepBrowser := false; cookieSync := true;
     debug := false |}.

Definition refused : Thrown :=
  ErrorObject (units "Error") (units "connect ECONNREFUSED 127.0.0.1:9222")
    None.

Definition listingFailed : Thrown :=
  ErrorObject (units "Error") (units "Protocol error: Target closed") None.

(** A host on which everything succeeds, except that [connect] and
    the listing of the tabs answer as given. *)
Definition devtools (connect : nat -> Thrown + unit)
    (pages : Thrown + list nat) : Tools.Devtools :=
  {| Tools.killallE := inr tt;
     Tools.mkdirE := inr tt;
     Tools.rsyncE := inr tt;
     Tools.connectE := connect;
     Tools.disconnectE := fun _ => inr tt;
     Tools.pagesE := pages;
     Tools.newPageE := inr 8%nat;
     Tools.gotoE := inr tt;
     Tools.evaluateE := fun _ => inr Tools.JNull;
     Tools.screenshotE := inr tt;
     Tools.cookiesE := inr (Tools.JArray []);
     Tools.isoNow := units "2025-11-02T19:33:07.512Z";
     Tools.tmpdir := units "/tmp";
     Tools.pathJoin := fun dir name => dir ++ units "/" ++ name |}.

(** A browser with two tabs. *)
Definition steady : Tools.Devtools :=
  devtools (fun _ => inr tt) (inr [3; 5]%nat).

(** No browser listens. *)
Definition down : Tools.Devtools :=
  devtools (fun _ => inl refused) (inr [3; 5]%nat).

(** The browser listens from the third attempt on. *)
Definition slow : Tools.Devtools :=
  devtools (fun n => if (n <? 2)%nat then inl refused else inr tt)
    (inr [3; 5]%nat).

(** A browser without a tab. *)
Definition tabless : Tools.Devtools := devtools (fun _ => inr tt) (inr []).

(** A browser that fails to list its tabs. *)
Definition unlisted : Tools.Devtools :=
  devtools (fun _ => inr tt) (inl listingFailed).

Definition scrapingDir : JsString := units "/Users/me/.cache/scraping".

Definition chromeBin : JsString :=
  units "/Applications/Google Chrome.app/Contents/MacOS/Google Chrome".

(** Lower case for the letters A to Z. *)
Definition lower (s : JsString) : JsString :=
  map (fun u => if (65 <=? u)%N && (u <=? 90)%N then (u + 32)%N else u) s.

Definition button : Picking.Element :=
  {| Picking.node := 1;
     Picking.tagName := units "BUTTON";
     Picking.elementId := units "send";
     Picking.className := [];
     Picking.textContent := Some (units "  Send  ");
     Picking.outerHTML := units "<button id=send>  Send  </button>";
     Picking.ancestors :=
       [{| Picking.ancestorTagName := units "FORM";
           Picking.ancestorId := [];
           Picking.ancestorClassName := units "composer  wide" |}] |}.

Definition link : Picking.Element :=
  {| Picking.node := 2;
     Picking.tagName := units "A";
     Picking.elementId := [];
     Picking.className := units "more";
     Picking.textContent := Some (units "More");
     Picking.outerHTML := units "<a class=more>More</a>";
     Picking.ancestors := [] |}.

Definition on (el : Picking.Element) : option Picking.Hit :=
  Some {| Picking.element := el; Picking.inOverlay := false;
          Picking.inBanner := false |}.

(** Cmd-click on the button, twice, and on the link. *)
Definition choosing : list Picking.DomEvent :=
  [Picking.MouseMove (on button);
   Picking.Click false (on button) true false;
   Picking.Click false (on button) true false;
   Picking.Click false (on link) false true].

Definition say : JsString := units "Pick the buttons".

(** [dir + '/' + name], for paths that need no normalising. *)
Definition under (dir name : JsString) : JsString := dir ++ units "/" ++ name.

Definition noEntry : Thrown :=
  ErrorObject (units "Error") (units "ENOENT: no such file or directory") None.

(** A disk with the directory /w/docs and its files a.md and b.md. *)
Definition disk : Files.FsModule :=
  {| Files.stat := fun p =>
       if bool_decide (p = units "/w/docs")
       then inr {| Files.isFile := false; Files.isDirectory := true |}
       else if bool_decide (p = units "/w/docs/a.md")
               || bool_decide (p = units "/w/docs/b.md")
       then inr {| Files.isFile := true; Files.isDirectory := false |}
       else inl noEntry;
     Files.readdir := fun p =>
       if bool_decide (p = units "/w/docs")
       then inr [units "a.md"; units "b.md"]
       else inl noEntry;
     Files.readFile := fun p =>
       if bool_decide (p = units "/w/docs/a.md") then inr (units "A")
       else if bool_decide (p = units "/w/docs/b.md") then inr (units "B")
       else inl noEntry |}.

End Cases.

(** * The vocabulary of the properties *)

(** Updates of one half of the machine. *)
Definition updWorld (f : World -> World) (m : Machine) : Machine :=
  {| world := f (world m); frame := frame m |}.

Definition updFrame (f : Frame -> Frame) (m : Machine) : Machine :=
  {| world := world m; frame := f (frame m) |}.

(** [hoare P c Q]: started in a machine that satisfies [P], the
    computation [c] completes (normally or by a throw) in a machine that
    satisfies [Q] at that completion. *)
Definition hoare {A} (P : Machine -> Prop) (c : M A)
    (Q : Thrown + A -> Machine -> Prop) : Prop :=
  forall m, P m -> Q (c m).1 (c m).2.

(** [I] holds throughout [c]: from [I], at every completion, [I]. *)
Definition invariant {A} (I : Machine -> Prop) (c : M A) : Prop :=
  hoare I c (fun _ => I).

Definition isInr {E A} (o : E + A) : bool :=
  match o with inr _ => true | inl _ => false end.

(** The calls the [finally] block issues, given whether the client and
    the deregistration function are non-null. *)
Definition cleanupCalls (config : BrowserConfig) (connected registered : bool)
    (chrome : Chrome) (userDataDir : JsString) : list Call :=
  (if connected then [CallClientClose] else [])
  ++ (if registered then [CallRemoveTerminationHooks] else [])
  ++ (if keepBrowser config then []
      else [CallChromeKill (pid chrome); CallRm userDataDir]).

Definition isCleanupCall (c : Call) : bool :=
  match c with
  | CallClientClose | CallRemoveTerminationHooks
  | CallChromeKill _ | CallRm _ => true
  | _ => false
  end.

Definition logIf (b : bool) (l : LogLine) (w : World) : World :=
  if b then addLog l w else w.

(** Since the call list was [base], only calls accepted by [ok] were
    issued. *)
Definition issues (base : list Call) (ok : Call -> bool) (m : Machine) : Prop :=
  exists l, calls (world m) = base ++ l /\ Forall (fun c => ok c = true) l.

Definition isWait (c : Call) : bool :=
  match c with CallWaitForAssistantResponse _ => true | _ => false end.

(** Nothing has been assigned to the answer and no wait was issued. *)
Definition waiting (base : list Call) (m : Machine) : Prop :=
  answerText (frame m) = [] /\ runStatus (frame m) = attempted
  /\ issues base (fun c => negb (isWait c)) m.

Definition isNavigate (c : Call) : bool :=
  match c with CallNavigate _ => true | _ => false end.

(** The three calls of the [Promise.all], in the order they are issued. *)
Definition enableBlock : list Call :=
  [CallNetworkEnable; CallPageEnable; CallRuntimeEnable].

(** What has to have happened before a navigation: the three enable
    calls were issued back to back and all three resolved, and with
    cookie sync on, [syncCookies] was called on the session after them
    and returned. *)
Definition primed (env : Env) (config : BrowserConfig) (pre : list Call)
    : Prop :=
  (exists x y,
      pre = x ++ enableBlock ++ y
      /\ (cookieSync config = true ->
          CallSyncCookies (url config) (chromeProfile config) ∈ y))
  /\ networkEnableE env = inr tt
  /\ pageEnableE env = inr tt
  /\ runtimeEnableE env = inr tt
  /\ (cookieSync config = true -> isInr (syncCookiesE env) = true).

(** Every navigation in a call list comes after the priming. *)
Definition navigationsPrimed (env : Env) (config : BrowserConfig)
    (l : list Call) : Prop :=
  forall pre u post, l = pre ++ CallNavigate u :: post -> primed env config pre.

(** No navigation has been issued. *)
Definition quiet (m : Machine) : Prop :=
  Forall (fun c => isNavigate c = false) (calls (world m)).

Definition isModelSelection (c : Call) : bool :=
  match c with CallEnsureModelSelection _ => true | _ => false end.

Definition isSubmit (c : Call) : bool :=
  match c with CallSubmitPrompt _ => true | _ => false end.

(** No call recognised by [bad] has been issued. *)
Definition never (bad : Call -> bool) (m : Machine) : Prop :=
  Forall (fun c => bad c = false) (calls (world m)).

(** Every submission in a call list comes after the selection of
    [model]. *)
Definition selectionPrecedes (model : JsString) (l : list Call) : Prop :=
  forall pre text post,
    l = pre ++ CallSubmitPrompt text :: post ->
    CallEnsureModelSelection model ∈ pre.

Definition isSync (c : Call) : bool :=
  match c with CallSyncCookies _ _ => true | _ => false end.

(** The scenario [env] with another answer of [syncCookies]. *)
Definition withSyncCookies (o : Thrown + Z) (env : Env) : Env :=
  {| traceEnv := traceEnv env; epoch := epoch env; lapse := lapse env;
     mkdtempE := mkdtempE env; launchChromeE := launchChromeE env;
     registerTerminationHooksE := registerTerminationHooksE env;
     connectToChromeE := connectToChromeE env;
     hideChromeWindowE := hideChromeWindowE env;
     networkEnableE := networkEnableE env; pageEnableE := pageEnableE env;
     runtimeEnableE := runtimeEnableE env;
     clearBrowserCookiesE := clearBrowserCookiesE env;
     syncCookiesE := o;
     navigateToChatGPTE := navigateToChatGPTE env;
     ensureNotBlockedE := ensureNotBlockedE env;
     ensurePromptReadyE := ensurePromptReadyE env;
     ensureModelSelectionE := ensureModelSelectionE env;
     ensurePromptReadyAgainE := ensurePromptReadyAgainE env;
     submitPromptE := submitPromptE env;
     waitForAssistantResponseE := waitForAssistantResponseE env;
     captureAssistantMarkdownE := captureAssistantMarkdownE env;
     clientCloseE := clientCloseE env; chromeKillE := chromeKillE env;
     rmE := rmE env |}.

(** The scenario [env] with another answer of [registerTerminationHooks]. *)
Definition withRegistration (o : Thrown + unit) (env : Env) : Env :=
  {| traceEnv := traceEnv env; epoch := epoch env; lapse := lapse env;
     mkdtempE := mkdtempE env; launchChromeE := launchChromeE env;
     registerTerminationHooksE := o;
     connectToChromeE := connectToChromeE env;
     hideChromeWindowE := hideChromeWindowE env;
     networkEnableE := networkEnableE env; pageEnableE := pageEnableE env;
     runtimeEnableE := runtimeEnableE env;
     clearBrowserCookiesE := clearBrowserCookiesE env;
     syncCookiesE := syncCookiesE env;
     navigateToChatGPTE := navigateToChatGPTE env;
     ensureNotBlockedE := ensureNotBlockedE env;
     ensurePromptReadyE := ensurePromptReadyE env;
     ensureModelSelectionE := ensureModelSelectionE env;
     ensurePromptReadyAgainE := ensurePromptReadyAgainE env;
     submitPromptE := submitPromptE env;
     waitForAssistantResponseE := waitForAssistantResponseE env;
     captureAssistantMarkdownE := captureAssistantMarkdownE env;
     clientCloseE := clientCloseE env; chromeKillE := chromeKillE env;
     rmE := rmE env |}.

(** Two completions agree: both throw the same value, or both return,
    and the values are related. *)
Definition agree {A} (RA : A -> A -> Prop) (r r' : Thrown + A) : Prop :=
  match r, r' with
  | inr a, inr a' => RA a a'
  | inl e, inl e' => e = e'
  | _, _ => False
  end.

(** A log line with the cookie count forgotten. *)
Definition blur (l : LogLine) : LogLine :=
  match l with
  | LogCopiedCookies _ _ => LogNoCookies
  | _ => l
  end.

(** Two machines alike in everything but the line that reports the
    cookie count. *)
Definition sameButCookieLine (m m' : Machine) : Prop :=
  frame m = frame m'
  /\ dirs (world m) = dirs (world m')
  /\ procs (world m) = procs (world m')
  /\ session (world m) = session (world m')
  /\ hooks (world m) = hooks (world m')
  /\ ticks (world m) = ticks (world m')
  /\ calls (world m) = calls (world m')
  /\ map blur (logged (world m)) = map blur (logged (world m')).

Definition isDeregistration (c : Call) : bool :=
  match c with CallRemoveTerminationHooks => true | _ => false end.

(** Two frames alike in everything but the deregistration function. *)
Definition sameLocalsButHooks (f f' : Frame) : Prop :=
  client f = client f'
  /\ answerText f = answerText f'
  /\ answerMarkdown f = answerMarkdown f'
  /\ answerHtml f = answerHtml f'
  /\ runStatus f = runStatus f'.

(** Two machines alike in everything but the termination hooks: whether
    they are registered, whether there is a function to deregister them,
    and the call of that function. *)
Definition sameButHooks (m m' : Machine) : Prop :=
  sameLocalsButHooks (frame m) (frame m')
  /\ dirs (world m) = dirs (world m')
  /\ procs (world m) = procs (world m')
  /\ session (world m) = session (world m')
  /\ ticks (world m) = ticks (world m')
  /\ logged (world m) = logged (world m')
  /\ List.filter (fun c => negb (isDeregistration c)) (calls (world m))
     = List.filter (fun c => negb (isDeregistration c)) (calls (world m')).

(** What follows speaks about one call: its collaborators [env], its
    resolved configuration, whether a log sink was supplied, the browser
    and the profile directory it got, its trimmed prompt and the clock
    reading at the start of its [try] block. *)
Section Vocabulary.

Context {Raw : Type}.
Variable resolveBrowserConfig : Raw -> BrowserConfig.
Variable estimateTokenCount : JsString -> Z.
Variable env : Env.
Variables (config : BrowserConfig) (supplied : bool) (chrome : Chrome).
Variables (userDataDir promptText : JsString) (startedAt : Z).
Variable error : Thrown.
Variable model : JsString.
Variable sim : Machine -> Machine -> Prop.

Local Abbreviation call := (run resolveBrowserConfig estimateTokenCount env).

(** The lines the [catch] block logs. *)
Definition failureLines : list LogLine :=
  LogFailed (messageOf error)
  :: (if debug config || traceEnv env
      then match stackOf error with Some s => [LogStack s] | None => [] end
      else []).

(** The machine in which the [try] block is entered, for a call with
    trimmed prompt [promptText] whose profile directory [userDataDir]
    was made and whose browser [chrome] was launched. *)
Definition atTry (config : BrowserConfig) (supplied : bool)
    (promptText userDataDir : JsString) (chrome : Chrome) (w : World)
    : Machine :=
  let w1 := logIf (supplied && (debug config || traceEnv env))
              (LogConfig config (length promptText)) (begin w) in
  let w2 := logIf supplied (LogCreatedProfile userDataDir)
              (addDir userDataDir (addCall CallMkdtemp w1)) in
  let w3 := addProc (pid chrome)
              (addCall (CallLaunchChrome userDataDir) w2) in
  let w4 := addCall
              (CallRegisterTerminationHooks (pid chrome) userDataDir
                 (keepBrowser config)) w3 in
  let registered := isInr (registerTerminationHooksE env) in
  {| world := tick (if registered then setHooks true w4 else w4);
     frame :=
       {| removeTerminationHooks := registered; client := false;
          answerText := []; answerMarkdown := []; answerHtml := [];
          runStatus := attempted |} |}.

(** How far a call got before its [try] block. *)
Inductive Reach (options : BrowserRunOptions Raw) (w : World) : Prop :=
  | RejectedPrompt :
      blankPrompt (prompt options) ->
      call options w
      = (inl promptRequired, {| world := begin w; frame := initialFrame |}) ->
      Reach options w
  | NoProfile (promptText : JsString) (e : Thrown) :
      trim <$> prompt options = Some promptText ->
      promptText <> [] ->
      mkdtempE env = inl e ->
      (call options w).1 = inl e ->
      calls (world (call options w).2) = [CallMkdtemp] ->
      dirs (world (call options w).2) = dirs w ->
      procs (world (call options w).2) = procs w ->
      Reach options w
  | NoBrowser (promptText userDataDir : JsString) (e : Thrown) :
      trim <$> prompt options = Some promptText ->
      promptText <> [] ->
      mkdtempE env = inr userDataDir ->
      launchChromeE env = inl e ->
      (call options w).1 = inl e ->
      calls (world (call options w).2)
      = [CallMkdtemp; CallLaunchChrome userDataDir] ->
      dirs (world (call options w).2) = {[ userDataDir ]} ∪ dirs w ->
      procs (world (call options w).2) = procs w ->
      Reach options w
  | Launched (promptText userDataDir : JsString) (chrome : Chrome) :
      trim <$> prompt options = Some promptText ->
      promptText <> [] ->
      mkdtempE env = inr userDataDir ->
      launchChromeE env = inr chrome ->
      Reach options w.

(** The wait was issued and threw: the [catch] block has logged it,
    and the answer is still unassigned. *)
Definition timedOut (r : Thrown + BrowserRunResult) (m : Machine) : Prop :=
  r = inl error /\ answerText (frame m) = []
  /\ runStatus (frame m) = attempted
  /\ (supplied = true -> LogFailed (messageOf error) ∈ logged (world m)).

(** The enable calls were joined; nothing navigated yet. *)
Definition enabled (m : Machine) : Prop :=
  quiet m
  /\ (exists x y, calls (world m) = x ++ enableBlock ++ y)
  /\ networkEnableE env = inr tt /\ pageEnableE env = inr tt
  /\ runtimeEnableE env = inr tt.

(** Ready to navigate. *)
Definition ready (m : Machine) : Prop :=
  quiet m /\ primed env config (calls (world m)).

(** Past the first navigation. *)
Definition navigated (m : Machine) : Prop :=
  navigationsPrimed env config (calls (world m))
  /\ primed env config (calls (world m)).

(** The model was selected; nothing submitted yet. *)
Definition selected (m : Machine) : Prop :=
  never isSubmit m /\ CallEnsureModelSelection model ∈ calls (world m).

(** Past the first submission. *)
Definition submitted (m : Machine) : Prop :=
  selectionPrecedes model (calls (world m))
  /\ CallEnsureModelSelection model ∈ calls (world m).

(** The result built from the answer [answer] and the copied markdown
    [copied], when the clock is read for the [n]-th time. *)
Definition resultOf (answer : Answer) (copied : option JsString) (n : nat)
    : BrowserRunResult :=
  let markdown := default (text answer) copied in
  let answerHtml := default [] (html answer) in
  {| answerTextR := text answer;
     answerMarkdownR := markdown;
     answerHtmlR := if truthyString answerHtml then Some answerHtml else None;
     tookMs := clock env n - startedAt;
     answerTokens := estimateTokenCount markdown;
     answerChars := length (text answer);
     chromePid := pid chrome;
     chromePort := port chrome;
     userDataDirR := userDataDir |}.

(** A result, if there is one, was built by [resultOf]. *)
Definition succeeded (r : Thrown + BrowserRunResult) : Prop :=
  forall result, r = inr result ->
    exists answer copied n,
      waitForAssistantResponseE env = inr answer
      /\ captureAssistantMarkdownE env = inr copied
      /\ result = resultOf answer copied n.

(** The sync was issued, the warning logged, and the navigation
    followed at once. *)
Definition proceeded (m : Machine) : Prop :=
  (exists pre post,
      calls (world m)
      = pre ++ CallSyncCookies (url config) (chromeProfile config)
            :: CallNavigate (url config) :: post)
  /\ (supplied = true -> LogNoCookies ∈ logged (world m)).

(** From machines that are alike, [c] and [c'] complete alike, in
    machines that are alike. *)
Definition lockstep {A} (RA : A -> A -> Prop) (c c' : M A) : Prop :=
  forall m m', sim m m' ->
    agree RA (c m).1 (c' m').1 /\ sim (c m).2 (c' m').2.

End Vocabulary.

(** ** The script of the [try] block *)

(** The error of a completion, if it is a throw. *)
Definition errorOf {A} (o : Thrown + A) : option Thrown :=
  match o with inl e => Some e | inr _ => None end.

(** A step of a script: a call, and the error it ends the script with,
    if it does. *)
Definition Step : Type := Call * option Thrown.

(** The calls issued when a script is played: all of them up to and
    including the first that ends it. *)
Fixpoint played (s : list Step) : list Call :=
  match s with
  | [] => []
  | (c, None) :: rest => c :: played rest
  | (c, Some _) :: _ => [c]
  end.

(** The error that ends a script, if one does. *)
Fixpoint failure (s : list Step) : option Thrown :=
  match s with
  | [] => None
  | (_, None) :: rest => failure rest
  | (_, Some e) :: _ => Some e
  end.

(** How the [Promise.all] of three calls rejects: with the first
    rejection in array order. *)
Definition joined (ra rb rc : Thrown + unit) : option Thrown :=
  match ra, rb, rc with
  | inr _, inr _, inr _ => None
  | inl e, _, _ => Some e
  | _, inl e, _ => Some e
  | _, _, inl e => Some e
  end.

(** [c] issues the calls of [s] as played, whatever the machine it
    starts in, and throws what ends [s]. *)
Definition plays {A} (c : M A) (s : list Step) : Prop :=
  forall m,
    calls (world (c m).2) = calls (world m) ++ played s
    /\ errorOf (c m).1 = failure s.

(** A computation that issues no call and returns. *)
Definition silent {A} (c : M A) : Prop :=
  forall m, calls (world (c m).2) = calls (world m) /\ errorOf (c m).1 = None.

Section Script.

Variable env : Env.
Variables (config : BrowserConfig) (chrome : Chrome) (promptText : JsString).

(** The calls of the [try] block, lines 59-91, in program order.  The
    three enable calls are all issued before their [Promise.all] is
    awaited. *)
Definition script : list Step :=
  [(CallConnectToChrome (port chrome), errorOf (connectToChromeE env))]
  ++ (if negb (headless config) && hideWindow config
      then [(CallHideChromeWindow, errorOf (hideChromeWindowE env))]
      else [])
  ++ [(CallNetworkEnable, None); (CallPageEnable, None);
      (CallRuntimeEnable,
       joined (networkEnableE env) (pageEnableE env) (runtimeEnableE env));
      (CallClearBrowserCookies, errorOf (clearBrowserCookiesE env))]
  ++ (if cookieSync config
      then [(CallSyncCookies (url config) (chromeProfile config),
             errorOf (syncCookiesE env))]
      else [])
  ++ [(CallNavigate (url config), errorOf (navigateToChatGPTE env));
      (CallEnsureNotBlocked (headless config),
       errorOf (ensureNotBlockedE env));
      (CallEnsurePromptReady (inputTimeoutMs config),
       errorOf (ensurePromptReadyE env))]
  ++ match desiredModel config with
     | Some model =>
         if truthyString model
         then [(CallEnsureModelSelection model,
                errorOf (ensureModelSelectionE env));
               (CallEnsurePromptReady (inputTimeoutMs config),
                errorOf (ensurePromptReadyAgainE env))]
         else []
     | None => []
     end
  ++ [(CallSubmitPrompt promptText, errorOf (submitPromptE env));
      (CallWaitForAssistantResponse (timeoutMs config),
       errorOf (waitForAssistantResponseE env))]
  ++ match waitForAssistantResponseE env with
     | inr answer =>
         [(CallCaptureAssistantMarkdown (meta answer),
           errorOf (captureAssistantMarkdownE env))]
     | inl _ => []
     end.

End Script.

(** ** What the log tells *)

Definition isFailureLine (l : LogLine) : bool :=
  match l with LogFailed _ => true | _ => false end.

(** The lines only logged under [debug] or the trace variable. *)
Definition isDebugLine (l : LogLine) : bool :=
  match l with LogConfig _ _ | LogStack _ => true | _ => false end.

(** No line recognised by [bad] has been logged. *)
Definition unlogged (bad : LogLine -> bool) (m : Machine) : Prop :=
  Forall (fun l => bad l = false) (logged (world m)).

(** The [try] block is still running, the clock was read [n] times
    and no failure was logged. *)
Definition underway (n : nat) (m : Machine) : Prop :=
  runStatus (frame m) = attempted /\ ticks (world m) = n
  /\ unlogged isFailureLine m.

(** How the [try] block, and the [catch] block after it, leave the
    machine they entered after [n] readings of the clock at
    [startedAt]: with a result, the status is [complete], the clock
    was read once more and gave the duration, and no failure is
    logged; with a throw, the status is still [attempted], the clock
    was not read, and the failures logged are this one. *)
Definition concluded (env : Env) (supplied : bool) (startedAt : Z) (n : nat)
    (r : Thrown + BrowserRunResult) (m : Machine) : Prop :=
  match r with
  | inr result =>
      runStatus (frame m) = complete /\ ticks (world m) = S n
      /\ tookMs result = clock env n - startedAt
      /\ unlogged isFailureLine m
  | inl e =>
      runStatus (frame m) = attempted /\ ticks (world m) = n
      /\ (supplied = true -> LogFailed (messageOf e) ∈ logged (world m))
      /\ (forall message,
            LogFailed message ∈ logged (world m) -> message = messageOf e)
  end.

(** The same call without a log sink. *)
Definition withoutLog {Raw} (options : BrowserRunOptions Raw)
    : BrowserRunOptions Raw :=
  {| prompt := prompt options; config := config options; log := false |}.

(** Two machines alike in everything but the log, the second with
    an empty one. *)
Definition sameButLog (m m' : Machine) : Prop :=
  frame m = frame m'
  /\ dirs (world m) = dirs (world m')
  /\ procs (world m) = procs (world m')
  /\ session (world m) = session (world m')
  /\ hooks (world m) = hooks (world m')
  /\ ticks (world m) = ticks (world m')
  /\ calls (world m) = calls (world m')
  /\ logged (world m') = [].

(** ** The picker at work: what holds of every state *)

(** A state of a call of [pick] on a page whose elements carried the
    inline outlines [styles]: the elements selected are distinct, there
    is one selection for each, the banner shows their number, and the
    picker is either at work (listening, overlay and banner in the
    document, the elements selected outlined) or settled (not
    listening, overlay and banner gone, the outline of the elements
    selected emptied); an element never selected has the outline it
    had. *)
Definition tidy (styles : gmap nat JsString) (prompt : JsString)
    (s : Picking.State) : Prop :=
  NoDup (Picking.selectedElements s)
  /\ length (Picking.selections s) = length (Picking.selectedElements s)
  /\ Picking.bannerShows s = (prompt, length (Picking.selections s))
  /\ Picking.listening s = Picking.overlayAttached s
  /\ Picking.listening s = Picking.bannerAttached s
  /\ Picking.listening s = negb (bool_decide (is_Some (Picking.settled s)))
  /\ (forall el,
        Picking.outlines s !! el
        = if bool_decide (el ∈ Picking.selectedElements s)
          then Some (if Picking.listening s then Picking.selectionOutline
                     else [])
          else styles !! el)
  /\ match Picking.settled s with
     | Some (Picking.One _) => Picking.selections s = []
     | Some (Picking.Many chosen) =>
         chosen = Picking.selections s /\ chosen <> []
     | Some Picking.Nothing | None => True
     end.

(** ** The commands: what their traces are asked *)

Module ToolsSpec.
Import Tools.

(** The attempt of rank [n] of the polling loop succeeds: the
    connection is made and closed again. *)
Definition up (env : Devtools) (n : nat) : bool :=
  isInr (connectE env n) && isInr (disconnectE env n).

Definition isConnect (ev : Event) : bool :=
  match ev with Connect _ => true | _ => false end.

Definition isDisconnect (ev : Event) : bool :=
  match ev with Disconnect _ => true | _ => false end.

Definition isBlank (ev : Event) : bool :=
  match ev with Out Blank => true | _ => false end.

Definition notDisconnect (ev : Event) : bool := negb (isDisconnect ev).

(** The number of events of a kind. *)
Definition count (kind : Event -> bool) (events : list Event) : nat :=
  length (List.filter kind events).

(** The milliseconds slept. *)
Fixpoint slept (events : list Event) : Z :=
  match events with
  | Sleep ms :: rest => ms + slept rest
  | _ :: rest => slept rest
  | [] => 0
  end.

(** The lines written with [console.log]. *)
Fixpoint printed (events : list Event) : list Line :=
  match events with
  | Out line :: rest => line :: printed rest
  | _ :: rest => printed rest
  | [] => []
  end.

(** The events of the polling loop from the attempt of rank [rank]
    on, with [remaining] iterations to go. *)
Fixpoint polled (env : Devtools) (port : Z) (rank remaining : nat)
    : list Event :=
  match remaining with
  | O => []
  | S later =>
      Connect port
      :: (if isInr (connectE env rank) then [Disconnect rank] else [])
      ++ (if up env rank then []
          else Sleep 500 :: polled env port (S rank) later)
  end.

(** The connection to [browser] was closed at the very end, and
    nothing was closed before. *)
Definition closedOnce (browser : nat) (events : list Event) : Prop :=
  exists before,
    events = before ++ [Disconnect browser]
    /\ Forall (fun ev => isDisconnect ev = false) before.

(** [c] neither ends the process nor issues an event outside [ok],
    and it leaves the rank of the next connection alone. *)
Definition emits {A} (ok : Event -> bool) (c : T A) : Prop :=
  forall h,
    (exists l, trace (c h).2 = trace h ++ l
               /\ Forall (fun ev => ok ev = true) l)
    /\ (forall code, (c h).1 <> inl (Exited code)).

(** What [page.evaluate] hands back of a description: the object
    with its six keys in the order [serialize] writes them. *)
Definition describeJson (info : Picking.Info) : Json :=
  let orNull (v : option JsString) :=
    match v with Some s => JString s | None => JNull end in
  JObject
    [(units "tag", JString (Picking.infoTag info));
     (units "id", orNull (Picking.infoId info));
     (units "class", orNull (Picking.infoClass info));
     (units "text", orNull (Picking.infoText info));
     (units "html", JString (Picking.infoHtml info));
     (units "parents", JString (Picking.infoParents info))].

(** What [page.evaluate] hands back of the value the promise of
    [pick] was resolved with. *)
Definition report (picked : Picking.Picked) : Json :=
  match picked with
  | Picking.Nothing => JNull
  | Picking.One info => describeJson info
  | Picking.Many chosen => JArray (map describeJson chosen)
  end.

(** The lines [Object.entries(item).forEach(...)] writes for an
    item that is neither null nor undefined. *)
Definition itemLines (item : Json) : list Line :=
  match entries item with
  | inr fields => map (fun field => Entry field.1 field.2) fields
  | inl _ => []
  end.

(** Groups of lines with one blank line between two groups. *)
Definition paragraphs (groups : list (list Line)) : list Line :=
  match groups with
  | [] => []
  | first :: rest => first ++ concat (map (cons Blank) rest)
  end.

End ToolsSpec.

(** ** Reading files: what the result is asked *)

(** The first occurrence of every element, in order. *)
Definition firstOccurrences (l : list JsString) : list JsString :=
  reverse (remove_dups (reverse l)).

(** The expansions of the paths given: [expansions] lists, for each
    of [filePaths] in turn, the files [expandToFiles] found for it. *)
Definition expandsTo (resolve join : JsString -> JsString -> JsString)
    (fsModule : Files.FsModule) (depth : nat) (cwd : JsString)
    (filePaths : list JsString) (expansions : list (list JsString)) : Prop :=
  Forall2
    (fun rawPath expanded =>
       Files.expandToFiles join fsModule depth (resolve cwd rawPath)
       = Some (inr expanded))
    filePaths expansions.

(** What the two loops of [readFiles] keep: the files read so far
    are the first occurrences of the paths met so far, [seen] holds
    their paths, and every content is what [readFile] answered. *)
Definition kept (fsModule : Files.FsModule) (met : list JsString)
    (files : list Files.FileContent) (seen : gset JsString) : Prop :=
  map Files.path files = firstOccurrences met
  /\ (forall p, p ∈ seen <-> p ∈ met)
  /\ Forall (fun file =>
               Files.readFile fsModule (Files.path file)
               = inr (Files.content file))
       files.

(** * Properties *)

(** ** White space and [trim] *)

Lemma trimStart_nil_iff (s : JsString) :
  trimStart s = [] <-> Forall (fun u => isWhiteSpace u = true) s.
Proof.
  induction s as [|u s IH]; simpl.
  - split; auto.
  - destruct (isWhiteSpace u) eqn:Hu.
    + rewrite IH. split.
      * intros H. constructor; assumption.
      * intros H. inversion H; assumption.
    + split; [discriminate|].
      intros H. inversion H; congruence.
Qed.

Lemma trimStart_head (s : JsString) (u : N) (t : JsString) :
  trimStart s = u :: t -> isWhiteSpace u = false.
Proof.
  induction s as [|x l IHl]; simpl; [discriminate|].
  destruct (isWhiteSpace x) eqn:Hx; [exact IHl|].
  intros [= -> _]. exact Hx.
Qed.

Lemma trim_nil_iff (s : JsString) :
  trim s = [] <-> Forall (fun u => isWhiteSpace u = true) s.
Proof.
  unfold trim, trimEnd. split.
  - intros H.
    assert (Hr : trimStart (rev (trimStart s)) = []).
    { apply (f_equal (@rev N)) in H. rewrite rev_involutive in H. exact H. }
    apply trimStart_nil_iff in Hr.
    destruct (trimStart s) as [|u t] eqn:Hs.
    + apply trimStart_nil_iff. exact Hs.
    + exfalso.
      pose proof (trimStart_head _ _ _ Hs) as Hu.
      rewrite Forall_forall in Hr.
      specialize (Hr u). rewrite Hu in Hr.
      assert (u ∈ rev (u :: t)) as Hin.
      { rewrite list_elem_of_In, <- in_rev. left. reflexivity. }
      specialize (Hr Hin). discriminate.
  - intros H. apply trimStart_nil_iff in H. rewrite H. reflexivity.
Qed.

Lemma blankPrompt_trim (p : option JsString) :
  blankPrompt p <-> trim <$> p = None \/ trim <$> p = Some [].
Proof.
  destruct p as [s|]; simpl.
  - rewrite <- trim_nil_iff. split.
    + intros ->. right. reflexivity.
    + intros [H|H]; [discriminate | congruence].
  - split; auto.
Qed.

(** ** A program logic for [M] *)

Section Hoare.

Context {A B : Type}.
Implicit Types (P : Machine -> Prop).

Lemma hoare_conseq P P' (c : M A) (Q Q' : Thrown + A -> Machine -> Prop) :
  hoare P' c Q' ->
  (forall m, P m -> P' m) ->
  (forall r m, Q' r m -> Q r m) ->
  hoare P c Q.
Proof. unfold hoare. auto. Qed.

Lemma hoare_ret P (a : A) (Q : Thrown + A -> Machine -> Prop) :
  (forall m, P m -> Q (inr a) m) -> hoare P (ret a) Q.
Proof. unfold hoare, ret. auto. Qed.

Lemma hoare_throw P (e : Thrown) (Q : Thrown + A -> Machine -> Prop) :
  (forall m, P m -> Q (inl e) m) -> hoare P (throw e) Q.
Proof. unfold hoare, throw. auto. Qed.

Lemma hoare_bind P (c : M A) (k : A -> M B)
    (Qa : Thrown + A -> Machine -> Prop)
    (Q : Thrown + B -> Machine -> Prop) :
  hoare P c Qa ->
  (forall a, hoare (Qa (inr a)) (k a) Q) ->
  (forall e m, Qa (inl e) m -> Q (inl e) m) ->
  hoare P (bind c k) Q.
Proof.
  unfold hoare, bind. intros Hc Hk He m Hm.
  specialize (Hc m Hm). destruct (c m) as [[e|a] m']; simpl in *.
  - apply He, Hc.
  - apply Hk, Hc.
Qed.

Lemma hoare_tryCatch P (body : M A) (handler : Thrown -> M A)
    (Qb Q : Thrown + A -> Machine -> Prop) :
  hoare P body Qb ->
  (forall e, hoare (Qb (inl e)) (handler e) Q) ->
  (forall a m, Qb (inr a) m -> Q (inr a) m) ->
  hoare P (tryCatch body handler) Q.
Proof.
  unfold hoare, tryCatch. intros Hb Hh Ha m Hm.
  specialize (Hb m Hm). destruct (body m) as [[e|a] m']; simpl in *.
  - apply Hh, Hb.
  - apply Ha, Hb.
Qed.

Lemma hoare_tryFinally P (body : M A) (fin : M unit)
    (Qb Q : Thrown + A -> Machine -> Prop) :
  hoare P body Qb ->
  (forall r, hoare (Qb r) fin
     (fun r' m => match r' with inr _ => Q r m | inl e => Q (inl e) m end)) ->
  hoare P (tryFinally body fin) Q.
Proof.
  unfold hoare, tryFinally. intros Hb Hf m Hm.
  specialize (Hb m Hm). destruct (body m) as [r m']; simpl in *.
  specialize (Hf r m' Hb). destruct (fin m') as [[e|[]] m'']; exact Hf.
Qed.

Lemma hoare_false (c : M A) (Q : Thrown + A -> Machine -> Prop) :
  hoare (fun _ => False) c Q.
Proof. intros m []. Qed.

End Hoare.

Lemma hoare_onWorld P (f : World -> World)
    (Q : Thrown + unit -> Machine -> Prop) :
  (forall m, P m -> Q (inr tt) (updWorld f m)) -> hoare P (onWorld f) Q.
Proof. unfold hoare, onWorld. auto. Qed.

Lemma hoare_onFrame P (f : Frame -> Frame)
    (Q : Thrown + unit -> Machine -> Prop) :
  (forall m, P m -> Q (inr tt) (updFrame f m)) -> hoare P (onFrame f) Q.
Proof. unfold hoare, onFrame. auto. Qed.

Lemma hoare_getFrame P (Q : Thrown + Frame -> Machine -> Prop) :
  (forall m, P m -> Q (inr (frame m)) m) -> hoare P getFrame Q.
Proof. unfold hoare, getFrame. auto. Qed.

Lemma hoare_dateNow P env (Q : Thrown + Z -> Machine -> Prop) :
  (forall m, P m ->
     Q (inr (clock env (ticks (world m)))) (updWorld tick m)) ->
  hoare P (dateNow env) Q.
Proof. unfold hoare, dateNow. auto. Qed.

Lemma hoare_when P (b : bool) (c : M unit)
    (Q : Thrown + unit -> Machine -> Prop) :
  (b = true -> hoare P c Q) ->
  (b = false -> forall m, P m -> Q (inr tt) m) ->
  hoare P (when b c) Q.
Proof.
  destruct b; simpl; intros H1 H2; [auto|].
  apply hoare_ret. auto.
Qed.

Lemma hoare_logger P (supplied : bool) (l : LogLine)
    (Q : Thrown + unit -> Machine -> Prop) :
  (forall m, P m ->
     Q (inr tt) (if supplied then updWorld (addLog l) m else m)) ->
  hoare P (logger supplied l) Q.
Proof.
  intros H. unfold logger. destruct supplied; simpl.
  - apply hoare_onWorld. exact H.
  - apply hoare_ret. exact H.
Qed.

Lemma hoare_perform {A} P (c : Call) (o : Thrown + A) (eff : World -> World)
    (Q : Thrown + A -> Machine -> Prop) :
  (forall m, P m ->
     match o with
     | inr a => Q (inr a) (updWorld eff (updWorld (addCall c) m))
     | inl e => Q (inl e) (updWorld (addCall c) m)
     end) ->
  hoare P (perform c o eff) Q.
Proof.
  intros H m Hm. specialize (H m Hm).
  unfold perform, bind, onWorld, ret, throw. destruct o; exact H.
Qed.

Lemma hoare_promiseAll3 P (a b c : Call) (ra rb rc : Thrown + unit)
    (Q : Thrown + unit -> Machine -> Prop) :
  (forall m, P m ->
     let m' := updWorld (addCall c)
                 (updWorld (addCall b) (updWorld (addCall a) m)) in
     match ra, rb, rc with
     | inr _, inr _, inr _ => Q (inr tt) m'
     | inl e, _, _ => Q (inl e) m'
     | _, inl e, _ => Q (inl e) m'
     | _, _, inl e => Q (inl e) m'
     end) ->
  hoare P (promiseAll3 a b c ra rb rc) Q.
Proof.
  intros H m Hm. specialize (H m Hm).
  unfold promiseAll3, bind, onWorld, ret, throw.
  destruct ra as [?|[]], rb as [?|[]], rc as [?|[]]; exact H.
Qed.

(** *** Invariants *)

Section Invariant.

Variable I : Machine -> Prop.

Lemma inv_ret {A} (a : A) : invariant I (ret a).
Proof. apply hoare_ret. auto. Qed.

Lemma inv_throw {A} (e : Thrown) : invariant I (@throw A e).
Proof. apply hoare_throw. auto. Qed.

Lemma inv_bind {A B} (c : M A) (k : A -> M B) :
  invariant I c -> (forall a, invariant I (k a)) -> invariant I (bind c k).
Proof. intros Hc Hk. eapply hoare_bind; [exact Hc | exact Hk | auto]. Qed.

Lemma inv_tryCatch {A} (body : M A) (handler : Thrown -> M A) :
  invariant I body -> (forall e, invariant I (handler e)) ->
  invariant I (tryCatch body handler).
Proof. intros Hb Hh. eapply hoare_tryCatch; [exact Hb | exact Hh | auto]. Qed.

Lemma inv_tryFinally {A} (body : M A) (fin : M unit) :
  invariant I body -> invariant I fin -> invariant I (tryFinally body fin).
Proof.
  intros Hb Hf. eapply hoare_tryFinally; [exact Hb|].
  intros r m Hm. specialize (Hf m Hm). simpl in Hf.
  destruct (fin m).1; exact Hf.
Qed.

Lemma inv_when (b : bool) (c : M unit) :
  (b = true -> invariant I c) -> invariant I (when b c).
Proof. intros H. apply hoare_when; auto. Qed.

Lemma inv_onWorld (f : World -> World) :
  (forall m, I m -> I (updWorld f m)) -> invariant I (onWorld f).
Proof. exact (hoare_onWorld I f (fun _ => I)). Qed.

Lemma inv_onFrame (f : Frame -> Frame) :
  (forall m, I m -> I (updFrame f m)) -> invariant I (onFrame f).
Proof. exact (hoare_onFrame I f (fun _ => I)). Qed.

Lemma inv_getFrame : invariant I getFrame.
Proof. apply hoare_getFrame. auto. Qed.

Lemma inv_dateNow env :
  (forall m, I m -> I (updWorld tick m)) -> invariant I (dateNow env).
Proof. exact (hoare_dateNow I env (fun _ => I)). Qed.

Lemma inv_logger (supplied : bool) (l : LogLine) :
  (forall m, I m -> I (updWorld (addLog l) m)) ->
  invariant I (logger supplied l).
Proof. intros H. apply hoare_logger. destruct supplied; auto. Qed.

Lemma inv_perform {A} (c : Call) (o : Thrown + A) (eff : World -> World) :
  (forall m, I m -> I (updWorld (addCall c) m)) ->
  (forall m, I m -> I (updWorld eff m)) ->
  invariant I (perform c o eff).
Proof. intros Hc He. apply hoare_perform. destruct o; auto. Qed.

Lemma inv_promiseAll3 (a b c : Call) (ra rb rc : Thrown + unit) :
  (forall m, I m -> I (updWorld (addCall a) m)) ->
  (forall m, I m -> I (updWorld (addCall b) m)) ->
  (forall m, I m -> I (updWorld (addCall c) m)) ->
  invariant I (promiseAll3 a b c ra rb rc).
Proof.
  intros Ha Hb Hc. apply hoare_promiseAll3. intros m Hm.
  assert (I (updWorld (addCall c)
               (updWorld (addCall b) (updWorld (addCall a) m)))) by auto.
  simpl. destruct ra as [?|[]], rb as [?|[]], rc as [?|[]]; assumption.
Qed.

End Invariant.

(** Break an [invariant] goal down along the syntax of the computation;
    what is left are closure conditions of the invariant under single
    updates of the machine, handed to [fin]. *)
Ltac inv_walk fin :=
  lazymatch goal with
  | |- invariant _ (bind _ _) => apply inv_bind; [inv_walk fin | intros ?; inv_walk fin]
  | |- invariant _ (ret _) => apply inv_ret
  | |- invariant _ (throw _) => apply inv_throw
  | |- invariant _ (tryCatch _ _) =>
      apply inv_tryCatch; [inv_walk fin | intros ?; inv_walk fin]
  | |- invariant _ (tryFinally _ _) =>
      apply inv_tryFinally; [inv_walk fin | inv_walk fin]
  | |- invariant _ (when _ _) => apply inv_when; intros ?; inv_walk fin
  | |- invariant _ (logger _ _) => apply inv_logger; fin
  | |- invariant _ (perform _ _ _) => apply inv_perform; fin
  | |- invariant _ (promiseAll3 _ _ _ _ _ _) =>
      apply inv_promiseAll3; fin
  | |- invariant _ (onWorld _) => apply inv_onWorld; fin
  | |- invariant _ (onFrame _) => apply inv_onFrame; fin
  | |- invariant _ getFrame => apply inv_getFrame
  | |- invariant _ (dateNow _) => apply inv_dateNow; fin
  | |- invariant _ (setClient _) => unfold setClient; inv_walk fin
  | |- invariant _ (setAnswerText _) => unfold setAnswerText; inv_walk fin
  | |- invariant _ (setAnswerMarkdown _) => unfold setAnswerMarkdown; inv_walk fin
  | |- invariant _ (setAnswerHtml _) => unfold setAnswerHtml; inv_walk fin
  | |- invariant _ (setRunStatus _) => unfold setRunStatus; inv_walk fin
  | |- invariant _ (setRemoveTerminationHooks _) =>
      unfold setRemoveTerminationHooks; inv_walk fin
  | |- invariant _ (if ?b then _ else _) => destruct b eqn:?; inv_walk fin
  | |- invariant _ (match ?o with _ => _ end) => destruct o eqn:?; inv_walk fin
  | |- invariant _ (attempt _ _ _ _ _ _ _ _) => unfold attempt; inv_walk fin
  | |- invariant _ (rethrow _ _ _ _) => unfold rethrow; inv_walk fin
  | |- invariant _ (cleanup _ _ _ _ _ _) => unfold cleanup; inv_walk fin
  end.

Ltac as_invariant :=
  lazymatch goal with
  | |- hoare ?P ?c _ => change (invariant P c)
  end.

(** ** The [finally] block *)

Section Cleanup.

Variable env : Env.
Variables (config : BrowserConfig) (supplied : bool) (chrome : Chrome).
Variables (userDataDir : JsString) (startedAt : Z).

Local Abbreviation fin :=
  (cleanup env config supplied chrome userDataDir startedAt).

(** The [finally] block never throws: every fallible step of it is
    guarded. *)
Lemma cleanup_returns m : (fin m).1 = inr tt.
Proof.
  unfold cleanup, bind, getFrame, when, tryCatch, perform, onWorld, ret,
    throw, logger, dateNow.
  destruct (client (frame m)), (removeTerminationHooks (frame m)),
    (keepBrowser config), (clientCloseE env) as [?|[]],
    (chromeKillE env) as [?|[]], (rmE env) as [?|[]], supplied;
    reflexivity.
Qed.

Lemma cleanup_frame m : frame (fin m).2 = frame m.
Proof.
  unfold cleanup, bind, getFrame, when, tryCatch, perform, onWorld, ret,
    throw, logger, dateNow.
  destruct (client (frame m)), (removeTerminationHooks (frame m)),
    (keepBrowser config), (clientCloseE env) as [?|[]],
    (chromeKillE env) as [?|[]], (rmE env) as [?|[]], supplied;
    reflexivity.
Qed.

Lemma cleanup_calls m :
  calls (world (fin m).2)
  = calls (world m)
    ++ cleanupCalls config (client (frame m))
         (removeTerminationHooks (frame m)) chrome userDataDir.
Proof.
  unfold cleanup, cleanupCalls, bind, getFrame, when, tryCatch, perform,
    onWorld, ret, throw, logger, dateNow.
  destruct (client (frame m)), (removeTerminationHooks (frame m)),
    (keepBrowser config), (clientCloseE env) as [?|[]],
    (chromeKillE env) as [?|[]], (rmE env) as [?|[]], supplied;
    simpl; rewrite <- ?app_assoc; try reflexivity;
    rewrite ?app_nil_r; reflexivity.
Qed.

Lemma cleanup_hooks m :
  hooks (world (fin m).2)
  = if removeTerminationHooks (frame m) then false else hooks (world m).
Proof.
  unfold cleanup, bind, getFrame, when, tryCatch, perform, onWorld, ret,
    throw, logger, dateNow.
  destruct (client (frame m)), (removeTerminationHooks (frame m)),
    (keepBrowser config), (clientCloseE env) as [?|[]],
    (chromeKillE env) as [?|[]], (rmE env) as [?|[]], supplied;
    reflexivity.
Qed.

Lemma cleanup_session m :
  session (world (fin m).2)
  = if client (frame m) && isInr (clientCloseE env) then false
    else session (world m).
Proof.
  unfold cleanup, bind, getFrame, when, tryCatch, perform, onWorld, ret,
    throw, logger, dateNow.
  destruct (client (frame m)), (removeTerminationHooks (frame m)),
    (keepBrowser config), (clientCloseE env) as [?|[]],
    (chromeKillE env) as [?|[]], (rmE env) as [?|[]], supplied;
    reflexivity.
Qed.

Lemma cleanup_procs m :
  procs (world (fin m).2)
  = if negb (keepBrowser config) && isInr (chromeKillE env)
    then procs (world m) ∖ {[ pid chrome ]}
    else procs (world m).
Proof.
  unfold cleanup, bind, getFrame, when, tryCatch, perform, onWorld, ret,
    throw, logger, dateNow.
  destruct (client (frame m)), (removeTerminationHooks (frame m)),
    (keepBrowser config), (clientCloseE env) as [?|[]],
    (chromeKillE env) as [?|[]], (rmE env) as [?|[]], supplied;
    reflexivity.
Qed.

Lemma cleanup_dirs m :
  dirs (world (fin m).2)
  = if negb (keepBrowser config) && isInr (rmE env)
    then dirs (world m) ∖ {[ userDataDir ]}
    else dirs (world m).
Proof.
  unfold cleanup, bind, getFrame, when, tryCatch, perform, onWorld, ret,
    throw, logger, dateNow.
  destruct (client (frame m)), (removeTerminationHooks (frame m)),
    (keepBrowser config), (clientCloseE env) as [?|[]],
    (chromeKillE env) as [?|[]], (rmE env) as [?|[]], supplied;
    reflexivity.
Qed.

Lemma cleanup_logged m :
  logged (world (fin m).2)
  = logged (world m)
    ++ (if supplied then
          [if keepBrowser config
           then LogLeftRunning (port chrome) userDataDir
           else LogCleanup (runStatus (frame m))
                  (clock env (ticks (world m)) - startedAt)]
        else []).
Proof.
  unfold cleanup, bind, getFrame, when, tryCatch, perform, onWorld, ret,
    throw, logger, dateNow.
  destruct (client (frame m)), (removeTerminationHooks (frame m)),
    (keepBrowser config), (clientCloseE env) as [?|[]],
    (chromeKillE env) as [?|[]], (rmE env) as [?|[]], supplied;
    simpl; rewrite ?app_nil_r; reflexivity.
Qed.

End Cleanup.

Lemma tryFinally_returns {A} (body : M A) (fin : M unit) m :
  (forall m', (fin m').1 = inr tt) ->
  tryFinally body fin m = ((body m).1, (fin (body m).2).2).
Proof.
  intros H. unfold tryFinally. destruct (body m) as [r m']. simpl.
  specialize (H m'). destruct (fin m') as [[e|[]] m'']; simpl in *;
    [discriminate | reflexivity].
Qed.

(** ** The [catch] block *)

Section Rethrow.

Variable env : Env.
Variables (config : BrowserConfig) (supplied : bool) (error : Thrown).

Local Abbreviation failureLines := (failureLines env config error).

Lemma rethrow_spec m :
  rethrow env config supplied error m
  = (inl error,
     updWorld (fun w => if supplied
                        then foldl (fun w l => addLog l w) w failureLines
                        else w) m).
Proof.
  unfold rethrow, failureLines, bind, when, logger, onWorld, ret, throw,
    updWorld.
  destruct m as [w f], supplied, (debug config || traceEnv env),
    (stackOf error); reflexivity.
Qed.

End Rethrow.

(** ** From the call to the [try] block *)

Section Entry.

Context {Raw : Type}.
Variable resolveBrowserConfig : Raw -> BrowserConfig.
Variable estimateTokenCount : JsString -> Z.
Variable env : Env.

Local Abbreviation atTry := (atTry env).

(** A call that gets past the browser launch is the [try]/[catch]
    run from [atTry], followed by the [finally] block. *)
Lemma run_past_launch (options : BrowserRunOptions Raw) (w : World)
    (promptText userDataDir : JsString) (chrome : Chrome) :
  trim <$> prompt options = Some promptText ->
  promptText <> [] ->
  mkdtempE env = inr userDataDir ->
  launchChromeE env = inr chrome ->
  let config := resolveBrowserConfig (config options) in
  let supplied := log options in
  let startedAt := clock env 0 in
  let guarded :=
    tryCatch
      (attempt estimateTokenCount env config supplied chrome userDataDir
         promptText startedAt)
      (rethrow env config supplied) in
  let entry := atTry config supplied promptText userDataDir chrome w in
  run resolveBrowserConfig estimateTokenCount env options w
  = ((guarded entry).1,
     (cleanup env config supplied chrome userDataDir startedAt
        (guarded entry).2).2).
Proof.
  intros Hprompt Hne Hmk Hlaunch. simpl.
  unfold run, runBrowserMode. rewrite Hprompt, Hmk, Hlaunch.
  destruct promptText as [|u t]; [congruence|].
  unfold atTry, logIf.
  destruct (log options), (debug _ || traceEnv env),
    (registerTerminationHooksE env) as [?|[]]; simpl;
    apply tryFinally_returns; intros; apply cleanup_returns.
Qed.

End Entry.

(** ** The [try] and [catch] blocks *)

Lemma issues_start (ok : Call -> bool) m : issues (calls (world m)) ok m.
Proof. exists []. rewrite app_nil_r. split; [reflexivity | constructor]. Qed.

Lemma issues_call base ok c m :
  ok c = true -> issues base ok m -> issues base ok (updWorld (addCall c) m).
Proof.
  intros Hc (l & Hl & Hok). exists (l ++ [c]). split.
  - simpl. rewrite Hl, app_assoc. reflexivity.
  - apply Forall_app. split; [exact Hok | repeat constructor; exact Hc].
Qed.

(** Closure conditions of an [issues] invariant. *)
Ltac issues_fin :=
  intros ? ?;
  first [ assumption
        | apply issues_call; [reflexivity | assumption] ].

Section Guarded.

Variable estimateTokenCount : JsString -> Z.
Variable env : Env.
Variables (config : BrowserConfig) (supplied : bool) (chrome : Chrome).
Variables (userDataDir promptText : JsString) (startedAt : Z).

Local Abbreviation try :=
  (attempt estimateTokenCount env config supplied chrome userDataDir
     promptText startedAt).
Local Abbreviation guarded := (tryCatch try (rethrow env config supplied)).

(** Neither block touches the directories, the processes, the
    termination hooks or the deregistration function. *)
Lemma guarded_host D P H b :
  invariant
    (fun m => dirs (world m) = D /\ procs (world m) = P
              /\ hooks (world m) = H
              /\ removeTerminationHooks (frame m) = b)
    guarded.
Proof. inv_walk ltac:(intros ? Hm; exact Hm). Qed.

(** Neither block issues a call of the [finally] block. *)
Lemma guarded_issues base :
  invariant (issues base (fun c => negb (isCleanupCall c))) guarded.
Proof. inv_walk issues_fin. Qed.

(** Once the session is connected, the client stays non-null and the
    session open until the [finally] block. *)
Lemma guarded_connected :
  connectToChromeE env = inr tt ->
  hoare (fun _ => True) guarded
    (fun _ m => client (frame m) = true /\ session (world m) = true).
Proof.
  intros Hc.
  set (J := fun m => client (frame m) = true /\ session (world m) = true).
  apply hoare_tryCatch with (Qb := fun _ => J); [| |auto].
  - unfold attempt.
    apply hoare_bind
      with (Qa := fun r m => if r is inr _ then session (world m) = true
                             else False).
    + apply hoare_perform. rewrite Hc. intros m _. reflexivity.
    + intros _.
      apply hoare_bind with (Qa := fun _ => J); [| |auto].
      * unfold setClient. apply hoare_onFrame. intros m Hm. split; auto.
      * intros _. as_invariant. inv_walk ltac:(intros ? Hm; exact Hm).
    + intros e m [].
  - intros e. as_invariant. inv_walk ltac:(intros ? Hm; exact Hm).
Qed.

(** Without a session the client stays null and the session flag is
    left alone. *)
Lemma guarded_not_connected e m :
  connectToChromeE env = inl e ->
  client (frame (guarded m).2) = client (frame m)
  /\ session (world (guarded m).2) = session (world m).
Proof.
  intros Hc. unfold tryCatch.
  assert (Ht : try m
               = (inl e, updWorld (addCall (CallConnectToChrome (port chrome))) m)).
  { unfold attempt. rewrite Hc. reflexivity. }
  rewrite Ht, rethrow_spec. simpl. destruct supplied; simpl; [|auto].
  unfold failureLines.
  destruct (debug config || traceEnv env), (stackOf e); simpl; auto.
Qed.

End Guarded.

(** What the world and the locals are at [atTry]. *)
Section AtTry.

Variable env : Env.
Variables (config : BrowserConfig) (supplied : bool).
Variables (promptText userDataDir : JsString) (chrome : Chrome) (w : World).

Local Abbreviation entry :=
  (atTry env config supplied promptText userDataDir chrome w).

Lemma atTry_calls :
  calls (world entry)
  = [CallMkdtemp; CallLaunchChrome userDataDir;
     CallRegisterTerminationHooks (pid chrome) userDataDir
       (keepBrowser config)].
Proof.
  unfold atTry, logIf.
  destruct supplied, (debug config || traceEnv env),
    (registerTerminationHooksE env); reflexivity.
Qed.

Lemma atTry_dirs : dirs (world entry) = {[ userDataDir ]} ∪ dirs w.
Proof.
  unfold atTry, logIf.
  destruct supplied, (debug config || traceEnv env),
    (registerTerminationHooksE env); reflexivity.
Qed.

Lemma atTry_procs : procs (world entry) = {[ pid chrome ]} ∪ procs w.
Proof.
  unfold atTry, logIf.
  destruct supplied, (debug config || traceEnv env),
    (registerTerminationHooksE env); reflexivity.
Qed.

Lemma atTry_session : session (world entry) = session w.
Proof.
  unfold atTry, logIf.
  destruct supplied, (debug config || traceEnv env),
    (registerTerminationHooksE env); reflexivity.
Qed.

Lemma atTry_ticks : ticks (world entry) = 1%nat.
Proof.
  unfold atTry, logIf.
  destruct supplied, (debug config || traceEnv env),
    (registerTerminationHooksE env); reflexivity.
Qed.

Lemma atTry_frame :
  frame entry
  = {| removeTerminationHooks := isInr (registerTerminationHooksE env);
       client := false; answerText := []; answerMarkdown := [];
       answerHtml := []; runStatus := attempted |}.
Proof. reflexivity. Qed.

End AtTry.

(** ** The four ways a call can go *)

Section Cases.

Context {Raw : Type}.
Variable resolveBrowserConfig : Raw -> BrowserConfig.
Variable estimateTokenCount : JsString -> Z.
Variable env : Env.

Local Abbreviation call := (run resolveBrowserConfig estimateTokenCount env).

Local Abbreviation Reach := (Reach resolveBrowserConfig estimateTokenCount env).

Lemma reach (options : BrowserRunOptions Raw) (w : World) : Reach options w.
Proof.
  destruct (trim <$> prompt options) as [[|u t]|] eqn:Hp.
  - apply RejectedPrompt.
    + apply blankPrompt_trim. auto.
    + unfold run, runBrowserMode. rewrite Hp. reflexivity.
  - destruct (mkdtempE env) as [e|d] eqn:Hmk.
    + apply (NoProfile _ _ _ _ _ (u :: t) e); auto; try discriminate;
        unfold run, runBrowserMode; rewrite Hp, Hmk;
        destruct (log options), (debug _ || traceEnv env); reflexivity.
    + destruct (launchChromeE env) as [e|c] eqn:Hl.
      * apply (NoBrowser _ _ _ _ _ (u :: t) d e); auto; try discriminate;
          unfold run, runBrowserMode; rewrite Hp, Hmk, Hl;
          destruct (log options), (debug _ || traceEnv env); reflexivity.
      * apply (Launched _ _ _ _ _ (u :: t) d c); auto; discriminate.
  - apply RejectedPrompt.
    + apply blankPrompt_trim. auto.
    + unfold run, runBrowserMode. rewrite Hp. reflexivity.
Qed.

End Cases.

(** Walk down a chain of binds with one assertion [J] that every
    statement keeps, until [stop] recognises the goal; [fin] closes the
    closure conditions and [exc] the exits by a throw. *)
Ltac walk_until stop J fin exc :=
  tryif stop then idtac
  else
    lazymatch goal with
    | |- hoare _ (bind _ _) _ =>
        eapply hoare_bind with (Qa := fun _ => J);
        [ as_invariant; inv_walk fin
        | intros ?; walk_until stop J fin exc
        | exc ]
    end.

Ltac at_wait :=
  lazymatch goal with
  | |- hoare _ (bind (perform (CallWaitForAssistantResponse _) _ _) _) _ => idtac
  end.

Section Timeout.

Variable estimateTokenCount : JsString -> Z.
Variable env : Env.
Variables (config : BrowserConfig) (supplied : bool) (chrome : Chrome).
Variables (userDataDir promptText : JsString) (startedAt : Z).
Variable error : Thrown.
Hypothesis wait_throws : waitForAssistantResponseE env = inl error.

Local Abbreviation try :=
  (attempt estimateTokenCount env config supplied chrome userDataDir
     promptText startedAt).
Local Abbreviation guarded := (tryCatch try (rethrow env config supplied)).

Local Abbreviation timedOut := (timedOut supplied error).

Lemma try_timeout base :
  hoare (waiting base) try
    (fun r m => waiting base m
                \/ (r = inl error /\ answerText (frame m) = []
                    /\ runStatus (frame m) = attempted)).
Proof.
  unfold attempt.
  walk_until ltac:(idtac; at_wait) (waiting base)
    ltac:(intros ? (Ha & Hs & Hi);
          (split; [exact Ha | split; [exact Hs|]]);
          first [ exact Hi | apply issues_call; [reflexivity | exact Hi] ])
    ltac:(intros ? ? HJ; left; exact HJ).
  eapply hoare_bind
    with (Qa := fun r m => r = inl error /\ answerText (frame m) = []
                           /\ runStatus (frame m) = attempted).
  - apply hoare_perform. rewrite wait_throws.
    intros m (Ha & Hs & _). auto.
  - intros ? ? [Hr _]. discriminate.
  - intros ? ? (Hr & Ha & Hs). right. injection Hr as ->. auto.
Qed.

Lemma guarded_timeout base :
  hoare (waiting base) guarded
    (fun r m => waiting base m \/ timedOut r m).
Proof.
  eapply hoare_tryCatch; [apply try_timeout | |].
  - intros e m [H | (Hr & Ha & Hs)]; rewrite rethrow_spec; cbn [fst snd].
    + left. destruct H as (Ha & Hs & l & Hl & Hok).
      split; [exact Ha | split; [exact Hs|]]. exists l.
      split; [|exact Hok]. rewrite <- Hl. cbn.
      destruct supplied; [|reflexivity]. unfold failureLines.
      destruct (debug config || traceEnv env), (stackOf e); reflexivity.
    + right. injection Hr as ->. split; [reflexivity|].
      split; [exact Ha | split; [exact Hs|]].
      intros ->. cbn. unfold failureLines.
      destruct (debug config || traceEnv env), (stackOf error); cbn;
        set_solver.
  - intros a m [H | (Hr & _)]; [left; exact H | discriminate].
Qed.

End Timeout.
Section Properties.

Context {Raw : Type}.
Variable resolveBrowserConfig : Raw -> BrowserConfig.
Variable estimateTokenCount : JsString -> Z.

Local Abbreviation call := (run resolveBrowserConfig estimateTokenCount).


(** C10.  A call whose prompt is absent, empty or white space only
    throws the prompt-required error before anything is allocated:
    no collaborator is called at all (so no profile directory is
    made, no browser launched and no session opened), and the
    directories, processes and session of the world are as before. *)
Theorem blank_prompt_throws_before_allocating
    (env : Env) (options : BrowserRunOptions Raw) (w : World) :
  blankPrompt (prompt options) ->
  (call env options w).1 = inl promptRequired
  /\ calls (world (call env options w).2) = []
  /\ dirs (world (call env options w).2) = dirs w
  /\ procs (world (call env options w).2) = procs w
  /\ session (world (call env options w).2) = session w.
Proof.
  intros Hblank. apply blankPrompt_trim in Hblank.
  unfold run, runBrowserMode.
  destruct Hblank as [-> | ->]; simpl; auto.
Qed.

End Properties.

Section Properties2.

Context {Raw : Type}.
Variable resolveBrowserConfig : Raw -> BrowserConfig.
Variable estimateTokenCount : JsString -> Z.

Local Abbreviation call := (run resolveBrowserConfig estimateTokenCount).


End Properties2.

(** ** Order of the calls: priming before navigation *)

Lemma snoc_split {A} (l pre post : list A) (c d : A) :
  l ++ [c] = pre ++ d :: post ->
  (pre = l /\ d = c /\ post = [])
  \/ (exists post', post = post' ++ [c] /\ l = pre ++ d :: post').
Proof.
  destruct post as [|x post'] using rev_ind.
  - intros H. apply app_inj_tail in H as [-> ->]. left. auto.
  - clear IHpost'. intros H.
    change (l ++ [c] = pre ++ (d :: post') ++ [x]) in H.
    rewrite app_assoc in H. apply app_inj_tail in H as [-> ->].
    right. exists post'. auto.
Qed.

Section Primed.

Variable env : Env.
Variable config : BrowserConfig.

Lemma primed_snoc l c : primed env config l -> primed env config (l ++ [c]).
Proof.
  intros ((x & y & -> & Hy) & Hrest). split; [|exact Hrest].
  exists x, (y ++ [c]). split.
  - rewrite <- !app_assoc. reflexivity.
  - intros H. rewrite elem_of_app. left. auto.
Qed.

Lemma navigationsPrimed_quiet l :
  Forall (fun c => isNavigate c = false) l -> navigationsPrimed env config l.
Proof.
  intros H pre u post ->. rewrite Forall_app in H. destruct H as [_ H].
  inversion H. discriminate.
Qed.

Lemma navigationsPrimed_snoc l c :
  isNavigate c = false \/ primed env config l ->
  navigationsPrimed env config l -> navigationsPrimed env config (l ++ [c]).
Proof.
  intros Hc Hl pre u post Heq.
  apply snoc_split in Heq as [(-> & <- & _) | (post' & _ & ->)].
  - destruct Hc as [Hc | Hc]; [discriminate | exact Hc].
  - eapply Hl. reflexivity.
Qed.

Lemma navigationsPrimed_app l l' :
  Forall (fun c => isNavigate c = false) l' ->
  navigationsPrimed env config l -> navigationsPrimed env config (l ++ l').
Proof.
  induction l' as [|c l' IH] using rev_ind; intros H Hl.
  - rewrite app_nil_r. exact Hl.
  - rewrite Forall_app in H. destruct H as [H Hc].
    rewrite app_assoc. apply navigationsPrimed_snoc.
    + left. inversion Hc. assumption.
    + auto.
Qed.

End Primed.

Ltac at_enable :=
  lazymatch goal with
  | |- hoare _ (bind (promiseAll3 _ _ _ _ _ _) _) _ => idtac
  end.

Ltac calls_cbn :=
  cbn [updWorld updFrame world frame calls addCall addLog tick setSession
       setHooks addDir removeDir addProc removeProc logged ticks dirs procs
       session hooks id] in *.

Section Priming.

Variable estimateTokenCount : JsString -> Z.
Variable env : Env.
Variables (config : BrowserConfig) (supplied : bool) (chrome : Chrome).
Variables (userDataDir promptText : JsString) (startedAt : Z).

Local Abbreviation try :=
  (attempt estimateTokenCount env config supplied chrome userDataDir
     promptText startedAt).
Local Abbreviation guarded := (tryCatch try (rethrow env config supplied)).

Lemma quiet_call c m :
  isNavigate c = false -> quiet m -> quiet (updWorld (addCall c) m).
Proof.
  unfold quiet. calls_cbn. intros Hc H. apply Forall_app. split; [exact H|].
  repeat constructor. exact Hc.
Qed.

Local Abbreviation enabled := (enabled env).

Lemma enabled_call c m :
  isNavigate c = false -> enabled m -> enabled (updWorld (addCall c) m).
Proof.
  intros Hc (Hq & (x & y & Hxy) & Hok). split; [|split; [|exact Hok]].
  - apply quiet_call; assumption.
  - exists x, (y ++ [c]). calls_cbn. rewrite Hxy, <- !app_assoc. reflexivity.
Qed.

Local Abbreviation ready := (ready env config).

Local Abbreviation navigated := (navigated env config).

Lemma navigated_call c m : navigated m -> navigated (updWorld (addCall c) m).
Proof.
  intros [Hn Hp]. split; calls_cbn.
  - apply navigationsPrimed_snoc; auto.
  - apply primed_snoc. exact Hp.
Qed.

Lemma quiet_navigationsPrimed m :
  quiet m -> navigationsPrimed env config (calls (world m)).
Proof. apply navigationsPrimed_quiet. Qed.

Lemma try_primes :
  hoare quiet try (fun _ m => navigationsPrimed env config (calls (world m))).
Proof.
  unfold attempt.
  walk_until ltac:(idtac; at_enable) quiet
    ltac:(intros ? Hq; first [exact Hq | apply quiet_call; [reflexivity | exact Hq]])
    ltac:(intros ? ? Hq; apply quiet_navigationsPrimed; exact Hq).
  (* the three enable calls *)
  eapply hoare_bind
    with (Qa := fun r m => if r is inr _ then enabled m else quiet m).
  { apply hoare_promiseAll3. intros m Hq m'.
    assert (Hq' : quiet m') by (repeat apply quiet_call; auto).
    destruct (networkEnableE env) as [?|[]] eqn:Hn,
      (pageEnableE env) as [?|[]] eqn:Hp,
      (runtimeEnableE env) as [?|[]] eqn:Hr; try exact Hq'.
    split; [exact Hq'|]. split; [|auto].
    exists (calls (world m)), []. subst m'. calls_cbn.
    rewrite <- !app_assoc. reflexivity. }
  2: { intros ? ? Hq. apply quiet_navigationsPrimed; exact Hq. }
  intros _.
  (* clearBrowserCookies *)
  eapply hoare_bind with (Qa := fun _ => enabled).
  { as_invariant.
    inv_walk ltac:(intros ? He; first [exact He | apply enabled_call; [reflexivity | exact He]]). }
  2: { intros ? ? [Hq _]. apply quiet_navigationsPrimed; exact Hq. }
  intros _.
  (* cookie sync *)
  eapply hoare_bind
    with (Qa := fun r m => if r is inr _ then ready m else quiet m).
  { destruct (cookieSync config) eqn:Hsync.
    - eapply hoare_bind
        with (Qa := fun r m => if r is inr _ then ready m else quiet m).
      + apply hoare_perform. intros m He.
        pose proof (enabled_call (CallSyncCookies (url config) (chromeProfile config))
                      m eq_refl He) as (Hq & (x & y & Hxy) & Hn & Hp & Hr).
        destruct (syncCookiesE env) as [e|count] eqn:Hc; [exact Hq|].
        split; [exact Hq|]. destruct He as (_ & (x0 & y0 & Hxy0) & _).
        split; [|rewrite Hc; auto].
        exists x0, (y0 ++ [CallSyncCookies (url config) (chromeProfile config)]).
        split.
        * calls_cbn. rewrite Hxy0, <- !app_assoc. reflexivity.
        * intros _. rewrite elem_of_app. right. set_solver.
      + intros count. apply hoare_logger. intros m Hr.
        destruct supplied; exact Hr.
      + intros ? ? Hq. exact Hq.
    - apply hoare_logger. intros m (Hq & (x & y & Hxy) & Hn & Hp & Hr).
      assert (Hready : ready m).
      { split; [exact Hq|].
        split; [|repeat split; auto; intros; congruence].
        exists x, y. split; [exact Hxy | intros; congruence]. }
      destruct supplied; exact Hready. }
  2: { intros ? ? Hq. apply quiet_navigationsPrimed; exact Hq. }
  intros _.
  (* navigate, and everything after it *)
  eapply hoare_bind with (Qa := fun _ => navigated).
  { apply hoare_perform. intros m [Hq Hp].
    assert (navigated (updWorld (addCall (CallNavigate (url config))) m)).
    { apply navigated_call. split; [|exact Hp].
      apply quiet_navigationsPrimed. exact Hq. }
    destruct (navigateToChatGPTE env); assumption. }
  2: { intros ? ? [Hn _]. exact Hn. }
  intros _.
  eapply hoare_conseq
    with (P' := navigated) (Q' := fun _ => navigated); [|auto|intros ? ? [Hn _]; exact Hn].
  as_invariant.
  inv_walk ltac:(intros ? Hn; first [exact Hn | apply navigated_call; exact Hn]).
Qed.

End Priming.

Lemma rethrow_calls env config supplied e m :
  calls (world (rethrow env config supplied e m).2) = calls (world m).
Proof.
  rewrite rethrow_spec. cbn. destruct supplied; [|reflexivity].
  unfold failureLines.
  destruct (debug config || traceEnv env), (stackOf e); reflexivity.
Qed.

Lemma rethrow_frame env config supplied e m :
  frame (rethrow env config supplied e m).2 = frame m.
Proof. rewrite rethrow_spec. reflexivity. Qed.

Lemma cleanupCalls_quiet config connected registered chrome userDataDir :
  Forall (fun c => isNavigate c = false)
    (cleanupCalls config connected registered chrome userDataDir).
Proof.
  unfold cleanupCalls.
  destruct connected, registered, (keepBrowser config); repeat constructor.
Qed.

Section Properties3.

Context {Raw : Type}.
Variable resolveBrowserConfig : Raw -> BrowserConfig.
Variable estimateTokenCount : JsString -> Z.

Local Abbreviation call := (run resolveBrowserConfig estimateTokenCount).

(** C3.  Wherever a navigation occurs in the calls of a run, the
    calls before it contain the three enable calls (network, page,
    runtime) issued back to back, all three of them resolved, and,
    when cookie sync is on, the [syncCookies] call on the session
    after them, which returned. *)
Theorem priming_precedes_navigation
    (env : Env) (options : BrowserRunOptions Raw) (w : World) :
  navigationsPrimed env (resolveBrowserConfig (config options))
    (calls (world (call env options w).2)).
Proof.
  destruct (reach resolveBrowserConfig estimateTokenCount env options w)
    as [_ Hrun | p e _ _ _ _ Hcalls _ _ | p d e _ _ _ _ _ Hcalls _ _
        | p d c Hp Hne Hmk Hl].
  - rewrite Hrun. apply navigationsPrimed_quiet. constructor.
  - rewrite Hcalls. apply navigationsPrimed_quiet. repeat constructor.
  - rewrite Hcalls. apply navigationsPrimed_quiet. repeat constructor.
  - rewrite (run_past_launch _ _ _ _ _ _ _ _ Hp Hne Hmk Hl). cbn [fst snd].
    set (config := resolveBrowserConfig _).
    set (entry := atTry env config (log options) p d c w).
    rewrite cleanup_calls.
    apply navigationsPrimed_app; [apply cleanupCalls_quiet|].
    assert (Hq : quiet entry).
    { unfold quiet, entry. rewrite atTry_calls. repeat constructor. }
    revert Hq. generalize entry. clear entry.
    change (hoare quiet
              (tryCatch
                 (attempt estimateTokenCount env config (log options) c d p
                    (clock env 0))
                 (rethrow env config (log options)))
              (fun _ m => navigationsPrimed env config (calls (world m)))).
    eapply hoare_tryCatch; [apply try_primes | | auto].
    intros e m H. cbn beta. rewrite rethrow_calls. exact H.
Qed.

End Properties3.

(** ** Order of the calls: model selection before submission *)

Lemma never_call bad c m :
  bad c = false -> never bad m -> never bad (updWorld (addCall c) m).
Proof.
  unfold never. calls_cbn. intros Hc H. apply Forall_app. split; [exact H|].
  repeat constructor. exact Hc.
Qed.

Lemma never_not_elem bad c m : bad c = true -> never bad m -> c ∉ calls (world m).
Proof.
  unfold never. rewrite Forall_forall. intros Hc H Hin.
  specialize (H c Hin). congruence.
Qed.

Lemma selectionPrecedes_never model l :
  Forall (fun c => isSubmit c = false) l -> selectionPrecedes model l.
Proof.
  intros H pre text post ->. rewrite Forall_app in H. destruct H as [_ H].
  inversion H. discriminate.
Qed.

Lemma selectionPrecedes_snoc model l c :
  isSubmit c = false \/ CallEnsureModelSelection model ∈ l ->
  selectionPrecedes model l -> selectionPrecedes model (l ++ [c]).
Proof.
  intros Hc Hl pre text post Heq.
  apply snoc_split in Heq as [(-> & <- & _) | (post' & _ & ->)].
  - destruct Hc as [Hc | Hc]; [discriminate | exact Hc].
  - eapply Hl. reflexivity.
Qed.

Lemma selectionPrecedes_app model l l' :
  Forall (fun c => isSubmit c = false) l' ->
  selectionPrecedes model l -> selectionPrecedes model (l ++ l').
Proof.
  induction l' as [|c l' IH] using rev_ind; intros H Hl.
  - rewrite app_nil_r. exact Hl.
  - rewrite Forall_app in H. destruct H as [H Hc].
    rewrite app_assoc. apply selectionPrecedes_snoc.
    + left. inversion Hc. assumption.
    + auto.
Qed.

Ltac at_selection :=
  lazymatch goal with
  | |- hoare _ (bind (when (truthyString _) _) _) _ => idtac
  end.

Section Selection.

Variable estimateTokenCount : JsString -> Z.
Variable env : Env.
Variables (config : BrowserConfig) (supplied : bool) (chrome : Chrome).
Variables (userDataDir promptText : JsString) (startedAt : Z).

Local Abbreviation try :=
  (attempt estimateTokenCount env config supplied chrome userDataDir
     promptText startedAt).
Local Abbreviation guarded := (tryCatch try (rethrow env config supplied)).

(** Without a desired model, no model selection is ever issued. *)
Lemma guarded_no_selection :
  truthy (desiredModel config) = false ->
  invariant (never isModelSelection) guarded.
Proof.
  intros Hfalsy.
  inv_walk
    ltac:(intros ? Hn;
          first [ exact Hn
                | apply never_call; [reflexivity | exact Hn]
                | exfalso; simpl in Hfalsy; congruence ]).
Qed.

Variable model : JsString.
Hypothesis desired : desiredModel config = Some model.
Hypothesis named : truthyString model = true.

Local Abbreviation selected := (selected model).

Lemma selected_call c m :
  isSubmit c = false -> selected m -> selected (updWorld (addCall c) m).
Proof.
  intros Hc [Hn Hin]. split.
  - apply never_call; assumption.
  - calls_cbn. rewrite elem_of_app. left. exact Hin.
Qed.

Local Abbreviation submitted := (submitted model).

Lemma submitted_call c m : submitted m -> submitted (updWorld (addCall c) m).
Proof.
  intros [Hp Hin]. split; calls_cbn.
  - apply selectionPrecedes_snoc; auto.
  - rewrite elem_of_app. left. exact Hin.
Qed.

Lemma try_selects :
  hoare (never isSubmit) try
    (fun _ m => selectionPrecedes model (calls (world m))).
Proof.
  unfold attempt. rewrite desired.
  walk_until ltac:(idtac; at_selection) (never isSubmit)
    ltac:(intros ? Hn;
          first [exact Hn | apply never_call; [reflexivity | exact Hn]])
    ltac:(intros ? ? Hn; apply selectionPrecedes_never; exact Hn).
  (* ensureModelSelection, then ensurePromptReady again *)
  eapply hoare_bind
    with (Qa := fun r m => if r is inr _ then selected m else never isSubmit m).
  { apply hoare_when; [intros _ | congruence].
    eapply hoare_bind
      with (Qa := fun r m => if r is inr _ then selected m
                             else never isSubmit m).
    - apply hoare_perform. intros m Hn.
      assert (Hn' : never isSubmit
                      (updWorld (addCall (CallEnsureModelSelection model)) m))
        by (apply never_call; [reflexivity | exact Hn]).
      destruct (ensureModelSelectionE env); [exact Hn'|].
      split; [exact Hn'|]. calls_cbn. rewrite elem_of_app. right.
      set_solver.
    - intros _. apply hoare_perform. intros m Hs.
      pose proof (selected_call (CallEnsurePromptReady (inputTimeoutMs config))
                    m eq_refl Hs) as Hs'.
      destruct (ensurePromptReadyAgainE env); [exact (proj1 Hs') | exact Hs'].
    - intros ? ? Hn. exact Hn. }
  2: { intros ? ? Hn. apply selectionPrecedes_never; exact Hn. }
  intros _.
  (* submitPrompt, and everything after it *)
  eapply hoare_bind with (Qa := fun _ => submitted).
  { apply hoare_perform. intros m [Hn Hin].
    assert (submitted (updWorld (addCall (CallSubmitPrompt promptText)) m)).
    { apply submitted_call. split; [|exact Hin].
      apply selectionPrecedes_never. exact Hn. }
    destruct (submitPromptE env); assumption. }
  2: { intros ? ? [Hp _]. exact Hp. }
  intros _.
  eapply hoare_conseq
    with (P' := submitted) (Q' := fun _ => submitted);
    [|auto|intros ? ? [Hp _]; exact Hp].
  as_invariant.
  inv_walk ltac:(intros ? Hs; first [exact Hs | apply submitted_call; exact Hs]).
Qed.

End Selection.

Lemma cleanupCalls_never bad config connected registered chrome userDataDir :
  (forall c, isCleanupCall c = true -> bad c = false) ->
  Forall (fun c => bad c = false)
    (cleanupCalls config connected registered chrome userDataDir).
Proof.
  intros H. unfold cleanupCalls.
  destruct connected, registered, (keepBrowser config);
    repeat constructor; apply H; reflexivity.
Qed.

Section Properties4.

Context {Raw : Type}.
Variable resolveBrowserConfig : Raw -> BrowserConfig.
Variable estimateTokenCount : JsString -> Z.

Local Abbreviation call := (run resolveBrowserConfig estimateTokenCount).

(** C4.  Without a desired model (none, or an empty name, which
    JavaScript takes for false) no model selection is ever issued in
    the run; with a desired model, wherever a prompt submission occurs
    in the calls of the run, the selection of that model was issued
    before it. *)
Theorem model_selection_iff_desired
    (env : Env) (options : BrowserRunOptions Raw) (w : World) :
  let config := resolveBrowserConfig (config options) in
  let issued := calls (world (call env options w).2) in
  (truthy (desiredModel config) = false ->
   forall model, CallEnsureModelSelection model ∉ issued)
  /\ (forall model,
        desiredModel config = Some model -> truthyString model = true ->
        selectionPrecedes model issued).
Proof.
  intros config issued. unfold issued.
  destruct (reach resolveBrowserConfig estimateTokenCount env options w)
    as [_ Hrun | p e _ _ _ _ Hcalls _ _ | p d e _ _ _ _ _ Hcalls _ _
        | p d c Hp Hne Hmk Hl].
  - rewrite Hrun. cbn. split.
    + intros _ model. set_solver.
    + intros model _ _. apply selectionPrecedes_never. constructor.
  - rewrite Hcalls. split.
    + intros _ model. set_solver.
    + intros model _ _. apply selectionPrecedes_never. repeat constructor.
  - rewrite Hcalls. split.
    + intros _ model. set_solver.
    + intros model _ _. apply selectionPrecedes_never. repeat constructor.
  - rewrite (run_past_launch _ _ _ _ _ _ _ _ Hp Hne Hmk Hl). cbn [fst snd].
    fold config.
    set (entry := atTry env config (log options) p d c w).
    rewrite cleanup_calls. split.
    + intros Hfalsy model.
      assert (Hn : never isModelSelection entry).
      { unfold never, entry. rewrite atTry_calls. repeat constructor. }
      apply (guarded_no_selection estimateTokenCount env config (log options)
               c d p (clock env 0) Hfalsy) in Hn.
      cbn beta in Hn. unfold never in Hn.
      intros Hin. apply elem_of_app in Hin as [Hin | Hin].
      * rewrite Forall_forall in Hn. specialize (Hn _ Hin). discriminate.
      * pose proof (cleanupCalls_never isModelSelection config
                      (client (frame (tryCatch
                         (attempt estimateTokenCount env config (log options)
                            c d p (clock env 0))
                         (rethrow env config (log options)) entry).2))
                      (removeTerminationHooks (frame (tryCatch
                         (attempt estimateTokenCount env config (log options)
                            c d p (clock env 0))
                         (rethrow env config (log options)) entry).2))
                      c d) as Hc.
        rewrite Forall_forall in Hc.
        assert (isModelSelection (CallEnsureModelSelection model) = false).
        { apply Hc; [|exact Hin]. intros [] ?; try discriminate; reflexivity. }
        discriminate.
    + intros model Hd Ht.
      apply selectionPrecedes_app.
      { apply cleanupCalls_never. intros [] ?; try discriminate; reflexivity. }
      assert (Hn : never isSubmit entry).
      { unfold never, entry. rewrite atTry_calls. repeat constructor. }
      revert Hn. generalize entry.
      change (hoare (never isSubmit)
                (tryCatch
                   (attempt estimateTokenCount env config (log options) c d p
                      (clock env 0))
                   (rethrow env config (log options)))
                (fun _ m => selectionPrecedes model (calls (world m)))).
      eapply hoare_tryCatch;
        [exact (try_selects estimateTokenCount env config (log options)
                  c d p (clock env 0) model Hd Ht) | | auto].
      intros e m H. cbn beta. rewrite rethrow_calls. exact H.
Qed.

End Properties4.

(** ** What a successful call returns *)

Section Success.

Variable estimateTokenCount : JsString -> Z.
Variable env : Env.
Variables (config : BrowserConfig) (supplied : bool) (chrome : Chrome).
Variables (userDataDir promptText : JsString) (startedAt : Z).

Local Abbreviation try :=
  (attempt estimateTokenCount env config supplied chrome userDataDir
     promptText startedAt).
Local Abbreviation guarded := (tryCatch try (rethrow env config supplied)).

Local Abbreviation resultOf :=
  (resultOf estimateTokenCount env chrome userDataDir startedAt).

Local Abbreviation succeeded :=
  (succeeded estimateTokenCount env chrome userDataDir startedAt).

Lemma try_success : hoare (fun _ => True) try (fun r _ => succeeded r).
Proof.
  unfold attempt.
  walk_until ltac:(idtac; at_wait) (fun _ : Machine => True)
    ltac:(auto) ltac:(intros ? ? _ ? ?; discriminate).
  intros m _.
  unfold bind, perform, onWorld, setAnswerText, setAnswerHtml,
    setAnswerMarkdown, setRunStatus, onFrame, getFrame, dateNow, ret, throw.
  destruct (waitForAssistantResponseE env) as [e|answer] eqn:Hw;
    [intros ? ?; discriminate|].
  destruct (captureAssistantMarkdownE env) as [e|copied] eqn:Hc;
    [intros ? ?; discriminate|].
  intros result [= <-]. exists answer, copied. eexists.
  split; [exact Hw | split; [exact Hc|]]. reflexivity.
Qed.

Lemma guarded_success m : succeeded (guarded m).1.
Proof.
  pose proof (try_success m Logic.I) as H. unfold tryCatch.
  destruct (try m) as [[e|res] m'].
  - rewrite rethrow_spec. intros ? ?. discriminate.
  - exact H.
Qed.

End Success.

Lemma clock_monotone env n : clock env 0 <= clock env n.
Proof. unfold clock. simpl. lia. Qed.

Section Properties5.

Context {Raw : Type}.
Variable resolveBrowserConfig : Raw -> BrowserConfig.
Variable estimateTokenCount : JsString -> Z.

Local Abbreviation call := (run resolveBrowserConfig estimateTokenCount).

(** What a call that returned a result went through. *)
Lemma success_inversion
    (env : Env) (options : BrowserRunOptions Raw) (w : World)
    (result : BrowserRunResult) :
  (call env options w).1 = inr result ->
  exists promptText userDataDir chrome answer copied n,
    trim <$> prompt options = Some promptText
    /\ promptText <> []
    /\ mkdtempE env = inr userDataDir
    /\ launchChromeE env = inr chrome
    /\ waitForAssistantResponseE env = inr answer
    /\ captureAssistantMarkdownE env = inr copied
    /\ result = resultOf estimateTokenCount env chrome userDataDir
                  (clock env 0) answer copied n.
Proof.
  intros Hres.
  destruct (reach resolveBrowserConfig estimateTokenCount env options w)
    as [_ Hrun | p e _ _ _ Hrun _ _ _ | p d e _ _ _ _ Hrun _ _ _
        | p d c Hp Hne Hmk Hl].
  - rewrite Hrun in Hres. discriminate.
  - rewrite Hrun in Hres. discriminate.
  - rewrite Hrun in Hres. discriminate.
  - rewrite (run_past_launch _ _ _ _ _ _ _ _ Hp Hne Hmk Hl) in Hres.
    cbn [fst] in Hres.
    apply guarded_success in Hres as (answer & copied & n & Hw & Hc & ->).
    exists p, d, c, answer, copied, n. auto 10.
Qed.

(** C5.  In every call that returns a result, [answerMarkdown] is
    the markdown [captureAssistantMarkdown] resolved to when it
    resolved to one, and the captured [answerText] when it resolved
    to null or undefined; [answerText] is the text
    [waitForAssistantResponse] resolved to. *)
Theorem markdown_is_copy_or_text
    (env : Env) (options : BrowserRunOptions Raw) (w : World)
    (result : BrowserRunResult) :
  (call env options w).1 = inr result ->
  exists answer copied,
    waitForAssistantResponseE env = inr answer
    /\ captureAssistantMarkdownE env = inr copied
    /\ answerTextR result = text answer
    /\ answerMarkdownR result
       = match copied with
         | Some markdown => markdown
         | None => answerTextR result
         end.
Proof.
  intros Hres.
  apply success_inversion in Hres
    as (p & d & c & answer & copied & n & _ & _ & _ & _ & Hw & Hc & ->).
  exists answer, copied.
  split; [exact Hw | split; [exact Hc | split; [reflexivity|]]].
  destruct copied; reflexivity.
Qed.

End Properties5.

Section Properties6.

Context {Raw : Type}.
Variable resolveBrowserConfig : Raw -> BrowserConfig.
Variable estimateTokenCount : JsString -> Z.

Local Abbreviation call := (run resolveBrowserConfig estimateTokenCount).


End Properties6.

(** ** Cookie sync that finds nothing *)

Ltac at_sync :=
  lazymatch goal with
  | |- hoare _ (bind (bind (perform (CallSyncCookies _ _) _ _) _) _) _ => idtac
  end.

Section NoCookies.

Variable estimateTokenCount : JsString -> Z.
Variable env : Env.
Variables (config : BrowserConfig) (supplied : bool) (chrome : Chrome).
Variables (userDataDir promptText : JsString) (startedAt : Z).
Hypothesis none_found : syncCookiesE env = inr 0.

Local Abbreviation try :=
  (attempt estimateTokenCount env config supplied chrome userDataDir
     promptText startedAt).
Local Abbreviation guarded := (tryCatch try (rethrow env config supplied)).

Local Abbreviation sync :=
  (CallSyncCookies (url config) (chromeProfile config)).

Local Abbreviation proceeded := (proceeded config supplied).

Lemma proceeded_call c m : proceeded m -> proceeded (updWorld (addCall c) m).
Proof.
  intros [(pre & post & Hc) Hl]. split; [|exact Hl].
  exists pre, (post ++ [c]). calls_cbn. rewrite Hc, <- app_assoc.
  reflexivity.
Qed.

Lemma proceeded_log l m : proceeded m -> proceeded (updWorld (addLog l) m).
Proof.
  intros [Hc Hl]. split; [exact Hc|]. intros Hs. calls_cbn.
  rewrite elem_of_app. left. auto.
Qed.

Ltac proceeded_fin :=
  intros ? Hp;
  first [ exact Hp | apply proceeded_call; exact Hp
        | apply proceeded_log; exact Hp ].

Lemma try_proceeds :
  hoare (never isSync) try (fun _ m => never isSync m \/ proceeded m).
Proof.
  unfold attempt. destruct (cookieSync config) eqn:Hsync; cbv iota.
  - walk_until ltac:(idtac; at_sync) (never isSync)
      ltac:(intros ? Hn;
            first [exact Hn | apply never_call; [reflexivity | exact Hn]])
      ltac:(intros ? ? Hn; left; exact Hn).
    (* syncCookies answers 0: the warning is logged *)
    eapply hoare_bind
      with (Qa := fun r m =>
                    (if r is inr _ then True else False)
                    /\ (exists pre, calls (world m) = pre ++ [sync])
                    /\ (supplied = true -> LogNoCookies ∈ logged (world m))).
    { intros m _. rewrite none_found.
      unfold bind, perform, logger, when, onWorld, ret. cbn [Z.ltb Z.compare].
      destruct supplied; cbn.
      - split; [exact Logic.I|]. split; [eexists; reflexivity|].
        intros _. rewrite elem_of_app. right. set_solver.
      - split; [exact Logic.I|]. split; [eexists; reflexivity|].
        discriminate. }
    2: { intros ? ? [[] _]. }
    intros _.
    (* navigation is the next call *)
    eapply hoare_bind with (Qa := fun _ => proceeded).
    { apply hoare_perform. intros m (_ & (pre & Hc) & Hl).
      assert (proceeded (updWorld (addCall (CallNavigate (url config))) m)).
      { split; [|exact Hl]. exists pre, []. calls_cbn.
        rewrite Hc, <- app_assoc. reflexivity. }
      destruct (navigateToChatGPTE env); assumption. }
    2: { intros ? ? Hp. right. exact Hp. }
    intros _.
    eapply hoare_conseq
      with (P' := proceeded) (Q' := fun _ => proceeded); [|auto|auto].
    as_invariant. inv_walk proceeded_fin.
  - eapply hoare_conseq
      with (P' := never isSync) (Q' := fun _ => never isSync); [|auto|auto].
    as_invariant.
    inv_walk
      ltac:(intros ? Hn;
            first [exact Hn | apply never_call; [reflexivity | exact Hn]]).
Qed.

Lemma rethrow_proceeded e :
  invariant proceeded (rethrow env config supplied e).
Proof. inv_walk proceeded_fin. Qed.

Lemma guarded_proceeds :
  hoare (never isSync) guarded (fun _ m => never isSync m \/ proceeded m).
Proof.
  eapply hoare_tryCatch; [apply try_proceeds | | auto].
  intros e m [Hn | Hp].
  - left. unfold never. rewrite rethrow_calls. exact Hn.
  - right. exact (rethrow_proceeded e m Hp).
Qed.

End NoCookies.

(** ** Two runs side by side *)

Lemma agree_eq {A} (r r' : Thrown + A) : agree eq r r' -> r = r'.
Proof. destruct r, r'; simpl; congruence || tauto. Qed.

Section Lockstep.

(** What the two machines have in common. *)
Variable sim : Machine -> Machine -> Prop.

Local Abbreviation lockstep := (lockstep sim).

Lemma ls_ret {A} (RA : A -> A -> Prop) a a' :
  RA a a' -> lockstep RA (ret a) (ret a').
Proof. intros H m m' Hs. split; [exact H | exact Hs]. Qed.

Lemma ls_throw {A} (RA : A -> A -> Prop) e :
  lockstep RA (throw e) (throw e).
Proof. intros m m' Hs. split; [reflexivity | exact Hs]. Qed.

Lemma ls_bind {A B} (RA : A -> A -> Prop) (RB : B -> B -> Prop)
    (c c' : M A) (k k' : A -> M B) :
  lockstep RA c c' ->
  (forall a a', RA a a' -> lockstep RB (k a) (k' a')) ->
  lockstep RB (bind c k) (bind c' k').
Proof.
  intros Hc Hk m m' Hs. unfold bind.
  destruct (Hc m m' Hs) as [Ha Hs'].
  destruct (c m) as [[e|a] m1], (c' m') as [[e'|a'] m1']; simpl in *;
    try contradiction.
  - auto.
  - apply Hk; assumption.
Qed.

Lemma ls_tryCatch {A} (RA : A -> A -> Prop) (b b' : M A)
    (h h' : Thrown -> M A) :
  lockstep RA b b' ->
  (forall e, lockstep RA (h e) (h' e)) ->
  lockstep RA (tryCatch b h) (tryCatch b' h').
Proof.
  intros Hb Hh m m' Hs. unfold tryCatch.
  destruct (Hb m m' Hs) as [Ha Hs'].
  destruct (b m) as [[e|a] m1], (b' m') as [[e'|a'] m1']; simpl in *;
    try contradiction.
  - subst e'. apply Hh; assumption.
  - auto.
Qed.

Lemma ls_tryFinally {A} (RA : A -> A -> Prop) (b b' : M A) (f f' : M unit) :
  lockstep RA b b' ->
  lockstep eq f f' ->
  lockstep RA (tryFinally b f) (tryFinally b' f').
Proof.
  intros Hb Hf m m' Hs. unfold tryFinally.
  destruct (Hb m m' Hs) as [Ha Hs'].
  destruct (b m) as [r m1], (b' m') as [r' m1']; simpl in *.
  destruct (Hf m1 m1' Hs') as [Hu Hs''].
  destruct (f m1) as [[e|[]] m2], (f' m1') as [[e'|[]] m2']; simpl in *;
    try contradiction; auto.
Qed.

Lemma ls_when (b : bool) (c c' : M unit) :
  (b = true -> lockstep eq c c') -> lockstep eq (when b c) (when b c').
Proof. destruct b; simpl; intros H; [auto | apply ls_ret; reflexivity]. Qed.

Lemma ls_onWorld (f f' : World -> World) :
  (forall m m', sim m m' -> sim (updWorld f m) (updWorld f' m')) ->
  lockstep eq (onWorld f) (onWorld f').
Proof. intros H m m' Hs. split; [reflexivity | apply H, Hs]. Qed.

Lemma ls_onFrame (f f' : Frame -> Frame) :
  (forall m m', sim m m' -> sim (updFrame f m) (updFrame f' m')) ->
  lockstep eq (onFrame f) (onFrame f').
Proof. intros H m m' Hs. split; [reflexivity | apply H, Hs]. Qed.

Lemma ls_getFrame (RF : Frame -> Frame -> Prop) :
  (forall m m', sim m m' -> RF (frame m) (frame m')) ->
  lockstep RF getFrame getFrame.
Proof. intros H m m' Hs. split; [apply H, Hs | exact Hs]. Qed.

Lemma ls_dateNow env env' :
  (forall m m', sim m m' ->
     clock env (ticks (world m)) = clock env' (ticks (world m'))
     /\ sim (updWorld tick m) (updWorld tick m')) ->
  lockstep eq (dateNow env) (dateNow env').
Proof. intros H m m' Hs. exact (H m m' Hs). Qed.

Lemma ls_logger (supplied : bool) (l l' : LogLine) :
  (forall m m', sim m m' ->
     sim (updWorld (addLog l) m) (updWorld (addLog l') m')) ->
  lockstep eq (logger supplied l) (logger supplied l').
Proof.
  intros H. unfold logger. apply ls_when. intros _. apply ls_onWorld, H.
Qed.

Lemma ls_perform {A} (c : Call) (o : Thrown + A) (eff : World -> World) :
  (forall m m', sim m m' ->
     sim (updWorld (addCall c) m) (updWorld (addCall c) m')) ->
  (forall m m', sim m m' -> sim (updWorld eff m) (updWorld eff m')) ->
  lockstep eq (perform c o eff) (perform c o eff).
Proof.
  intros Hc He. unfold perform.
  eapply ls_bind; [apply ls_onWorld, Hc|]. intros _ _ _.
  destruct o.
  - apply ls_throw.
  - eapply ls_bind; [apply ls_onWorld, He|]. intros _ _ _.
    apply ls_ret. reflexivity.
Qed.

Lemma ls_promiseAll3 (a b c : Call) (ra rb rc : Thrown + unit) :
  (forall x m m', sim m m' ->
     sim (updWorld (addCall x) m) (updWorld (addCall x) m')) ->
  lockstep eq (promiseAll3 a b c ra rb rc) (promiseAll3 a b c ra rb rc).
Proof.
  intros H. unfold promiseAll3.
  eapply ls_bind; [apply ls_onWorld, H|]. intros _ _ _.
  eapply ls_bind; [apply ls_onWorld, H|]. intros _ _ _.
  eapply ls_bind; [apply ls_onWorld, H|]. intros _ _ _.
  destruct ra as [?|[]], rb as [?|[]], rc as [?|[]];
    first [apply ls_throw | apply ls_ret; reflexivity].
Qed.

End Lockstep.

(** Walk two computations of the same shape side by side; [special]
    is tried first at every node, [fin] closes the closure conditions of
    the simulation; the locals the two read are related by [RF], and
    [fnorm] puts that relation to use. *)
Ltac env_cbn :=
  cbn [traceEnv epoch lapse mkdtempE launchChromeE registerTerminationHooksE
       connectToChromeE hideChromeWindowE networkEnableE pageEnableE
       runtimeEnableE clearBrowserCookiesE syncCookiesE navigateToChatGPTE
       ensureNotBlockedE ensurePromptReadyE ensureModelSelectionE
       ensurePromptReadyAgainE submitPromptE waitForAssistantResponseE
       captureAssistantMarkdownE clientCloseE chromeKillE rmE].

Ltac ls_walk RF fnorm special fin :=
  first
    [ special
    | lazymatch goal with
      | |- lockstep _ _ (bind getFrame _) (bind getFrame _) =>
          eapply (ls_bind _ RF);
          [ apply ls_getFrame; fin
          | intros ? ? ?; fnorm; ls_walk RF fnorm special fin ]
      | |- lockstep _ _ (bind _ _) (bind _ _) =>
          eapply ls_bind;
          [ ls_walk RF fnorm special fin
          | intros ? ? ?; subst; ls_walk RF fnorm special fin ]
      | |- lockstep _ _ (ret _) (ret _) => apply ls_ret; reflexivity
      | |- lockstep _ _ (throw _) (throw _) => apply ls_throw
      | |- lockstep _ _ (tryCatch _ _) (tryCatch _ _) =>
          apply ls_tryCatch; [ls_walk RF fnorm special fin | intros ?; ls_walk RF fnorm special fin]
      | |- lockstep _ _ (tryFinally _ _) (tryFinally _ _) =>
          apply ls_tryFinally; [ls_walk RF fnorm special fin | ls_walk RF fnorm special fin]
      | |- lockstep _ _ (when ?b _) (when ?b _) =>
          apply ls_when; intros ?; ls_walk RF fnorm special fin
      | |- lockstep _ _ (logger _ _) (logger _ _) => apply ls_logger; fin
      | |- lockstep _ _ (perform _ _ _) (perform _ _ _) => apply ls_perform; fin
      | |- lockstep _ _ (promiseAll3 _ _ _ _ _ _) (promiseAll3 _ _ _ _ _ _) =>
          apply ls_promiseAll3; intros ?; fin
      | |- lockstep _ _ (onWorld _) (onWorld _) => apply ls_onWorld; fin
      | |- lockstep _ _ (onFrame _) (onFrame _) => apply ls_onFrame; fin
      | |- lockstep _ _ (dateNow _) (dateNow _) => apply ls_dateNow; fin
      | |- lockstep _ _ (setClient _) (setClient _) =>
          unfold setClient; ls_walk RF fnorm special fin
      | |- lockstep _ _ (setAnswerText _) (setAnswerText _) =>
          unfold setAnswerText; ls_walk RF fnorm special fin
      | |- lockstep _ _ (setAnswerMarkdown _) (setAnswerMarkdown _) =>
          unfold setAnswerMarkdown; ls_walk RF fnorm special fin
      | |- lockstep _ _ (setAnswerHtml _) (setAnswerHtml _) =>
          unfold setAnswerHtml; ls_walk RF fnorm special fin
      | |- lockstep _ _ (setRunStatus _) (setRunStatus _) =>
          unfold setRunStatus; ls_walk RF fnorm special fin
      | |- lockstep _ _ (setRemoveTerminationHooks _)
             (setRemoveTerminationHooks _) =>
          unfold setRemoveTerminationHooks; ls_walk RF fnorm special fin
      | |- lockstep _ _ (if ?b then _ else _) (if ?b then _ else _) =>
          destruct b eqn:?; ls_walk RF fnorm special fin
      | |- lockstep _ _ (match ?o with _ => _ end) (match ?o with _ => _ end) =>
          destruct o eqn:?; ls_walk RF fnorm special fin
      | |- lockstep _ _ (attempt _ _ _ _ _ _ _ _) (attempt _ _ _ _ _ _ _ _) =>
          unfold attempt; env_cbn; ls_walk RF fnorm special fin
      | |- lockstep _ _ (rethrow _ _ _ _) (rethrow _ _ _ _) =>
          unfold rethrow; env_cbn; ls_walk RF fnorm special fin
      | |- lockstep _ _ (cleanup _ _ _ _ _ _) (cleanup _ _ _ _ _ _) =>
          unfold cleanup; env_cbn; ls_walk RF fnorm special fin
      end ].

(** *** The cookie count does not matter *)

Ltac cookie_fin :=
  intros ? ? (? & ? & ? & ? & ? & ? & ? & ?);
  unfold sameButCookieLine, clock;
  repeat match goal with
         | |- context [match ?o with _ => _ end] => destruct o
         end;
  calls_cbn; env_cbn; rewrite ?map_app;
  repeat split; congruence.

Lemma ls_sync_count (c : Call) (supplied : bool) (n n' : Z) (profile : JsString) :
  lockstep sameButCookieLine eq
    (bind (perform c (inr n) id)
       (fun count =>
          logger supplied
            (if 0 <? count then LogCopiedCookies count profile
             else LogNoCookies)))
    (bind (perform c (inr n') id)
       (fun count =>
          logger supplied
            (if 0 <? count then LogCopiedCookies count profile
             else LogNoCookies))).
Proof.
  intros m m' (? & ? & ? & ? & ? & ? & ? & ?).
  unfold bind, perform, logger, when, onWorld, ret, sameButCookieLine.
  destruct supplied; cbn; rewrite ?map_app; cbn;
    destruct (0 <? n), (0 <? n'); cbn; repeat split; congruence.
Qed.

Section CookieCount.

Context {Raw : Type}.
Variable resolveBrowserConfig : Raw -> BrowserConfig.
Variable estimateTokenCount : JsString -> Z.

Lemma runBrowserMode_cookie_count env n n' (options : BrowserRunOptions Raw) :
  lockstep sameButCookieLine eq
    (runBrowserMode resolveBrowserConfig estimateTokenCount
       (withSyncCookies (inr n) env) options)
    (runBrowserMode resolveBrowserConfig estimateTokenCount
       (withSyncCookies (inr n') env) options).
Proof.
  unfold runBrowserMode.
  destruct (trim <$> prompt options) as [[|u t]|]; [apply ls_throw| |apply ls_throw].
  destruct env. unfold withSyncCookies. env_cbn.
  ls_walk (@eq Frame) ltac:(subst) ltac:(apply ls_sync_count) cookie_fin.
Qed.

End CookieCount.

Section Properties7.

Context {Raw : Type}.
Variable resolveBrowserConfig : Raw -> BrowserConfig.
Variable estimateTokenCount : JsString -> Z.

Local Abbreviation call := (run resolveBrowserConfig estimateTokenCount).

(** C7.  When [syncCookies] answers 0 the run goes on: wherever the
    sync was issued, the navigation is the very next call, and the
    warning that no cookies were found is in the caller's log.  And
    the count does not matter to anything else: with any other count
    [n] the call completes in the same way (the same result or the
    same throw), with the same calls, the same locals and the same
    world, and its log differs in nothing but the line that reports
    the count. *)
Theorem zero_cookies_is_not_an_error
    (env : Env) (options : BrowserRunOptions Raw) (w : World) (n : Z) :
  let config := resolveBrowserConfig (config options) in
  let none := call (withSyncCookies (inr 0) env) options w in
  let some := call (withSyncCookies (inr n) env) options w in
  let sync := CallSyncCookies (url config) (chromeProfile config) in
  (sync ∈ calls (world none.2) ->
   (exists pre post,
       calls (world none.2)
       = pre ++ sync :: CallNavigate (url config) :: post)
   /\ (log options = true -> LogNoCookies ∈ logged (world none.2)))
  /\ none.1 = some.1
  /\ sameButCookieLine none.2 some.2.
Proof.
  intros config none some sync.
  split; [|split].
  - unfold none. set (env0 := withSyncCookies (inr 0) env).
    destruct (reach resolveBrowserConfig estimateTokenCount env0 options w)
      as [_ Hrun | p e _ _ _ _ Hcalls _ _ | p d e _ _ _ _ _ Hcalls _ _
          | p d c Hp Hne Hmk Hl].
    + rewrite Hrun. cbn. set_solver.
    + rewrite Hcalls. set_solver.
    + rewrite Hcalls. set_solver.
    + rewrite (run_past_launch _ _ _ _ _ _ _ _ Hp Hne Hmk Hl). cbn [fst snd].
      fold config.
      set (entry := atTry env0 config (log options) p d c w).
      assert (Hn : never isSync entry).
      { unfold never, entry. rewrite atTry_calls. repeat constructor. }
      apply (guarded_proceeds estimateTokenCount env0 config (log options)
               c d p (clock env0 0) eq_refl) in Hn.
      cbn beta in Hn.
      rewrite cleanup_calls, cleanup_logged.
      destruct Hn as [Hn | [(pre & post & Hc) Hlog]].
      * intros Hin. exfalso. apply elem_of_app in Hin as [Hin | Hin].
        -- revert Hin. apply never_not_elem with (bad := isSync);
             [reflexivity | exact Hn].
        -- pose proof (cleanupCalls_never isSync config
                         (client (frame (tryCatch
                            (attempt estimateTokenCount env0 config (log options)
                               c d p (clock env0 0))
                            (rethrow env0 config (log options)) entry).2))
                         (removeTerminationHooks (frame (tryCatch
                            (attempt estimateTokenCount env0 config (log options)
                               c d p (clock env0 0))
                            (rethrow env0 config (log options)) entry).2))
                         c d) as Hcl.
           rewrite Forall_forall in Hcl.
           assert (isSync sync = false).
           { apply Hcl; [|exact Hin]. intros [] ?; try discriminate; reflexivity. }
           discriminate.
      * intros _. split.
        -- exists pre. eexists. rewrite Hc, <- app_assoc. reflexivity.
        -- intros Hs. rewrite elem_of_app. left. auto.
  - apply agree_eq.
    apply (runBrowserMode_cookie_count resolveBrowserConfig
             estimateTokenCount env 0 n options).
    repeat split; reflexivity.
  - apply (runBrowserMode_cookie_count resolveBrowserConfig
             estimateTokenCount env 0 n options).
    repeat split; reflexivity.
Qed.

End Properties7.

(** *** Whether the termination hooks got registered does not matter *)

Ltac hooks_fin :=
  intros ? ? ((? & ? & ? & ? & ?) & ? & ? & ? & ? & ? & ?);
  unfold sameButHooks, sameLocalsButHooks, clock;
  repeat match goal with
         | |- context [match ?o with _ => _ end] => destruct o
         end;
  calls_cbn; env_cbn;
  cbn [client answerText answerMarkdown answerHtml runStatus
       removeTerminationHooks];
  rewrite ?List.filter_app;
  repeat split; congruence.

Ltac hooks_norm :=
  match goal with
  | H : sameLocalsButHooks ?f ?f' |- _ =>
      destruct f, f'; unfold sameLocalsButHooks in H; cbn in H;
      destruct H as (? & ? & ? & ? & ?); subst;
      cbn [client answerText answerMarkdown answerHtml runStatus
           removeTerminationHooks]
  end.

(** Lines 44-49, whatever [registerTerminationHooks] answers. *)
Lemma ls_registration (c : Call) (o o' : Thrown + unit) :
  lockstep sameButHooks eq
    (tryCatch
       (bind (perform c o (setHooks true))
          (fun _ => setRemoveTerminationHooks true))
       (fun _ => ret tt))
    (tryCatch
       (bind (perform c o' (setHooks true))
          (fun _ => setRemoveTerminationHooks true))
       (fun _ => ret tt)).
Proof.
  intros m m' ((? & ? & ? & ? & ?) & ? & ? & ? & ? & ? & ?).
  unfold tryCatch, bind, perform, setRemoveTerminationHooks, onWorld, onFrame,
    ret, throw, sameButHooks, sameLocalsButHooks.
  destruct o as [?|[]], o' as [?|[]]; cbn; rewrite ?List.filter_app; cbn;
    repeat split; congruence.
Qed.

(** Line 121, whether or not there is a function to call. *)
Lemma ls_deregistration (b b' : bool) :
  lockstep sameButHooks eq
    (when b (perform CallRemoveTerminationHooks (inr tt) (setHooks false)))
    (when b' (perform CallRemoveTerminationHooks (inr tt) (setHooks false))).
Proof.
  intros m m' ((? & ? & ? & ? & ?) & ? & ? & ? & ? & ? & ?).
  unfold when, bind, perform, onWorld, ret, sameButHooks, sameLocalsButHooks.
  destruct b, b'; cbn; rewrite ?List.filter_app, ?app_nil_r; cbn;
    repeat split; congruence.
Qed.

Section Registration.

Context {Raw : Type}.
Variable resolveBrowserConfig : Raw -> BrowserConfig.
Variable estimateTokenCount : JsString -> Z.

Lemma runBrowserMode_registration env o o' (options : BrowserRunOptions Raw) :
  lockstep sameButHooks eq
    (runBrowserMode resolveBrowserConfig estimateTokenCount
       (withRegistration o env) options)
    (runBrowserMode resolveBrowserConfig estimateTokenCount
       (withRegistration o' env) options).
Proof.
  unfold runBrowserMode.
  destruct (trim <$> prompt options) as [[|u t]|]; [apply ls_throw| |apply ls_throw].
  destruct env. unfold withRegistration. env_cbn.
  ls_walk sameLocalsButHooks ltac:(idtac; hooks_norm)
    ltac:(first [apply ls_registration | apply ls_deregistration])
    hooks_fin.
Qed.

End Registration.

Section Properties8.

Context {Raw : Type}.
Variable resolveBrowserConfig : Raw -> BrowserConfig.
Variable estimateTokenCount : JsString -> Z.

Local Abbreviation call := (run resolveBrowserConfig estimateTokenCount).


End Properties8.

(** ** Injecting the picker *)

Module PickerFacts.
Import Picker.

Lemma marker_after_inject (p : Page) :
  toBoolean (globals (injectPicker p) !! "pickOverlayInjected"%string) = true.
Proof.
  unfold injectPicker.
  destruct (toBoolean (globals p !! "pickOverlayInjected"%string)) eqn:Hm.
  - exact Hm.
  - cbn [globals]. rewrite lookup_insert_ne by discriminate.
    rewrite lookup_insert_eq. reflexivity.
Qed.

(** C9.  The injected script is guarded by the marker it leaves in
    the page: on a page whose [pickOverlayInjected] is set (to
    anything truthy) it changes nothing, neither the globals, nor the
    function objects, nor the listeners; so injecting twice leaves
    the page as injecting once does. *)
Theorem picker_injection_is_idempotent (p : Page) :
  (toBoolean (globals p !! "pickOverlayInjected"%string) = true ->
   injectPicker p = p)
  /\ injectPicker (injectPicker p) = injectPicker p.
Proof.
  split.
  - intros Hm. unfold injectPicker. rewrite Hm. reflexivity.
  - pose proof (marker_after_inject p) as Hm.
    unfold injectPicker at 1. rewrite Hm. reflexivity.
Qed.

(** The first injection does install the function and the marker. *)
Lemma first_injection_installs :
  globals (injectPicker blankPage) !! "pick"%string = Some (VFunction 0)
  /\ globals (injectPicker blankPage) !! "pickOverlayInjected"%string
     = Some (VBool true)
  /\ allocated (injectPicker blankPage) = 1%nat.
Proof. repeat split; reflexivity. Qed.

(** Without the guard a second injection would replace the function
    by a new one. *)
Lemma unguarded_injection_is_not_idempotent :
  injectUnguarded (injectUnguarded blankPage) <> injectUnguarded blankPage.
Proof. intros H. apply (f_equal allocated) in H. discriminate. Qed.

End PickerFacts.

(** ** The calls of a run, one by one *)

Lemma played_app (s1 s2 : list Step) :
  played (s1 ++ s2)
  = played s1 ++ (if failure s1 is Some _ then [] else played s2).
Proof.
  induction s1 as [|[c [e|]] s1 IH]; simpl; [reflexivity..|].
  rewrite IH. reflexivity.
Qed.

Lemma failure_app (s1 s2 : list Step) :
  failure (s1 ++ s2) = if failure s1 is Some e then Some e else failure s2.
Proof.
  induction s1 as [|[c [e|]] s1 IH]; simpl; [reflexivity..|].
  exact IH.
Qed.

Lemma plays_bind {A B} (c : M A) (k : A -> M B) (s1 s2 : list Step) :
  plays c s1 ->
  (forall a m, (c m).1 = inr a -> plays (k a) s2) ->
  plays (bind c k) (s1 ++ s2).
Proof.
  intros Hc Hk m. unfold bind. rewrite played_app, failure_app.
  destruct (Hc m) as [Hcalls Herr].
  assert (Hk' : forall a, (c m).1 = inr a -> plays (k a) s2) by eauto.
  destruct (c m) as [[e|a] m']; simpl in *.
  - rewrite <- Herr. rewrite app_nil_r. auto.
  - rewrite <- Herr. destruct (Hk' a eq_refl m') as [Hcalls' Herr'].
    rewrite Hcalls', Hcalls, app_assoc. auto.
Qed.

Lemma plays_silent {A} (c : M A) : silent c -> plays c [].
Proof. intros H m. simpl. rewrite app_nil_r. apply H. Qed.

Lemma plays_after {A B} (c : M A) (k : A -> M B) (s : list Step) :
  silent c -> (forall a, plays (k a) s) -> plays (bind c k) s.
Proof.
  intros Hc Hk. apply (plays_bind c k [] s); [apply plays_silent, Hc | auto].
Qed.

Lemma silent_ret {A} (a : A) : silent (ret a).
Proof. intros m. auto. Qed.

Lemma silent_onFrame f : silent (onFrame f).
Proof. intros m. auto. Qed.

Lemma silent_getFrame : silent getFrame.
Proof. intros m. auto. Qed.

Lemma silent_dateNow env : silent (dateNow env).
Proof. intros m. auto. Qed.

Lemma silent_logger supplied l : silent (logger supplied l).
Proof. intros m. destruct supplied; auto. Qed.

Lemma plays_perform {A} (c : Call) (o : Thrown + A) (eff : World -> World) :
  (forall w, calls (eff w) = calls w) ->
  plays (perform c o eff) [(c, errorOf o)].
Proof.
  intros Heff m. unfold perform, bind, onWorld, ret, throw.
  destruct o; simpl; [auto|]. rewrite Heff. auto.
Qed.

Lemma perform_value {A} (c : Call) (o : Thrown + A) eff m a :
  (perform c o eff m).1 = inr a -> o = inr a.
Proof.
  unfold perform, bind, onWorld, ret, throw. destruct o; simpl; congruence.
Qed.

Lemma plays_perform_then {A B} (c : Call) (o : Thrown + A) eff
    (k : A -> M B) (s : list Step) :
  (forall w, calls (eff w) = calls w) ->
  (forall a, o = inr a -> plays (k a) s) ->
  plays (bind (perform c o eff) k) ((c, errorOf o) :: s).
Proof.
  intros Heff Hk.
  apply (plays_bind _ k [_] s); [apply plays_perform, Heff|].
  intros a m Ha. apply Hk. exact (perform_value _ _ _ _ _ Ha).
Qed.

Lemma plays_promiseAll3 (a b c : Call) (ra rb rc : Thrown + unit) :
  plays (promiseAll3 a b c ra rb rc)
    [(a, None); (b, None); (c, joined ra rb rc)].
Proof.
  intros m. unfold promiseAll3, bind, onWorld, ret, throw.
  destruct ra as [?|[]], rb as [?|[]], rc as [?|[]]; simpl;
    rewrite <- !app_assoc; auto.
Qed.

Lemma plays_assoc {A B C} (c : M A) (k1 : A -> M B) (k2 : B -> M C) s :
  plays (bind c (fun a => bind (k1 a) k2)) s ->
  plays (bind (bind c k1) k2) s.
Proof.
  intros H m. specialize (H m). unfold bind in *.
  destruct (c m) as [[e|a] m']; exact H.
Qed.

(** Follow a computation along a script. *)
Ltac play :=
  lazymatch goal with
  | |- plays (bind (bind _ _) _) _ => apply plays_assoc; play
  | |- plays (bind (perform _ _ _) _) (_ :: _) =>
      apply plays_perform_then;
      [ reflexivity
      | let a := fresh in let H := fresh in
        intros a H;
        first [ discriminate H
              | injection H as <-
              | destruct a ];
        play ]
  | |- plays (bind (promiseAll3 _ _ _ _ _ _) _) (_ :: _ :: _ :: ?s) =>
      apply (plays_bind _ _ [_; _; _] s);
      [ apply plays_promiseAll3 | intros ? ? _; play ]
  | |- plays (bind _ _) _ =>
      apply plays_after;
      [ first [ apply silent_ret | apply silent_onFrame | apply silent_getFrame
              | apply silent_dateNow | apply silent_logger ]
      | intros ?; play ]
  | |- plays (ret _) [] => apply plays_silent, silent_ret
  end.

Section Plays.

Variable estimateTokenCount : JsString -> Z.
Variable env : Env.
Variables (config : BrowserConfig) (supplied : bool) (chrome : Chrome).
Variables (userDataDir promptText : JsString) (startedAt : Z).

Local Abbreviation try :=
  (attempt estimateTokenCount env config supplied chrome userDataDir
     promptText startedAt).
Local Abbreviation guarded := (tryCatch try (rethrow env config supplied)).
Local Abbreviation script := (script env config chrome promptText).

Lemma attempt_plays : plays try script.
Proof.
  unfold attempt, script, setClient, setAnswerText, setAnswerHtml,
    setAnswerMarkdown, setRunStatus.
  destruct (negb (headless config) && hideWindow config), (cookieSync config);
    (destruct (desiredModel config) as [model|];
     [destruct (truthyString model)|]);
    destruct (waitForAssistantResponseE env) as [?|answer] eqn:Hw;
    cbn [when app]; play.
Qed.
Lemma guarded_plays : plays guarded script.
Proof.
  intros m. destruct (attempt_plays m) as [Hc He]. unfold tryCatch.
  destruct (try m) as [[e|r] m']; simpl in *; [|auto].
  rewrite rethrow_spec. simpl. split; [|exact He]. rewrite <- Hc.
  destruct supplied; [|reflexivity]. unfold failureLines.
  destruct (debug config || traceEnv env), (stackOf e); reflexivity.
Qed.

(** At the end of the two blocks the client is non-null exactly when
    the session got connected. *)
Lemma guarded_client m :
  client (frame m) = false ->
  client (frame (guarded m).2) = isInr (connectToChromeE env).
Proof.
  intros Hm. destruct (connectToChromeE env) as [e|[]] eqn:Hc.
  - destruct (guarded_not_connected estimateTokenCount env config supplied
                chrome userDataDir promptText startedAt e m Hc) as [H _].
    rewrite H. exact Hm.
  - exact (proj1 (guarded_connected estimateTokenCount env config supplied
                    chrome userDataDir promptText startedAt Hc m Logic.I)).
Qed.

End Plays.

Lemma played_cons (c : Call) (o : option Thrown) (s : list Step) :
  played ((c, o) :: s) = c :: (if o is Some _ then [] else played s).
Proof. destruct o; reflexivity. Qed.

Lemma played_returned (c : Call) (s : list Step) :
  played ((c, None) :: s) = c :: played s.
Proof. reflexivity. Qed.

Lemma elem_of_played_cons (x c : Call) (o : option Thrown) (s : list Step) :
  x ∈ played ((c, o) :: s) <-> x = c \/ (o = None /\ x ∈ played s).
Proof.
  rewrite played_cons, elem_of_cons. destruct o; [|naive_solver].
  split; [|naive_solver]. intros [H|H]; [auto|]. inversion H.
Qed.

Lemma played_prefix (s : list Step) : played s `prefix_of` map fst s.
Proof.
  induction s as [|[c [e|]] s IH]; simpl.
  - reflexivity.
  - apply prefix_cons, prefix_nil.
  - apply prefix_cons, IH.
Qed.

Lemma errorOf_None {A} (o : Thrown + A) : errorOf o = None -> isInr o = true.
Proof. destruct o; [discriminate | reflexivity]. Qed.

Lemma returned_unit (o : Thrown + unit) : errorOf o = None -> o = inr tt.
Proof. destruct o as [?|[]]; [discriminate | reflexivity]. Qed.

Lemma cleanupCalls_are_cleanup config connected registered chrome dir :
  Forall (fun c => isCleanupCall c = true)
    (cleanupCalls config connected registered chrome dir).
Proof.
  unfold cleanupCalls.
  destruct connected, registered, (keepBrowser config); repeat constructor.
Qed.

Section RunScript.

Context {Raw : Type}.
Variable resolveBrowserConfig : Raw -> BrowserConfig.
Variable estimateTokenCount : JsString -> Z.
Variable env : Env.
Variables (options : BrowserRunOptions Raw) (w : World).
Variables (promptText userDataDir : JsString) (chrome : Chrome).

Hypothesis trimmed : trim <$> prompt options = Some promptText.
Hypothesis nonblank : promptText <> [].
Hypothesis made : mkdtempE env = inr userDataDir.
Hypothesis launched : launchChromeE env = inr chrome.

Local Abbreviation call := (run resolveBrowserConfig estimateTokenCount env).
Local Abbreviation config := (resolveBrowserConfig (config options)).
Local Abbreviation script := (script env config chrome promptText).

Lemma run_calls :
  calls (world (call options w).2)
  = [CallMkdtemp; CallLaunchChrome userDataDir;
     CallRegisterTerminationHooks (pid chrome) userDataDir
       (keepBrowser config)]
    ++ played script
    ++ cleanupCalls config (isInr (connectToChromeE env))
         (isInr (registerTerminationHooksE env)) chrome userDataDir.
Proof.
  rewrite (run_past_launch _ _ _ _ _ _ _ _ trimmed nonblank made launched).
  cbn [snd]. rewrite cleanup_calls.
  set (entry := atTry env config (log options) promptText userDataDir chrome w).
  destruct (guarded_plays estimateTokenCount env config (log options) chrome
              userDataDir promptText (clock env 0) entry) as [Hc _].
  rewrite Hc. unfold entry at 1. rewrite atTry_calls.
  rewrite (guarded_client estimateTokenCount env config (log options) chrome
             userDataDir promptText (clock env 0) entry eq_refl).
  pose proof (guarded_host estimateTokenCount env config (log options) chrome
                userDataDir promptText (clock env 0)
                _ _ _ _ entry (conj eq_refl (conj eq_refl (conj eq_refl eq_refl))))
    as (_ & _ & _ & Hrh).
  cbn beta in Hrh. rewrite Hrh. unfold entry. rewrite atTry_frame.
  cbn [removeTerminationHooks]. rewrite <- app_assoc. reflexivity.
Qed.

Lemma run_error : errorOf (call options w).1 = failure script.
Proof.
  rewrite (run_past_launch _ _ _ _ _ _ _ _ trimmed nonblank made launched).
  cbn [fst]. apply guarded_plays.
Qed.

End RunScript.

Lemma filter_prefix_length {A} (f : A -> bool) (l1 l2 : list A) :
  l1 `prefix_of` l2 ->
  (length (List.filter f l1) <= length (List.filter f l2))%nat.
Proof.
  intros [k ->]. rewrite List.filter_app, length_app. lia.
Qed.

Lemma filter_none {A} (f : A -> bool) (l : list A) :
  Forall (fun x => f x = false) l -> List.filter f l = [].
Proof.
  induction 1 as [|x l Hx _ IH]; simpl; [reflexivity|]. rewrite Hx. exact IH.
Qed.

Lemma adjacent_here {A} (a b : A) (l : list A) (P : list A -> Prop) :
  P l -> exists pre post, a :: b :: l = pre ++ a :: b :: post /\ P post.
Proof. intros H. exists [], l. auto. Qed.

Lemma adjacent_later {A} (a b x : A) (l : list A) (P : list A -> Prop) :
  (exists pre post, l = pre ++ a :: b :: post /\ P post) ->
  exists pre post, x :: l = pre ++ a :: b :: post /\ P post.
Proof. intros (pre & post & -> & H). exists (x :: pre), post. auto. Qed.

Ltac find_adjacent :=
  first [ apply adjacent_here | apply adjacent_later; find_adjacent ].

(** Take apart the membership of a call in a played script: the call
    is one of the script, and every step before it returned. *)
Ltac in_played H :=
  repeat first
    [ apply elem_of_played_cons in H;
      destruct H as [H | [? H]]; [try discriminate H |]
    | apply elem_of_nil in H; destruct H ].

Ltac not_in_cleanup H :=
  let F := fresh in
  lazymatch type of H with
  | _ ∈ cleanupCalls ?a ?b ?c ?d ?e =>
      pose proof (cleanupCalls_are_cleanup a b c d e) as F
  end;
  rewrite Forall_forall in F; specialize (F _ H); discriminate F.

Ltac split_script :=
  unfold script;
  lazymatch goal with
  | |- context [headless ?config] =>
      destruct (negb (headless config) && hideWindow config) eqn:?,
        (cookieSync config) eqn:?;
      (destruct (desiredModel config) as [?model|] eqn:?;
       [destruct (truthyString model) eqn:?|])
  end;
  lazymatch goal with
  | |- context [waitForAssistantResponseE ?env] =>
      destruct (waitForAssistantResponseE env) as [?|?answer] eqn:?
  end;
  cbn [app].

Section Conduct.

Context {Raw : Type}.
Variable resolveBrowserConfig : Raw -> BrowserConfig.
Variable estimateTokenCount : JsString -> Z.

Local Abbreviation call := (run resolveBrowserConfig estimateTokenCount).


(** X2.  A prompt is submitted only to a page that was navigated to
    and found unblocked and ready, after the model selection and the
    second readiness check when a model is desired; and what is
    submitted is the trimmed prompt. *)
Theorem prompt_is_submitted_after_the_checks
    (env : Env) (options : BrowserRunOptions Raw) (w : World)
    (text : JsString) :
  CallSubmitPrompt text ∈ calls (world (call env options w).2) ->
  let config := resolveBrowserConfig (config options) in
  trim <$> prompt options = Some text
  /\ navigateToChatGPTE env = inr tt
  /\ ensureNotBlockedE env = inr tt
  /\ ensurePromptReadyE env = inr tt
  /\ (forall model,
        desiredModel config = Some model -> truthyString model = true ->
        ensureModelSelectionE env = inr tt
        /\ ensurePromptReadyAgainE env = inr tt).
Proof.
  intros Hin config.
  destruct (reach resolveBrowserConfig estimateTokenCount env options w)
    as [_ Hrun | p e _ _ _ _ Hcalls _ _ | p d e _ _ _ _ _ Hcalls _ _
        | p d c Hp Hne Hmk Hl].
  - rewrite Hrun in Hin. cbn in Hin. set_solver.
  - rewrite Hcalls in Hin. set_solver.
  - rewrite Hcalls in Hin. set_solver.
  - rewrite (run_calls _ _ _ _ _ _ _ _ Hp Hne Hmk Hl) in Hin.
    rewrite !elem_of_app in Hin. destruct Hin as [Hin | [Hin | Hin]].
    + set_solver.
    + revert Hin. fold config. split_script; intros Hin; in_played Hin;
        injection Hin as ->;
        repeat match goal with
               | H : errorOf _ = None |- _ => apply returned_unit in H
               end;
        (split; [exact Hp|]); (split; [assumption|]);
        (split; [assumption|]); (split; [assumption|]);
        intros model' Hm Ht; try congruence;
        split; assumption.
    + not_in_cleanup Hin.
Qed.

(** X3.  No run submits a prompt twice. *)
Theorem prompt_is_submitted_at_most_once
    (env : Env) (options : BrowserRunOptions Raw) (w : World) :
  (length (List.filter isSubmit (calls (world (call env options w).2))) <= 1)%nat.
Proof.
  destruct (reach resolveBrowserConfig estimateTokenCount env options w)
    as [_ Hrun | p e _ _ _ _ Hcalls _ _ | p d e _ _ _ _ _ Hcalls _ _
        | p d c Hp Hne Hmk Hl].
  - rewrite Hrun. cbn. lia.
  - rewrite Hcalls. cbn. lia.
  - rewrite Hcalls. cbn. lia.
  - rewrite (run_calls _ _ _ _ _ _ _ _ Hp Hne Hmk Hl).
    rewrite !List.filter_app, !length_app.
    rewrite (filter_none isSubmit (cleanupCalls _ _ _ _ _)).
    + etransitivity;
        [apply Nat.add_le_mono_l, Nat.add_le_mono_r, filter_prefix_length,
           played_prefix|].
      split_script; cbn; lia.
    + eapply Forall_impl; [apply cleanupCalls_are_cleanup|].
      intros [] H; try discriminate H; reflexivity.
Qed.

(** X4.  The browser window is only ever hidden on a connected
    session of a headed browser whose configuration asks for it. *)
Theorem window_is_hidden_only_when_asked
    (env : Env) (options : BrowserRunOptions Raw) (w : World) :
  CallHideChromeWindow ∈ calls (world (call env options w).2) ->
  let config := resolveBrowserConfig (config options) in
  headless config = false /\ hideWindow config = true
  /\ connectToChromeE env = inr tt.
Proof.
  intros Hin config.
  destruct (reach resolveBrowserConfig estimateTokenCount env options w)
    as [_ Hrun | p e _ _ _ _ Hcalls _ _ | p d e _ _ _ _ _ Hcalls _ _
        | p d c Hp Hne Hmk Hl].
  - rewrite Hrun in Hin. cbn in Hin. set_solver.
  - rewrite Hcalls in Hin. set_solver.
  - rewrite Hcalls in Hin. set_solver.
  - rewrite (run_calls _ _ _ _ _ _ _ _ Hp Hne Hmk Hl) in Hin.
    rewrite !elem_of_app in Hin. destruct Hin as [Hin | [Hin | Hin]].
    + set_solver.
    + revert Hin. fold config. split_script; intros Hin; in_played Hin;
        repeat match goal with
               | H : errorOf _ = None |- _ => apply returned_unit in H
               | H : negb _ && _ = true |- _ =>
                   apply andb_true_iff in H as [?%negb_true_iff ?]
               end; auto.
    + not_in_cleanup Hin.
Qed.

(** X5.  Cookies are copied only when the configuration asks for it,
    for the configured url and profile, and right after the cookie
    store of the browser was cleared: the clearing returned, the copy
    is the very next call, and the store is not cleared again after
    it. *)
Theorem cookies_are_cleared_before_they_are_copied
    (env : Env) (options : BrowserRunOptions Raw) (w : World)
    (u : JsString) (profile : option JsString) :
  CallSyncCookies u profile ∈ calls (world (call env options w).2) ->
  let config := resolveBrowserConfig (config options) in
  cookieSync config = true /\ u = url config
  /\ profile = chromeProfile config
  /\ clearBrowserCookiesE env = inr tt
  /\ exists pre post,
       calls (world (call env options w).2)
       = pre ++ CallClearBrowserCookies :: CallSyncCookies u profile :: post
       /\ CallClearBrowserCookies ∉ post.
Proof.
  intros Hin config.
  destruct (reach resolveBrowserConfig estimateTokenCount env options w)
    as [_ Hrun | p e _ _ _ _ Hcalls _ _ | p d e _ _ _ _ _ Hcalls _ _
        | p d c Hp Hne Hmk Hl].
  - rewrite Hrun in Hin. cbn in Hin. set_solver.
  - rewrite Hcalls in Hin. set_solver.
  - rewrite Hcalls in Hin. set_solver.
  - rewrite (run_calls _ _ _ _ _ _ _ _ Hp Hne Hmk Hl) in Hin |- *.
    rewrite !elem_of_app in Hin. destruct Hin as [Hin | [Hin | Hin]].
    + set_solver.
    + revert Hin. fold config. split_script; intros Hin; in_played Hin;
        injection Hin as -> ->;
        (split; [reflexivity|]); (split; [reflexivity|]);
        (split; [reflexivity|]);
        (split; [apply returned_unit; assumption|]);
        repeat match goal with
               | H : errorOf _ = None |- _ => rewrite H
               | H : joined _ _ _ = None |- _ => rewrite H
               end;
        rewrite !played_returned, played_cons; cbn [app];
        find_adjacent;
        (intros Hpost; apply elem_of_app in Hpost as [Hpost | Hpost];
         [ destruct (errorOf (syncCookiesE env));
           [ apply elem_of_nil in Hpost; exact Hpost
           | in_played Hpost ]
         | not_in_cleanup Hpost ]).
    + not_in_cleanup Hin.
Qed.

End Conduct.

(** ** How a run ends, and what its log says about it *)

Ltac at_status :=
  lazymatch goal with
  | |- hoare _ (bind (setRunStatus _) _) _ => idtac
  end.

Lemma unlogged_log bad l m :
  bad l = false -> unlogged bad m -> unlogged bad (updWorld (addLog l) m).
Proof.
  intros Hl Hm. unfold unlogged. cbn. apply Forall_app. split; [exact Hm|].
  repeat constructor. exact Hl.
Qed.

Ltac underway_fin :=
  intros ? (? & ? & ?);
  (split; [assumption | split; [assumption|]]);
  first [ assumption
        | apply unlogged_log;
          [ repeat match goal with
                   | |- context [if ?b then _ else _] => destruct b
                   end; reflexivity
          | assumption ] ].

Section Outcome.

Variable estimateTokenCount : JsString -> Z.
Variable env : Env.
Variables (config : BrowserConfig) (supplied : bool) (chrome : Chrome).
Variables (userDataDir promptText : JsString) (startedAt : Z).

Local Abbreviation try :=
  (attempt estimateTokenCount env config supplied chrome userDataDir
     promptText startedAt).
Local Abbreviation guarded := (tryCatch try (rethrow env config supplied)).
Local Abbreviation concluded := (concluded env supplied startedAt).

Lemma try_outcome n :
  hoare (underway n) try
    (fun r m =>
       match r with
       | inr result =>
           runStatus (frame m) = complete /\ ticks (world m) = S n
           /\ tookMs result = clock env n - startedAt
           /\ unlogged isFailureLine m
       | inl _ => underway n m
       end).
Proof.
  unfold attempt.
  walk_until ltac:(idtac; at_status) (underway n)
    ltac:(idtac; underway_fin) ltac:(intros ? ? HJ; exact HJ).
  intros m (Hs & Ht & Hf).
  unfold bind, setRunStatus, onFrame, dateNow, getFrame, ret.
  cbn. rewrite Ht. auto.
Qed.

Lemma guarded_outcome n : hoare (underway n) guarded (concluded n).
Proof.
  eapply hoare_tryCatch; [apply try_outcome | |].
  - intros e m (Hs & Ht & Hf). rewrite rethrow_spec. cbn [fst snd].
    unfold concluded. cbn [updWorld world frame].
    split; [exact Hs|]. unfold failureLines, unlogged in *.
    destruct supplied, (debug config || traceEnv env), (stackOf e); cbn;
      (split; [exact Ht|]); (split; [intros; try discriminate; set_solver|]);
      intros message Hin; rewrite ?elem_of_app, ?list_elem_of_singleton in Hin;
      rewrite Forall_forall in Hf;
      repeat match goal with
             | H : _ \/ _ |- _ => destruct H
             | H : LogFailed _ ∈ _ |- _ => apply Hf in H; discriminate H
             | H : LogFailed _ = _ |- _ => inversion H; clear H
             end; reflexivity.
  - intros a m H. exact H.
Qed.

End Outcome.

Section RunOutcome.

Context {Raw : Type}.
Variable resolveBrowserConfig : Raw -> BrowserConfig.
Variable estimateTokenCount : JsString -> Z.
Variable env : Env.
Variables (options : BrowserRunOptions Raw) (w : World).
Variables (promptText userDataDir : JsString) (chrome : Chrome).

Hypothesis trimmed : trim <$> prompt options = Some promptText.
Hypothesis nonblank : promptText <> [].
Hypothesis made : mkdtempE env = inr userDataDir.
Hypothesis launched : launchChromeE env = inr chrome.

Local Abbreviation call := (run resolveBrowserConfig estimateTokenCount env).
Local Abbreviation config := (resolveBrowserConfig (config options)).

Lemma atTry_underway :
  underway 1 (atTry env config (log options) promptText userDataDir chrome w).
Proof.
  split; [reflexivity|]. split; [apply atTry_ticks|].
  unfold unlogged, atTry, logIf.
  destruct (log options), (debug config || traceEnv env),
    (registerTerminationHooksE env); repeat constructor.
Qed.

(** The log of a call that got past the launch: what the [try] and
    [catch] blocks left, and the line of the [finally] block. *)
Lemma run_logged :
  exists m,
    concluded env (log options) (clock env 0) 1 (call options w).1 m
    /\ logged (world (call options w).2)
       = logged (world m)
         ++ (if log options then
               [if keepBrowser config
                then LogLeftRunning (port chrome) userDataDir
                else LogCleanup (runStatus (frame m))
                       (clock env (ticks (world m)) - clock env 0)]
             else []).
Proof.
  rewrite (run_past_launch _ _ _ _ _ _ _ _ trimmed nonblank made launched).
  cbn [fst snd]. eexists. split; [|apply cleanup_logged].
  apply (guarded_outcome estimateTokenCount env config (log options) chrome
           userDataDir promptText (clock env 0) 1 _ atTry_underway).
Qed.

End RunOutcome.

Lemma clock_step env n : clock env n <= clock env (S n).
Proof. unfold clock. simpl. lia. Qed.

Section Reporting.

Context {Raw : Type}.
Variable resolveBrowserConfig : Raw -> BrowserConfig.
Variable estimateTokenCount : JsString -> Z.

Local Abbreviation call := (run resolveBrowserConfig estimateTokenCount).



(** X8.  What a result says beside the answer: the profile
    directory and the browser are the ones this call made and
    launched, [answerChars] is the length of [answerText],
    [answerTokens] is the estimate for [answerMarkdown], and
    [answerHtml] is the captured html unless that is absent or empty,
    in which case it is undefined. *)
Theorem result_describes_the_run
    (env : Env) (options : BrowserRunOptions Raw) (w : World)
    (result : BrowserRunResult) :
  (call env options w).1 = inr result ->
  exists userDataDir chrome answer,
    mkdtempE env = inr userDataDir
    /\ launchChromeE env = inr chrome
    /\ waitForAssistantResponseE env = inr answer
    /\ userDataDirR result = userDataDir
    /\ chromePid result = pid chrome
    /\ chromePort result = port chrome
    /\ answerChars result = length (answerTextR result)
    /\ answerTokens result = estimateTokenCount (answerMarkdownR result)
    /\ answerHtmlR result
       = match html answer with
         | Some (u :: rest) => Some (u :: rest)
         | Some [] | None => None
         end.
Proof.
  intros Hres.
  apply success_inversion in Hres
    as (p & d & c & answer & copied & n & _ & _ & Hmk & Hl & Hw & _ & ->).
  exists d, c, answer. cbn.
  repeat (split; [first [assumption | reflexivity]|]).
  destruct (html answer) as [[|u rest]|]; reflexivity.
Qed.


End Reporting.

(** *** Lines for debugging *)

Section DebugLines.

Context {Raw : Type}.
Variable resolveBrowserConfig : Raw -> BrowserConfig.
Variable estimateTokenCount : JsString -> Z.

Local Abbreviation call := (run resolveBrowserConfig estimateTokenCount).

(** X10.  Unless the configuration has [debug] set or the trace
    variable of the environment is set, neither the configuration nor
    the stack of an error is ever logged. *)
Theorem debug_lines_need_debug
    (env : Env) (options : BrowserRunOptions Raw) (w : World) :
  debug (resolveBrowserConfig (config options)) = false ->
  traceEnv env = false ->
  unlogged isDebugLine (call env options w).2.
Proof.
  intros Hd Ht. unfold run.
  set (start := {| world := begin w; frame := initialFrame |}).
  assert (Hstart : unlogged isDebugLine start) by constructor.
  revert Hstart. generalize start. clear start.
  change (invariant (unlogged isDebugLine)
            (runBrowserMode resolveBrowserConfig estimateTokenCount env options)).
  unfold runBrowserMode.
  destruct (trim <$> prompt options) as [[|u t]|];
    [apply inv_throw | | apply inv_throw].
  cbv zeta. rewrite Hd, Ht. cbn [orb].
  inv_walk ltac:(idtac; intros ? ?;
                 repeat match goal with
                        | |- context [match ?o with inl _ => _ | inr _ => _ end] =>
                            destruct o
                        end;
                 first [ assumption
                       | discriminate
                       | match goal with
                         | H : debug _ || traceEnv _ = true |- _ =>
                             rewrite Hd, Ht in H; discriminate H
                         end
                       | apply unlogged_log;
                         [ repeat match goal with
                                  | |- context [if ?b then _ else _] =>
                                      destruct b
                                  end; reflexivity
                         | assumption ] ]).
Qed.

End DebugLines.

(** *** The log sink is only told *)

Ltac log_fin :=
  intros ? ? (? & ? & ? & ? & ? & ? & ? & ?);
  unfold sameButLog, clock;
  repeat match goal with
         | |- context [match ?o with _ => _ end] => destruct o
         end;
  calls_cbn; env_cbn;
  repeat split; congruence.

Lemma ls_logger_muted (supplied : bool) (l : LogLine) :
  lockstep sameButLog eq (logger supplied l) (logger false l).
Proof.
  intros m m' (? & ? & ? & ? & ? & ? & ? & ?).
  unfold logger, when, onWorld, ret, sameButLog.
  destruct supplied; cbn; repeat split; congruence.
Qed.

Section Muted.

Context {Raw : Type}.
Variable resolveBrowserConfig : Raw -> BrowserConfig.
Variable estimateTokenCount : JsString -> Z.

Local Abbreviation call := (run resolveBrowserConfig estimateTokenCount).

Lemma runBrowserMode_muted env (options : BrowserRunOptions Raw) :
  lockstep sameButLog eq
    (runBrowserMode resolveBrowserConfig estimateTokenCount env options)
    (runBrowserMode resolveBrowserConfig estimateTokenCount env
       (withoutLog options)).
Proof.
  unfold runBrowserMode, withoutLog. cbn [prompt config log].
  destruct (trim <$> prompt options) as [[|u t]|];
    [apply ls_throw| |apply ls_throw].
  cbv zeta.
  ls_walk (@eq Frame) ltac:(subst) ltac:(apply ls_logger_muted) log_fin.
Qed.

(** X11.  The log sink is only told: without one the call
    completes in the same way (the same result or the same throw),
    issues the same calls, reads the clock as often and leaves the
    same directories, processes, session and hooks; and nothing is
    logged. *)
Theorem log_sink_is_only_told
    (env : Env) (options : BrowserRunOptions Raw) (w : World) :
  let told := call env options w in
  let mute := call env (withoutLog options) w in
  told.1 = mute.1
  /\ sameButLog told.2 mute.2.
Proof.
  intros told mute.
  assert (H : agree eq told.1 mute.1 /\ sameButLog told.2 mute.2).
  { apply (runBrowserMode_muted env options).
    repeat split; reflexivity. }
  destruct H as [Ha Hs]. split; [apply agree_eq, Ha | exact Hs].
Qed.

End Muted.

(** ** The picker at work *)

Module PickingFacts.
Import Picking.

Lemma lookup_emptied (els : list nat) (styles : gmap nat JsString) (el : nat) :
  foldr (fun el styles => <[ el := [] ]> styles) styles els !! el
  = if bool_decide (el ∈ els) then Some [] else styles !! el.
Proof.
  induction els as [|x els IH]; cbn [foldr].
  - rewrite bool_decide_eq_false_2 by apply not_elem_of_nil. reflexivity.
  - destruct (decide (x = el)) as [->|Hne].
    + rewrite lookup_insert_eq.
      rewrite bool_decide_eq_true_2 by set_solver. reflexivity.
    + rewrite lookup_insert_ne by exact Hne. rewrite IH.
      rewrite (bool_decide_ext (el ∈ x :: els) (el ∈ els)); [reflexivity|].
      set_solver.
Qed.

Section Closures.

Variable toLowerCase : JsString -> JsString.
Variable prompt : JsString.
Variable styles : gmap nat JsString.

Local Abbreviation tidy := (tidy styles prompt).
Local Abbreviation dispatch := (dispatch toLowerCase prompt).
Local Abbreviation after := (after toLowerCase prompt styles).

Lemma pick_tidy : tidy (pick prompt styles).
Proof.
  unfold tidy, pick, updateBanner. cbn.
  split; [constructor|]. do 5 (split; [reflexivity|]).
  split; [|exact Logic.I]. intros el.
  rewrite bool_decide_eq_false_2 by apply not_elem_of_nil. reflexivity.
Qed.

Lemma listening_unsettled s :
  tidy s -> listening s = true -> settled s = None.
Proof.
  intros (_ & _ & _ & _ & _ & H & _) Hl. rewrite Hl in H.
  destruct (settled s); [|reflexivity]. 
  rewrite bool_decide_eq_true_2 in H by eauto. discriminate.
Qed.

Lemma cleanup_tidy s value :
  tidy s -> listening s = true ->
  match value with
  | One _ => selections s = []
  | Many chosen => chosen = selections s /\ chosen <> []
  | Nothing => True
  end ->
  tidy (resolve value (cleanup s)).
Proof.
  intros Hs Hl Hv. pose proof (listening_unsettled s Hs Hl) as Hn.
  destruct Hs as (Hnd & Hlen & Hb & _ & _ & _ & Ho & _).
  unfold tidy, resolve, cleanup. cbn. rewrite Hn.
  split; [exact Hnd|]. split; [exact Hlen|]. split; [exact Hb|].
  split; [reflexivity|]. split; [reflexivity|]. 
  split; [rewrite bool_decide_eq_true_2 by eauto; reflexivity|].
  split; [|exact Hv].
  intros el. rewrite lookup_emptied, Ho.
  destruct (bool_decide (el ∈ selectedElements s)); reflexivity.
Qed.

Lemma select_tidy s el :
  tidy s -> listening s = true -> node el ∉ selectedElements s ->
  tidy (select toLowerCase prompt el s).
Proof.
  intros Hs Hl Hnew. pose proof (listening_unsettled s Hs Hl) as Hn.
  destruct Hs as (Hnd & Hlen & Hb & Hov & Hba & Hse & Ho & _).
  unfold tidy, select, updateBanner. cbn. rewrite Hn, Hl in *.
  split; [apply NoDup_app; split; [exact Hnd|]; split;
          [intros x Hx ->%list_elem_of_singleton; contradiction
          | apply NoDup_singleton]|].
  split; [rewrite !length_app, Hlen; reflexivity|].
  split; [reflexivity|]. split; [exact Hov|]. split; [exact Hba|].
  split; [exact Hse|]. split; [|exact Logic.I].
  intros x. destruct (decide (x = node el)) as [->|Hne].
  - rewrite lookup_insert_eq, bool_decide_eq_true_2; [reflexivity|].
    apply elem_of_app. right. apply list_elem_of_singleton. reflexivity.
  - rewrite lookup_insert_ne by congruence. rewrite Ho.
    destruct (decide (x ∈ selectedElements s)) as [Hin|Hnin].
    + rewrite !bool_decide_eq_true_2; [reflexivity | | exact Hin].
      apply elem_of_app. left. exact Hin.
    + rewrite !bool_decide_eq_false_2; [reflexivity | | exact Hnin].
      intros [?|?%list_elem_of_singleton]%elem_of_app; contradiction.
Qed.

Lemma swallow_tidy s : tidy s -> tidy (swallow s).
Proof. intros H. exact H. Qed.

Lemma dispatch_tidy s event : tidy s -> tidy (dispatch s event).
Proof.
  intros Hs. unfold dispatch. destruct (listening s) eqn:Hl; [|exact Hs].
  destruct event as [hit | inBanner hit metaKey ctrlKey | key].
  - unfold onMove. destruct (target hit); exact Hs.
  - unfold onClick. destruct inBanner; [exact Hs|].
    destruct (target hit) as [el|]; [|exact Hs].
    destruct (metaKey || ctrlKey).
    + case_bool_decide as Hin; [exact Hs|].
      apply select_tidy; [exact Hs | exact Hl | exact Hin].
    + apply (cleanup_tidy (swallow s)); [exact Hs | exact Hl|].
      cbn. destruct (selections s) eqn:Hsel; [reflexivity|].
      split; [reflexivity | discriminate].
  - unfold onKey. case_bool_decide.
    + apply cleanup_tidy; [exact Hs | exact Hl | exact Logic.I].
    + destruct (bool_decide (key = units "Enter")); [|exact Hs].
      case_bool_decide as Hsel; [exact Hs|]. cbn [andb negb].
      apply cleanup_tidy; [exact Hs | exact Hl|].
      split; [reflexivity | exact Hsel].
Qed.

Lemma after_tidy events : tidy (after events).
Proof.
  unfold after. induction events as [|event events IH] using rev_ind.
  - apply pick_tidy.
  - rewrite foldl_app. apply dispatch_tidy, IH.
Qed.



(** X14.  What the promise is resolved with: null, or the
    description of one element when nothing was selected, or the
    selections made, which are then not empty. *)
Theorem picked_is_one_or_the_selections (events : list DomEvent)
    (result : Picked) :
  settled (after events) = Some result ->
  match result with
  | Nothing => True
  | One _ => selections (after events) = []
  | Many chosen => chosen = selections (after events) /\ chosen <> []
  end.
Proof.
  intros Hr. destruct (after_tidy events) as (_ & _ & _ & _ & _ & _ & _ & H).
  rewrite Hr in H. exact H.
Qed.


(** X16.  Once the promise is resolved no event changes anything:
    the listeners are gone. *)
Theorem settled_picker_ignores_events (events more : list DomEvent) :
  settled (after events) <> None ->
  after (events ++ more) = after events.
Proof.
  intros Hs. unfold after. rewrite foldl_app. fold (after events).
  destruct (after_tidy events) as (_ & _ & _ & _ & _ & Hse & _).
  destruct (settled (after events)) as [r|]; [|contradiction].
  rewrite bool_decide_eq_true_2 in Hse by eauto. cbn in Hse.
  induction more as [|event more IH]; [reflexivity|].
  cbn [foldl]. unfold dispatch at 2. rewrite Hse. exact IH.
Qed.

(** X17.  The description of an element is bounded: its text is at
    most 200 code units, trimmed, and null rather than empty; its
    html is at most 500 code units; its id and class are null rather
    than empty. *)
Theorem serialized_fields_are_bounded (el : Element) :
  let info := serialize toLowerCase el in
  (length (infoHtml info) <= 500)%nat
  /\ infoId info <> Some []
  /\ infoClass info <> Some []
  /\ match infoText info with
     | Some slice =>
         (0 < length slice <= 200)%nat
         /\ exists content,
              textContent el = Some content /\ slice = take 200 (trim content)
     | None =>
         forall content, textContent el = Some content -> trim content = []
     end.
Proof.
  unfold serialize. cbn.
  split; [rewrite length_take; lia|].
  split; [destruct (elementId el); cbn; congruence|].
  split; [destruct (className el); cbn; congruence|].
  destruct (textContent el) as [content|]; [|intros ? ?; discriminate].
  destruct (take 200 (trim content)) as [|u slice] eqn:Hs; cbn.
  - intros ? [= <-]. destruct (trim content); [reflexivity | discriminate Hs].
  - split.
    + pose proof (length_take (trim content) 200%nat) as Hlen.
      rewrite Hs in Hlen.
      pose proof (Nat.le_min_l 200 (length (trim content))).
      cbn [length] in *. lia.
    + exists content. auto.
Qed.

End Closures.

End PickingFacts.

(** ** The commands of browser-tools *)

Module ToolsFacts.
Import Tools ToolsSpec.
Local Open Scope tools_scope.

Lemma count_app kind (l1 l2 : list Event) :
  count kind (l1 ++ l2) = (count kind l1 + count kind l2)%nat.
Proof. unfold count. rewrite List.filter_app, length_app. reflexivity. Qed.

Lemma slept_app (l1 l2 : list Event) : slept (l1 ++ l2) = slept l1 + slept l2.
Proof.
  induction l1 as [|[] l1 IH]; cbn [app slept]; rewrite ?IH; lia.
Qed.

Lemma printed_app (l1 l2 : list Event) :
  printed (l1 ++ l2) = printed l1 ++ printed l2.
Proof.
  induction l1 as [|[] l1 IH]; cbn [app printed]; rewrite ?IH; reflexivity.
Qed.

Section Polling.

Variable env : Devtools.
Variable port : Z.

(** The loop, lines 81-91: what it answers and what it does. *)
Lemma poll_spec (remaining : nat) (h : Host) :
  (poll env port remaining h).1
  = inr (existsb (up env) (seq (dialled h) remaining))
  /\ trace (poll env port remaining h).2
     = trace h ++ polled env port (dialled h) remaining.
Proof.
  revert h. induction remaining as [|later IH]; intros h.
  - cbn. rewrite app_nil_r. auto.
  - cbn [poll polled seq existsb].
    unfold bind at 1, tryCatch, bind, connectBrowser, disconnect, request,
      emit, sleep, ret, throw, up.
    destruct (connectE env (dialled h)) as [e|[]]; cbn.
    + specialize (IH {| trace := (trace h ++ [Connect port]) ++ [Sleep 500];
                        dialled := S (dialled h) |}).
      cbn in IH. destruct IH as [IH1 IH2]. rewrite IH1, IH2.
      rewrite <- !app_assoc. auto.
    + destruct (disconnectE env (dialled h)) as [e|[]]; cbn.
      * specialize (IH {| trace := ((trace h ++ [Connect port])
                                    ++ [Disconnect (dialled h)])
                                   ++ [Sleep 500];
                          dialled := S (dialled h) |}).
        cbn in IH. destruct IH as [IH1 IH2]. rewrite IH1, IH2.
        rewrite <- !app_assoc. auto.
      * rewrite <- !app_assoc. auto.
Qed.

(** While the attempts fail, each costs a connection and half a
    second. *)
Lemma polled_down (rank remaining : nat) :
  (forall n, (rank <= n < rank + remaining)%nat -> up env n = false) ->
  existsb (up env) (seq rank remaining) = false
  /\ count isConnect (polled env port rank remaining) = remaining
  /\ slept (polled env port rank remaining) = 500 * Z.of_nat remaining
  /\ printed (polled env port rank remaining) = [].
Proof.
  revert rank. induction remaining as [|later IH]; intros rank Hdown.
  - cbn. auto.
  - cbn [polled seq existsb].
    rewrite (Hdown rank) by lia.
    destruct (IH (S rank)) as (H1 & H2 & H3 & H4); [intros; apply Hdown; lia|].
    rewrite H1. split; [reflexivity|].
    change (Connect port :: ?l) with ([Connect port] ++ l).
    rewrite !count_app, !slept_app, !printed_app.
    change (Sleep 500 :: ?l) with ([Sleep 500] ++ l).
    rewrite !count_app, !slept_app, !printed_app, H2, H3, H4.
    destruct (isInr (connectE env rank)); cbn; (split; [lia|]);
      (split; [lia | reflexivity]).
Qed.

(** The loop stops at the first attempt that succeeds. *)
Lemma polled_up (rank remaining k : nat) :
  (k < remaining)%nat ->
  up env (rank + k) = true ->
  (forall n, (rank <= n < rank + k)%nat -> up env n = false) ->
  existsb (up env) (seq rank remaining) = true
  /\ count isConnect (polled env port rank remaining) = S k
  /\ slept (polled env port rank remaining) = 500 * Z.of_nat k
  /\ printed (polled env port rank remaining) = []
  /\ last (polled env port rank remaining) = Some (Disconnect (rank + k)).
Proof.
  revert rank k. induction remaining as [|later IH]; intros rank k Hk Hup Hdown.
  - lia.
  - cbn [polled seq existsb]. destruct k as [|k].
    + rewrite Nat.add_0_r in Hup. rewrite Hup. rewrite Nat.add_0_r.
      unfold up in Hup. apply andb_true_iff in Hup as [Hc _]. rewrite Hc.
      cbn. auto.
    + rewrite (Hdown rank) by lia.
      destruct (IH (S rank) k) as (H1 & H2 & H3 & H4 & H5);
        [lia | rewrite <- Hup; f_equal; lia | intros; apply Hdown; lia|].
      rewrite H1. split; [reflexivity|].
      change (Connect port :: ?l) with ([Connect port] ++ l).
      rewrite !count_app, !slept_app, !printed_app.
      change (Sleep 500 :: ?l) with ([Sleep 500] ++ l).
      rewrite !count_app, !slept_app, !printed_app, H2, H3, H4.
      replace (rank + S k)%nat with (S rank + k)%nat by lia.
      rewrite <- H5.
      destruct (isInr (connectE env rank)); cbn;
        (split; [lia|]); (split; [lia|]); (split; [reflexivity|]);
        destruct (polled env port (S rank) later); try discriminate;
        reflexivity.
Qed.

End Polling.


Section Start.

Variable env : Devtools.
Variables (port : Z) (profile : bool) (profileDir chromePath : JsString).

Local Abbreviation started :=
  (startAction env port profile profileDir chromePath freshHost).

(** The [start] command once the profile directory is there. *)
Lemma start_spec :
  mkdirE env = inr tt ->
  (profile = true -> rsyncE env = inr tt) ->
  let connected := existsb (up env) (seq 0 30) in
  started.1 = (if connected then inr tt else inl (Exited 1))
  /\ trace started.2
     = [Killall; Sleep 1000; Mkdir profileDir]
       ++ (if profile then [Rsync profileDir] else [])
       ++ [Spawn chromePath port profileDir]
       ++ polled env port 0 30
       ++ [if connected then Out (Listening port profile)
           else Err (FailedToStart port)].
Proof.
  intros Hmk Hrs connected.
  set (events := polled env port 0 30).
  assert (Hpoll : forall h, dialled h = 0%nat ->
            (poll env port 30 h).1 = inr connected
            /\ trace (poll env port 30 h).2 = trace h ++ events).
  { intros h Hh. unfold connected, events. rewrite <- Hh. apply poll_spec. }
  clearbody connected events.
  unfold startAction, bind, tryCatch, sleep, request, when, bind, emit, ret,
    throw, exit.
  rewrite Hmk.
  destruct (killallE env) as [?|[]], profile; try rewrite (Hrs eq_refl);
    cbn [trace dialled freshHost app fst snd];
    match goal with
    | |- context [poll env port 30 ?h] =>
        destruct (Hpoll h eq_refl) as [H1 H2];
        destruct (poll env port 30 h) as [[s|[]] h']
    end;
    cbn [fst snd trace] in *; try discriminate H1;
    injection H1 as <-; cbn [negb trace fst snd]; rewrite H2;
    rewrite <- ?app_assoc; cbn [app]; auto.
Qed.

(** X18.  When none of thirty attempts finds a browser to connect
    to, the [start] command gives up: it has tried to connect thirty
    times and no more, has slept one second before the first attempt
    and half a second after each, writes the failure to the error
    stream and nothing to the output, and ends the process with
    code 1. *)
Theorem start_gives_up_after_thirty_attempts :
  mkdirE env = inr tt ->
  (profile = true -> rsyncE env = inr tt) ->
  (forall n, (n < 30)%nat -> up env n = false) ->
  started.1 = inl (Exited 1)
  /\ count isConnect (trace started.2) = 30%nat
  /\ slept (trace started.2) = 1000 + 30 * 500
  /\ printed (trace started.2) = []
  /\ last (trace started.2) = Some (Err (FailedToStart port)).
Proof.
  intros Hmk Hrs Hdown.
  destruct (start_spec Hmk Hrs) as [Hr Ht].
  destruct (polled_down env port 0 30) as (Hc & Hn & Hs & Hp);
    [intros n Hn; apply Hdown; lia|].
  rewrite Hc in Hr, Ht. rewrite Hr, Ht.
  split; [reflexivity|].
  rewrite !count_app, !slept_app, !printed_app, Hn, Hs, Hp.
  rewrite !app_assoc, last_snoc.
  destruct profile; cbn; auto.
Qed.

(** X19.  The [start] command stops polling at the first attempt
    that connects: when that is the attempt of rank [n], it has
    tried [n + 1] times, has slept one second and then half a second
    after each of the [n] failures, and reports the browser as
    listening. *)
Theorem start_stops_at_the_first_connection (n : nat) :
  mkdirE env = inr tt ->
  (profile = true -> rsyncE env = inr tt) ->
  (n < 30)%nat ->
  up env n = true ->
  (forall k, (k < n)%nat -> up env k = false) ->
  started.1 = inr tt
  /\ count isConnect (trace started.2) = S n
  /\ slept (trace started.2) = 1000 + 500 * Z.of_nat n
  /\ printed (trace started.2) = [Listening port profile]
  /\ Disconnect n ∈ trace started.2.
Proof.
  intros Hmk Hrs Hn Hup Hdown.
  destruct (start_spec Hmk Hrs) as [Hr Ht].
  destruct (polled_up env port 0 30 n) as (Hc & Hk & Hs & Hp & Hl);
    [exact Hn | exact Hup | intros k Hk; apply Hdown; lia|].
  rewrite Hc in Hr, Ht. rewrite Hr, Ht.
  split; [reflexivity|].
  rewrite !count_app, !slept_app, !printed_app, Hk, Hs, Hp.
  split; [destruct profile; cbn; lia|].
  split; [destruct profile; cbn; lia|].
  split; [destruct profile; reflexivity|].
  rewrite !elem_of_app. do 3 right. left.
  apply last_Some_elem_of. exact Hl.
Qed.

(** X20.  Chrome is spawned exactly when the profile directory
    could be made and, with [--profile], the default profile could
    be copied into it; the copy is attempted exactly when
    [--profile] is given and the directory could be made.  Whether
    [killall] fails makes no difference to either. *)
Theorem start_spawns_once_the_profile_is_ready :
  (Spawn chromePath port profileDir ∈ trace started.2
   <-> mkdirE env = inr tt /\ (profile = true -> rsyncE env = inr tt))
  /\ (Rsync profileDir ∈ trace started.2
      <-> mkdirE env = inr tt /\ profile = true).
Proof.
  destruct (mkdirE env) as [e|[]] eqn:Hmk.
  - assert (Ht : trace started.2 = [Killall; Sleep 1000; Mkdir profileDir]).
    { unfold startAction, bind, tryCatch, sleep, request, bind, emit, ret, throw.
      rewrite Hmk. destruct (killallE env) as [?|[]]; reflexivity. }
    rewrite Ht. split; split; try (intros [? ?]; discriminate);
      intros H; exfalso; set_solver.
  - destruct (bool_dec profile true) as [Hp|Hp%not_true_is_false].
    + destruct (rsyncE env) as [e|[]] eqn:Hrs.
      * assert (Ht : trace started.2
                     = [Killall; Sleep 1000; Mkdir profileDir; Rsync profileDir]).
        { unfold startAction, bind, tryCatch, sleep, request, when, bind, emit,
            ret, throw.
          rewrite Hmk, Hp, Hrs. destruct (killallE env) as [?|[]]; reflexivity. }
        rewrite Ht. split; split; auto.
        -- intros H; exfalso; set_solver.
        -- intros [_ H]. specialize (H Hp). discriminate.
        -- intros _. set_solver.
      * destruct start_spec as [_ Ht]; [exact Hmk | intros _; exact Hrs|].
        rewrite Ht, Hp. split; split; auto; intros _; set_solver.
    + destruct start_spec as [_ Ht]; [exact Hmk | congruence|].
      rewrite Ht, Hp. split; split.
      * intros _. split; [reflexivity | discriminate].
      * intros _. set_solver.
      * intros H. exfalso. rewrite !elem_of_app in H.
        destruct H as [H | [H | [H | [H | H]]]].
        -- set_solver.
        -- set_solver.
        -- set_solver.
        -- clear -H. revert H. generalize 0%nat at 1. generalize 30%nat.
           intros remaining. induction remaining as [|later IH]; intros rank H.
           ++ cbn in H. set_solver.
           ++ cbn [polled] in H.
              destruct (isInr (connectE env rank)), (up env rank);
                cbn in H; set_solver.
        -- destruct (existsb _ _); set_solver.
      * intros [_ ?]. discriminate.
Qed.

End Start.


(** *** What a computation emits *)

Lemma emits_ret {A} ok (a : A) : emits ok (ret a).
Proof.
  intros h. split; [|discriminate]. exists []. rewrite app_nil_r. auto.
Qed.

Lemma emits_throw {A} ok (e : Thrown) : emits ok (@throw A e).
Proof.
  intros h. split; [|discriminate]. exists []. rewrite app_nil_r. auto.
Qed.

Lemma emits_emit ok (ev : Event) : ok ev = true -> emits ok (emit ev).
Proof.
  intros Hev h. split; [|discriminate]. exists [ev]. split; [reflexivity|].
  repeat constructor. exact Hev.
Qed.

Lemma emits_bind {A B} ok (c : T A) (k : A -> T B) :
  emits ok c -> (forall a, emits ok (k a)) -> emits ok (bind c k).
Proof.
  intros Hc Hk h. unfold bind.
  destruct (Hc h) as [(l & Hl & Hok) Hne].
  destruct (c h) as [[s|a] h1]; cbn in *.
  - split; [eauto|]. intros code [= ->]. exact (Hne code eq_refl).
  - destruct (Hk a h1) as [(l' & Hl' & Hok') Hne'].
    split; [|exact Hne']. exists (l ++ l'). split.
    + rewrite Hl', Hl, app_assoc. reflexivity.
    + apply Forall_app. auto.
Qed.

Lemma emits_request {A} ok (ev : Event) (o : Thrown + A) :
  ok ev = true -> emits ok (request ev o).
Proof.
  intros Hev. unfold request. apply emits_bind; [apply emits_emit, Hev|].
  intros _. destruct o; [apply emits_throw | apply emits_ret].
Qed.

Lemma emits_when ok (b : bool) (c : T unit) :
  emits ok c -> emits ok (when b c).
Proof. intros Hc. destruct b; [exact Hc | apply emits_ret]. Qed.

Section Printing.

Variable ok : Event -> bool.
Hypothesis lines_ok : forall line, ok (Out line) = true.

Lemma emits_printEntries (value : Json) : emits ok (printEntries value).
Proof.
  unfold printEntries. destruct (entries value) as [e|fields];
    [apply emits_throw|].
  induction fields as [|field fields IH]; cbn [foldr]; [apply emits_ret|].
  apply emits_bind; [apply emits_emit, lines_ok | intros _; exact IH].
Qed.

Lemma emits_printItems (index : nat) (items : list Json) :
  emits ok (printItems index items).
Proof.
  revert index. induction items as [|item items IH]; intros index;
    cbn [printItems]; [apply emits_ret|].
  apply emits_bind; [apply emits_when, emits_emit, lines_ok|]. intros _.
  apply emits_bind; [apply emits_printEntries | intros _; apply IH].
Qed.

Lemma emits_printResult (result : Json) : emits ok (printResult result).
Proof.
  destruct result; cbn [printResult];
    first [ apply emits_emit, lines_ok
          | apply emits_printItems
          | apply emits_printEntries ].
Qed.

End Printing.

Lemma notDisconnect_false l :
  Forall (fun ev => notDisconnect ev = true) l ->
  Forall (fun ev => isDisconnect ev = false) l.
Proof.
  intros H. eapply Forall_impl; [exact H|]. intros ev Hev.
  unfold notDisconnect in Hev.
  destruct (isDisconnect ev); [discriminate | reflexivity].
Qed.

Section Commands.

Variable env : Devtools.
Variable port : Z.

(** A [finally] block that disconnects does so after whatever its
    [try] block did, however that ended. *)
Lemma finally_disconnects {A} (body : T A) (browser : nat) (h : Host) :
  emits notDisconnect body ->
  exists l,
    trace (tryFinally body (disconnect env browser) h).2
    = trace h ++ l ++ [Disconnect browser]
    /\ Forall (fun ev => isDisconnect ev = false) l.
Proof.
  intros Hb. destruct (Hb h) as [(l & Hl & Hok) Hne].
  exists l. split; [|apply notDisconnect_false, Hok].
  unfold tryFinally, disconnect, request, bind, emit, ret, throw.
  destruct (body h) as [[[e|code]|a] h1]; cbn in *.
  - destruct (disconnectE env browser); cbn; rewrite Hl, app_assoc; reflexivity.
  - destruct (Hne code eq_refl).
  - destruct (disconnectE env browser); cbn; rewrite Hl, app_assoc; reflexivity.
Qed.

Lemma closedOnce_intro (browser : nat) (before l : list Event) :
  Forall (fun ev => isDisconnect ev = false) before ->
  Forall (fun ev => isDisconnect ev = false) l ->
  closedOnce browser (before ++ l ++ [Disconnect browser]).
Proof.
  intros Hb Hl. exists (before ++ l). split; [apply app_assoc|].
  apply Forall_app. auto.
Qed.

(** What [getActivePage] does on a fresh host, lines 31-40. *)
Lemma getActivePage_spec :
  getActivePage env port freshHost
  = match connectE env 0 with
    | inl e => (inl (Threw e), {| trace := [Connect port]; dialled := 1 |})
    | inr _ =>
        match pagesE env with
        | inl e =>
            (inl (Threw e),
             {| trace := [Connect port; Pages 0]; dialled := 1 |})
        | inr pages =>
            match last pages with
            | Some page =>
                (inr (0%nat, page),
                 {| trace := [Connect port; Pages 0]; dialled := 1 |})
            | None =>
                (inl (Threw (match disconnectE env 0 with
                             | inl e => e
                             | inr _ => noActiveTab
                             end)),
                 {| trace := [Connect port; Pages 0; Disconnect 0];
                    dialled := 1 |})
            end
        end
    end.
Proof.
  unfold getActivePage, bind, connectBrowser, disconnect, request, bind, emit,
    ret, throw. cbn.
  destruct (connectE env 0) as [?|[]]; [reflexivity|]. cbn.
  destruct (pagesE env) as [?|pages]; [reflexivity|]. cbn.
  destruct (last pages); [reflexivity|]. cbn.
  destruct (disconnectE env 0) as [?|[]]; reflexivity.
Qed.

(** A command of the form [const { browser, page } = await
    getActivePage(port); try { body } finally { await
    browser.disconnect() }]. *)
Lemma page_command_closes (body : nat -> nat -> T unit) (pages : list nat) :
  connectE env 0 = inr tt ->
  pagesE env = inr pages ->
  (forall browser page, emits notDisconnect (body browser page)) ->
  closedOnce 0
    (trace (bind (getActivePage env port)
              (fun active =>
                 let '(browser, page) := active in
                 tryFinally (body browser page) (disconnect env browser))
              freshHost).2).
Proof.
  intros Hc Hp Hb. unfold bind at 1. rewrite getActivePage_spec, Hc, Hp.
  destruct (last pages) as [page|].
  - destruct (finally_disconnects (body 0%nat page) 0
                {| trace := [Connect port; Pages 0]; dialled := 1 |}
                (Hb _ _)) as (l & -> & Hl).
    apply closedOnce_intro; [repeat constructor | exact Hl].
  - cbn. exists [Connect port; Pages 0]. split; [reflexivity|].
    repeat constructor.
Qed.

Lemma page_command_leaks (body : nat -> nat -> T unit) (e : Thrown) :
  connectE env 0 = inr tt ->
  pagesE env = inl e ->
  bind (getActivePage env port)
    (fun active =>
       let '(browser, page) := active in
       tryFinally (body browser page) (disconnect env browser))
    freshHost
  = (inl (Threw e), {| trace := [Connect port; Pages 0]; dialled := 1 |}).
Proof.
  intros Hc Hp. unfold bind at 1. rewrite getActivePage_spec, Hc, Hp.
  reflexivity.
Qed.

Lemma page_command_no_tab (body : nat -> nat -> T unit) :
  connectE env 0 = inr tt ->
  pagesE env = inr [] ->
  disconnectE env 0 = inr tt ->
  bind (getActivePage env port)
    (fun active =>
       let '(browser, page) := active in
       tryFinally (body browser page) (disconnect env browser))
    freshHost
  = (inl (Threw noActiveTab),
     {| trace := [Connect port; Pages 0; Disconnect 0]; dialled := 1 |}).
Proof.
  intros Hc Hp Hd. unfold bind at 1. rewrite getActivePage_spec, Hc, Hp, Hd.
  reflexivity.
Qed.

Ltac emits_walk :=
  lazymatch goal with
  | |- emits _ (bind _ _) =>
      apply emits_bind; [emits_walk | intros ?; emits_walk]
  | |- emits _ (request _ _) => apply emits_request; reflexivity
  | |- emits _ (emit _) => apply emits_emit; reflexivity
  | |- emits _ (printResult _) => apply emits_printResult; reflexivity
  | |- emits _ (ret _) => apply emits_ret
  | |- emits _ (throw _) => apply emits_throw
  | |- emits _ (match last ?pages with _ => _ end) =>
      destruct (last pages); emits_walk
  | |- emits _ (if ?b then _ else _) => destruct b; emits_walk
  end.

Lemma nav_body_emits (url : JsString) (new : bool) (browser : nat) :
  emits notDisconnect
    (if new then
       page <- request (NewPage browser) (newPageE env);;
       request (Goto page url) (gotoE env);;
       emit (Out (OpenedInNewTab url))
     else
       pages <- request (Pages browser) (pagesE env);;
       match last pages with
       | None => throw noActiveTab
       | Some page =>
           request (Goto page url) (gotoE env);;
           emit (Out (NavigatedCurrentTab url))
       end).
Proof.
  emits_walk.
Qed.

(** X21.  Once connected, the [nav] command closes its connection
    exactly once, as the last thing it does, whether the navigation
    succeeds, fails, or finds no tab to navigate. *)
Theorem nav_always_disconnects (url : JsString) (new : bool) :
  connectE env 0 = inr tt ->
  closedOnce 0 (trace (navAction env url port new freshHost).2).
Proof.
  intros Hc. unfold navAction, bind at 1, connectBrowser.
  cbn [freshHost trace dialled app]. rewrite Hc.
  destruct (finally_disconnects _ 0 {| trace := [Connect port]; dialled := 1 |}
              (nav_body_emits url new 0)) as (l & -> & Hl).
  apply closedOnce_intro; [repeat constructor | exact Hl].
Qed.

(** X22.  The [nav] command navigates one tab at most, to the url
    it was given: the tab it opened when [--new] is given, and
    otherwise the last of the tabs the browser lists. *)
Theorem nav_goes_to_the_new_or_the_last_tab
    (url : JsString) (new : bool) (page : nat) (target : JsString) :
  Goto page target ∈ trace (navAction env url port new freshHost).2 ->
  target = url
  /\ connectE env 0 = inr tt
  /\ (if new then newPageE env = inr page
      else exists pages, pagesE env = inr pages /\ last pages = Some page)
  /\ count (fun ev => match ev with Goto _ _ => true | _ => false end)
       (trace (navAction env url port new freshHost).2) = 1%nat.
Proof.
  unfold navAction, bind at 1, connectBrowser, tryFinally, disconnect, request,
    bind, emit, ret, throw.
  cbn [freshHost trace dialled app].
  destruct (connectE env 0) as [?|[]]; [cbn; set_solver|].
  destruct new.
  - destruct (newPageE env) as [?|p]; cbn.
    + destruct (disconnectE env 0); cbn; set_solver.
    + destruct (gotoE env), (disconnectE env 0) as [?|[]]; cbn;
        intros Hin; rewrite !elem_of_cons in Hin;
        (destruct Hin as [Hin | [Hin | [Hin | Hin]]]; try discriminate Hin;
         [injection Hin as -> ->; auto | set_solver]).
  - destruct (pagesE env) as [?|pages]; cbn.
    + destruct (disconnectE env 0); cbn; set_solver.
    + destruct (last pages) as [p|] eqn:Hlast; cbn.
      * destruct (gotoE env), (disconnectE env 0) as [?|[]]; cbn;
          intros Hin; rewrite !elem_of_cons in Hin;
          (destruct Hin as [Hin | [Hin | [Hin | Hin]]]; try discriminate Hin;
           [injection Hin as -> ->; eauto 6 | set_solver]).
      * destruct (disconnectE env 0); cbn; set_solver.
Qed.

(** X23.  The commands that work on the active tab ([eval],
    [screenshot], [pick] and [cookies]) close their connection
    exactly once, as the last thing they do, once the browser has
    listed its tabs: whether there is a tab or none, and however
    their work on the tab ends. *)
Theorem page_commands_disconnect_once
    (pages : list nat) (code messageParts : list JsString) :
  connectE env 0 = inr tt ->
  pagesE env = inr pages ->
  closedOnce 0 (trace (evalAction env code port freshHost).2)
  /\ closedOnce 0 (trace (screenshotAction env port freshHost).2)
  /\ closedOnce 0 (trace (pickAction env messageParts port freshHost).2)
  /\ closedOnce 0 (trace (cookiesAction env port freshHost).2).
Proof.
  intros Hc Hp.
  split; [|split; [|split]];
    apply (page_command_closes _ pages Hc Hp); intros browser page;
    cbv beta zeta; emits_walk.
Qed.

(** X24.  When the browser fails to list its tabs, these commands
    throw that error and never close the connection they opened:
    the listing is outside their [try] block. *)
Theorem failed_tab_listing_leaves_the_connection_open
    (e : Thrown) (code messageParts : list JsString) :
  connectE env 0 = inr tt ->
  pagesE env = inl e ->
  let left := (inl (Threw e),
               {| trace := [Connect port; Pages 0]; dialled := 1 |}) in
  evalAction env code port freshHost = left
  /\ screenshotAction env port freshHost = left
  /\ pickAction env messageParts port freshHost = left
  /\ cookiesAction env port freshHost = left.
Proof.
  intros Hc Hp left.
  split; [|split; [|split]]; apply (page_command_leaks _ e Hc Hp).
Qed.

(** X25.  With no tab open, the commands throw [No active tab
    found] after closing the connection, and have done nothing
    else. *)
Theorem no_active_tab_is_reported
    (url : JsString) (code messageParts : list JsString) :
  connectE env 0 = inr tt ->
  pagesE env = inr [] ->
  disconnectE env 0 = inr tt ->
  let stopped := (inl (Threw noActiveTab),
                  {| trace := [Connect port; Pages 0; Disconnect 0];
                     dialled := 1 |}) in
  navAction env url port false freshHost = stopped
  /\ evalAction env code port freshHost = stopped
  /\ screenshotAction env port freshHost = stopped
  /\ pickAction env messageParts port freshHost = stopped
  /\ cookiesAction env port freshHost = stopped.
Proof.
  intros Hc Hp Hd stopped. split.
  - unfold navAction, bind at 1, connectBrowser, tryFinally, disconnect,
      request, bind, emit, ret, throw.
    cbn. rewrite Hc, Hp. cbn. rewrite Hd. reflexivity.
  - split; [|split; [|split]]; apply (page_command_no_tab _ Hc Hp Hd).
Qed.

End Commands.


(** *** What gets printed *)

Lemma printEntries_spec (value : Json) (h : Host) :
  isInr (entries value) = true ->
  printEntries value h
  = (inr tt,
     {| trace := trace h ++ map Out (itemLines value); dialled := dialled h |}).
Proof.
  unfold printEntries, itemLines.
  destruct (entries value) as [e|fields]; [discriminate|]. intros _.
  revert h. induction fields as [|field fields IH]; intros h; cbn [foldr map].
  - unfold ret. rewrite app_nil_r. destruct h; reflexivity.
  - unfold bind, emit at 1. rewrite IH. cbn [trace dialled].
    rewrite <- app_assoc. reflexivity.
Qed.

Lemma printEntries_throws (value : Json) (h : Host) :
  value = JNull \/ value = JUndefined ->
  printEntries value h = (inl (Threw notAnObject), h).
Proof. intros [-> | ->]; reflexivity. Qed.

Lemma printItems_later (index : nat) (items : list Json) (h : Host) :
  (0 < index)%nat ->
  Forall (fun item => isInr (entries item) = true) items ->
  printItems index items h
  = (inr tt,
     {| trace := trace h
                 ++ map Out (concat (map (fun item => Blank :: itemLines item)
                                       items));
        dialled := dialled h |}).
Proof.
  intros Hindex Hok. revert index h Hindex.
  induction Hok as [|item items Hitem _ IH]; intros index h Hindex.
  - cbn. unfold ret. rewrite app_nil_r. destruct h; reflexivity.
  - cbn [printItems map concat]. unfold bind at 1.
    rewrite bool_decide_eq_true_2 by exact Hindex. cbn [when emit].
    unfold bind at 1. rewrite printEntries_spec by exact Hitem.
    rewrite IH by lia. cbn [trace dialled].
    rewrite map_app. cbn [map]. rewrite <- !app_assoc. reflexivity.
Qed.

(** An array all of whose items can be listed is printed item by
    item, with one blank line between two items. *)
Lemma printResult_array (items : list Json) (h : Host) :
  Forall (fun item => isInr (entries item) = true) items ->
  printResult (JArray items) h
  = (inr tt,
     {| trace := trace h ++ map Out (paragraphs (map itemLines items));
        dialled := dialled h |}).
Proof.
  intros Hok. cbn [printResult].
  destruct Hok as [|item items Hitem Hitems].
  - cbn. unfold ret. rewrite app_nil_r. destruct h; reflexivity.
  - cbn [printItems map paragraphs]. unfold bind at 1.
    rewrite bool_decide_eq_false_2 by lia. cbn [when]. unfold ret at 1.
    unfold bind at 1. rewrite printEntries_spec by exact Hitem.
    rewrite printItems_later by (lia || exact Hitems). cbn [trace dialled].
    rewrite map_app, map_map, <- !app_assoc. reflexivity.
Qed.

(** X26.  What the [pick] command prints of what was picked: [null]
    when the pick was cancelled; the six entries of the description
    when one element was picked; and for a selection the six entries
    of each element, with one blank line between two elements and
    none before the first or after the last.  Printing it never
    throws. *)
Theorem pick_prints_every_element_picked
    (picked : Picking.Picked) (h : Host) :
  printResult (report picked) h
  = (inr tt,
     {| trace :=
          trace h
          ++ map Out
               match picked with
               | Picking.Nothing => [Value JNull]
               | Picking.One info => itemLines (describeJson info)
               | Picking.Many chosen =>
                   paragraphs (map (fun info => itemLines (describeJson info))
                                 chosen)
               end;
        dialled := dialled h |})
  /\ forall info, length (itemLines (describeJson info)) = 6%nat.
Proof.
  split; [|reflexivity].
  destruct picked as [|info|chosen]; cbn [report].
  - reflexivity.
  - change (printResult (describeJson info))
      with (printEntries (describeJson info)).
    apply printEntries_spec. reflexivity.
  - rewrite printResult_array.
    + rewrite map_map. reflexivity.
    + apply Forall_map, Forall_true. reflexivity.
Qed.

(** X27.  An array with an item that is null or undefined cannot
    be printed: the items before it are printed, then the blank line
    that separates it from them, and then [Object.entries] throws a
    [TypeError]; nothing of the items after it is printed. *)
Theorem printing_stops_at_a_null_item
    (before rest : list Json) (bad : Json) (h : Host) :
  bad = JNull \/ bad = JUndefined ->
  Forall (fun item => isInr (entries item) = true) before ->
  printResult (JArray (before ++ bad :: rest)) h
  = (inl (Threw notAnObject),
     {| trace := trace h
                 ++ map Out (paragraphs (map itemLines before)
                             ++ match before with
                                | [] => []
                                | _ :: _ => [Blank]
                                end);
        dialled := dialled h |}).
Proof.
  intros Hbad Hok. cbn [printResult].
  assert (Hlater : forall items index h,
            (0 < index)%nat ->
            Forall (fun item => isInr (entries item) = true) items ->
            printItems index (items ++ bad :: rest) h
            = (inl (Threw notAnObject),
               {| trace :=
                    trace h
                    ++ map Out (concat (map (fun item => Blank :: itemLines item)
                                          items)
                                ++ [Blank]);
                  dialled := dialled h |})).
  { clear -Hbad. intros items index h Hindex Hitems. revert index h Hindex.
    induction Hitems as [|item items Hitem _ IH]; intros index h Hindex.
    - cbn [app printItems map concat]. unfold bind at 1.
      rewrite bool_decide_eq_true_2 by exact Hindex. cbn [when emit].
      unfold bind at 1. rewrite printEntries_throws by exact Hbad.
      reflexivity.
    - cbn [app printItems map concat]. unfold bind at 1.
      rewrite bool_decide_eq_true_2 by exact Hindex. cbn [when emit].
      unfold bind at 1. rewrite printEntries_spec by exact Hitem.
      rewrite IH by lia. cbn [trace dialled].
      rewrite !map_app. cbn [map]. rewrite <- !app_assoc. reflexivity. }
  destruct Hok as [|item items Hitem Hitems].
  - cbn [app printItems map paragraphs]. unfold bind at 1.
    rewrite bool_decide_eq_false_2 by lia. cbn [when]. unfold ret at 1.
    unfold bind at 1. rewrite printEntries_throws by exact Hbad.
    cbn. rewrite app_nil_r. destruct h; reflexivity.
  - cbn [app printItems map paragraphs]. unfold bind at 1.
    rewrite bool_decide_eq_false_2 by lia. cbn [when]. unfold ret at 1.
    unfold bind at 1. rewrite printEntries_spec by exact Hitem.
    rewrite Hlater by (lia || exact Hitems). cbn [trace dialled].
    rewrite !map_app, map_map, <- !app_assoc. reflexivity.
Qed.

(** *** The name of a screenshot *)

Lemma dashed_spec (timestamp : JsString) :
  length (dashed timestamp) = length timestamp
  /\ Forall (fun u => u <> 58%N /\ u <> 46%N) (dashed timestamp).
Proof.
  unfold dashed. split; [apply length_map|].
  apply Forall_map, Forall_true. intros u. cbn.
  destruct (N.eqb_spec u 58) as [->|H58]; cbn; [split; discriminate|].
  destruct (N.eqb_spec u 46) as [->|H46]; cbn; [split; discriminate|].
  auto.
Qed.

(** X28.  A [screenshot] command that returns has written one
    screenshot, of the last tab, has printed the very path it wrote
    it to, and has closed its connection.  The file is in the
    temporary directory; its name is [screenshot-], the time stamp
    with every colon and dot replaced by a dash, and [.png]. *)
Theorem screenshot_prints_the_path_it_wrote (env : Devtools) (port : Z) :
  (screenshotAction env port freshHost).1 = inr tt ->
  exists page stamp,
    let filePath :=
      pathJoin env (tmpdir env)
        (units "screenshot-" ++ stamp ++ units ".png") in
    trace (screenshotAction env port freshHost).2
    = [Connect port; Pages 0; Screenshot page filePath;
       Out (FilePath filePath); Disconnect 0]
    /\ (exists pages, pagesE env = inr pages /\ last pages = Some page)
    /\ length stamp = length (isoNow env)
    /\ Forall (fun u => u <> 58%N /\ u <> 46%N) stamp.
Proof.
  unfold screenshotAction, bind. cbv beta. rewrite getActivePage_spec.
  destruct (connectE env 0) as [?|[]]; [discriminate|].
  destruct (pagesE env) as [?|pages]; [discriminate|].
  destruct (last pages) as [page|] eqn:Hlast; [|discriminate].
  unfold tryFinally, disconnect, request, bind, emit, ret, throw.
  cbn [fst snd trace dialled app].
  destruct (screenshotE env) as [?|[]]; cbn [fst snd trace dialled app];
    destruct (disconnectE env 0) as [?|[]]; cbn [fst snd trace dialled app];
    try discriminate.
  intros _. exists page, (dashed (isoNow env)).
  split; [reflexivity|]. split; [eauto|]. apply dashed_spec.
Qed.

End ToolsFacts.

(** ** Reading the files of a prompt *)

Module FilesFacts.
Import Files.

Lemma firstOccurrences_snoc (l : list JsString) (x : JsString) :
  firstOccurrences (l ++ [x])
  = firstOccurrences l ++ (if bool_decide (x ∈ l) then [] else [x]).
Proof.
  unfold firstOccurrences. rewrite reverse_snoc. cbn [remove_dups].
  destruct (decide_rel elem_of x (reverse l)) as [Hin|Hnin].
  - rewrite bool_decide_eq_true_2 by (apply elem_of_reverse; exact Hin).
    rewrite app_nil_r. reflexivity.
  - rewrite bool_decide_eq_false_2
      by (intros H; apply Hnin, elem_of_reverse; exact H).
    rewrite reverse_cons. reflexivity.
Qed.

Lemma firstOccurrences_elem (l : list JsString) (x : JsString) :
  x ∈ firstOccurrences l <-> x ∈ l.
Proof.
  unfold firstOccurrences.
  rewrite elem_of_reverse, elem_of_remove_dups, elem_of_reverse. reflexivity.
Qed.

Lemma firstOccurrences_NoDup (l : list JsString) : NoDup (firstOccurrences l).
Proof.
  unfold firstOccurrences. rewrite reverse_Permutation.
  apply NoDup_remove_dups.
Qed.

Lemma elem_of_concat {A} (x : A) (ls : list (list A)) :
  x ∈ concat ls -> exists l, l ∈ ls /\ x ∈ l.
Proof.
  induction ls as [|l ls IH]; cbn.
  - intros H. apply elem_of_nil in H. destruct H.
  - intros [H | H]%elem_of_app.
    + exists l. split; [set_solver | exact H].
    + destruct (IH H) as (l' & Hl' & Hx). exists l'. split; [set_solver | exact Hx].
Qed.

Lemma Forall_concat_all {A} (P : A -> Prop) (ls : list (list A)) :
  Forall (Forall P) ls -> Forall P (concat ls).
Proof.
  induction 1 as [|l ls Hl _ IH]; cbn; [constructor|].
  apply Forall_app. auto.
Qed.

Section ReadFiles.

Variables resolve join : JsString -> JsString -> JsString.
Variable fsModule : FsModule.

Local Abbreviation expandToFiles := (expandToFiles join fsModule).
Local Abbreviation readExpanded := (readExpanded fsModule).
Local Abbreviation readEach := (readEach resolve join fsModule).
Local Abbreviation readFiles := (readFiles resolve join fsModule).

Local Abbreviation kept := (kept fsModule).

Lemma readExpanded_kept (expanded met : list JsString)
    (files files' : list FileContent) (seen seen' : gset JsString) :
  kept met files seen ->
  readExpanded expanded files seen = inr (files', seen') ->
  kept (met ++ expanded) files' seen'.
Proof.
  revert met files seen.
  induction expanded as [|p expanded IH]; intros met files seen Hk Hr.
  - cbn in Hr. injection Hr as <- <-. rewrite app_nil_r. exact Hk.
  - cbn [Files.readExpanded] in Hr.
    replace (met ++ p :: expanded) with ((met ++ [p]) ++ expanded)
      by (rewrite <- app_assoc; reflexivity).
    destruct Hk as (Hpaths & Hseen & Hread).
    case_bool_decide as Hin.
    + apply (IH _ files seen); [|exact Hr].
      split; [|split; [|exact Hread]].
      * rewrite firstOccurrences_snoc, bool_decide_eq_true_2
          by (apply Hseen; exact Hin).
        rewrite app_nil_r. exact Hpaths.
      * intros q. rewrite elem_of_app, list_elem_of_singleton, Hseen.
        split; [auto|]. intros [H | ->]; [exact H | apply Hseen, Hin].
    + destruct (readFile fsModule p) as [e|text] eqn:Hp; [discriminate|].
      eapply IH; [|exact Hr].
      split; [|split].
      * rewrite map_app, firstOccurrences_snoc, bool_decide_eq_false_2
          by (intros H; apply Hin, Hseen; exact H).
        rewrite Hpaths. reflexivity.
      * intros q. rewrite elem_of_union, elem_of_singleton, elem_of_app,
          list_elem_of_singleton, Hseen. tauto.
      * apply Forall_app. split; [exact Hread|]. repeat constructor. exact Hp.
Qed.

Lemma readEach_kept (depth : nat) (cwd : JsString)
    (filePaths met : list JsString) (files result : list FileContent)
    (seen : gset JsString) :
  kept met files seen ->
  readEach depth cwd filePaths files seen = Some (inr result) ->
  exists expansions,
    expandsTo resolve join fsModule depth cwd filePaths expansions
    /\ map path result = firstOccurrences (met ++ concat expansions)
    /\ Forall (fun file => readFile fsModule (path file) = inr (content file))
         result.
Proof.
  revert met files seen.
  induction filePaths as [|rawPath rest IH]; intros met files seen Hk Hr.
  - cbn in Hr. injection Hr as <-. exists []. split; [constructor|].
    cbn. rewrite app_nil_r. destruct Hk as (H1 & _ & H3). auto.
  - cbn [Files.readEach] in Hr.
    destruct (expandToFiles depth (resolve cwd rawPath))
      as [[e|expanded]|] eqn:He; try discriminate.
    destruct (readExpanded expanded files seen) as [e|[files' seen']] eqn:Hx;
      [discriminate|].
    pose proof (readExpanded_kept _ _ _ _ _ _ Hk Hx) as Hk'.
    destruct (IH _ _ _ Hk' Hr) as (expansions & Hexp & Hpaths & Hread).
    exists (expanded :: expansions). split; [constructor; assumption|].
    cbn [concat]. rewrite app_assoc. auto.
Qed.

(** What [readFiles] returns, in terms of what its paths expand to. *)
Lemma readFiles_spec
    (depth : nat) (filePaths : list JsString) (cwd : JsString)
    (files : list FileContent) :
  readFiles depth filePaths cwd = Some (inr files) ->
  exists expansions,
    expandsTo resolve join fsModule depth cwd filePaths expansions
    /\ map path files = firstOccurrences (concat expansions)
    /\ Forall (fun file => readFile fsModule (path file) = inr (content file))
         files.
Proof.
  intros Hr. unfold Files.readFiles in Hr.
  destruct (readEach_kept depth cwd filePaths [] [] files ∅) as
    (expansions & Hexp & Hpaths & Hread); [|exact Hr|].
  - split; [reflexivity|]. split; [|constructor].
    intros p. rewrite elem_of_empty. split; [tauto | apply not_elem_of_nil].
  - exists expansions. cbn [app] in Hpaths. auto.
Qed.

(** X29.  The files [readFiles] returns are the files its paths
    expand to, each once, in the order in which they are first met:
    a file named twice, or named and also found in a directory that
    is named, is listed once.  The content of each is what
    [readFile] answered for its path. *)
Theorem readFiles_lists_every_file_once
    (depth : nat) (filePaths : list JsString) (cwd : JsString)
    (files : list FileContent) :
  readFiles depth filePaths cwd = Some (inr files) ->
  NoDup (map path files)
  /\ Forall (fun file => readFile fsModule (path file) = inr (content file))
       files
  /\ exists expansions,
       expandsTo resolve join fsModule depth cwd filePaths expansions
       /\ map path files = firstOccurrences (concat expansions)
       /\ forall p, p ∈ map path files <-> p ∈ concat expansions.
Proof.
  intros Hr.
  destruct (readFiles_spec depth filePaths cwd files Hr)
    as (expansions & Hexp & Hpaths & Hread).
  split; [rewrite Hpaths; apply firstOccurrences_NoDup|].
  split; [exact Hread|]. exists expansions.
  split; [exact Hexp|]. split; [exact Hpaths|].
  intros p. rewrite Hpaths. apply firstOccurrences_elem.
Qed.

(** Every path [expandToFiles] returns is one for which [stat]
    answered a file. *)
Lemma expandToFiles_files (depth : nat) (targetPath : JsString)
    (expanded : list JsString) :
  expandToFiles depth targetPath = Some (inr expanded) ->
  Forall (fun p => exists stats,
            stat fsModule p = inr stats /\ isFile stats = true)
    expanded.
Proof.
  revert targetPath expanded.
  induction depth as [|deeper IH]; intros targetPath expanded He;
    [discriminate|].
  cbn [Files.expandToFiles] in He.
  destruct (stat fsModule targetPath) as [e|stats] eqn:Hs; [discriminate|].
  destruct (isFile stats) eqn:Hf.
  - injection He as <-. repeat constructor. eauto.
  - destruct (isDirectory stats); [|discriminate].
    destruct (readdir fsModule targetPath) as [e|entries]; [discriminate|].
    unfold promiseAll in He.
    destruct (rejection _); [discriminate|].
    destruct (fulfilled _) as [nested|] eqn:Hn; [|discriminate].
    injection He as <-. apply Forall_concat_all.
    revert nested Hn. induction entries as [|entry entries IHe];
      intros nested Hn; cbn in Hn.
    + injection Hn as <-. constructor.
    + destruct (expandToFiles deeper (join targetPath entry))
        as [[e|found]|] eqn:Hentry; try discriminate.
      destruct (fulfilled _) as [others|] eqn:Ho; [|discriminate].
      injection Hn as <-. constructor; [exact (IH _ _ Hentry)|].
      apply IHe. reflexivity.
Qed.

(** X30.  [readFiles] returns regular files only, and only when
    every path it was given exists: each file returned is one for
    which [stat] answered a file, and for each path given [stat]
    answered a file or a directory.  A first path for which [stat]
    throws makes the call throw [Missing file or directory], naming
    the resolved path. *)
Theorem readFiles_returns_files_only
    (depth : nat) (filePaths : list JsString) (cwd : JsString) :
  (forall files,
     readFiles depth filePaths cwd = Some (inr files) ->
     Forall (fun file => exists stats,
               stat fsModule (path file) = inr stats /\ isFile stats = true)
       files
     /\ Forall (fun rawPath => exists stats,
                  stat fsModule (resolve cwd rawPath) = inr stats
                  /\ isFile stats || isDirectory stats = true)
          filePaths)
  /\ (forall rawPath rest e,
        filePaths = rawPath :: rest ->
        stat fsModule (resolve cwd rawPath) = inl e ->
        readFiles (S depth) filePaths cwd
        = Some (inl (missing (resolve cwd rawPath)))).
Proof.
  split.
  - intros files Hr.
    destruct (readFiles_spec depth filePaths cwd files Hr)
      as (expansions & Hexp & Hpaths & _).
    assert (Hsame : forall p, p ∈ map path files <-> p ∈ concat expansions)
      by (intros p; rewrite Hpaths; apply firstOccurrences_elem).
    split.
    + apply Forall_forall. intros file Hfile.
      assert (Hin : path file ∈ concat expansions).
      { apply Hsame, list_elem_of_fmap. eauto. }
      apply elem_of_concat in Hin as (expanded & Hexpanded & Hp).
      unfold expandsTo in Hexp.
      assert (Hall : Forall (Forall (fun p => exists stats,
                                       stat fsModule p = inr stats
                                       /\ isFile stats = true))
                       expansions).
      { clear -Hexp. induction Hexp as [|rawPath found rest exps He _ IH];
          constructor; [|exact IH].
        exact (expandToFiles_files _ _ _ He). }
      rewrite Forall_forall in Hall. specialize (Hall _ Hexpanded).
      rewrite Forall_forall in Hall. exact (Hall _ Hp).
    + unfold expandsTo in Hexp. clear -Hexp.
      induction Hexp as [|rawPath expanded rest exps He _ IH];
        [constructor|]. constructor; [|exact IH].
      destruct depth as [|deeper]; [discriminate|].
      cbn [Files.expandToFiles] in He.
      destruct (stat fsModule (resolve cwd rawPath)) as [e|stats];
        [discriminate|].
      exists stats. split; [reflexivity|].
      destruct (isFile stats); [reflexivity|].
      destruct (isDirectory stats); [reflexivity | discriminate].
  - intros rawPath rest e -> Hs. unfold Files.readFiles.
    cbn [Files.readEach Files.expandToFiles]. rewrite Hs. reflexivity.
Qed.

End ReadFiles.

End FilesFacts.

(** * The properties at work on concrete calls *)

Import Scenario.




(** C4 on a call without a desired model and on one with a desired
    model. *)
Lemma model_selection_iff_desired_witness :
  (truthy (desiredModel keeping) = false
   /\ forall model,
        CallEnsureModelSelection model
          ∉ calls (world (go allGood keeping sayOk).2))
  /\ (desiredModel baseConfig = Some (units "GPT-5 Pro")
      /\ truthyString (units "GPT-5 Pro") = true
      /\ selectionPrecedes (units "GPT-5 Pro")
           (calls (world (go allGood baseConfig sayOk).2))).
Proof.
  split.
  - split; [reflexivity|].
    destruct (model_selection_iff_desired id estimate allGood
                (options keeping sayOk) emptyWorld) as [Hnone _].
    exact (Hnone eq_refl).
  - split; [reflexivity|]. split; [reflexivity|].
    destruct (model_selection_iff_desired id estimate allGood
                (options baseConfig sayOk) emptyWorld) as [_ Hsome].
    exact (Hsome (units "GPT-5 Pro") eq_refl eq_refl).
Defined.

(** With an empty model name the selection is skipped as well. *)
Lemma empty_model_name_is_no_model :
  let unnamed :=
    {| url := url baseConfig; desiredModel := Some [];
       chromeProfile := None; timeoutMs := 30000; inputTimeoutMs := 5000;
       headless := false; hideWindow := true; keepBrowser := false;
       cookieSync := true; debug := false |} in
  calls (world (go allGood unnamed sayOk).2)
  = [CallMkdtemp; CallLaunchChrome profileDir;
     CallRegisterTerminationHooks 4242 profileDir false;
     CallConnectToChrome 9222; CallHideChromeWindow;
     CallNetworkEnable; CallPageEnable; CallRuntimeEnable;
     CallClearBrowserCookies;
     CallSyncCookies (url baseConfig) None; CallNavigate (url baseConfig);
     CallEnsureNotBlocked false; CallEnsurePromptReady 5000;
     CallSubmitPrompt (units "Say OK.");
     CallWaitForAssistantResponse 30000; CallCaptureAssistantMarkdown 7;
     CallClientClose; CallRemoveTerminationHooks;
     CallChromeKill 4242; CallRm profileDir].
Proof. vm_compute. reflexivity. Qed.

(** C5 on a call whose markdown copy succeeds. *)
Lemma markdown_is_copy_or_text_witness :
  exists result,
    (go allGood baseConfig sayOk).1 = inr result
    /\ answerTextR result = units "OK"
    /\ answerMarkdownR result = units "**OK**".
Proof.
  destruct (go allGood baseConfig sayOk).1 as [e|result] eqn:Hrun;
    [vm_compute in Hrun; discriminate|].
  exists result. split; [reflexivity|].
  destruct (markdown_is_copy_or_text id estimate allGood
              (options baseConfig sayOk) emptyWorld result Hrun)
    as (answer & copied & Hw & Hc & Ht & Hm).
  injection Hw as <-. injection Hc as <-.
  split; [exact Ht | exact Hm].
Defined.

(** On a call whose page offers no markdown copy, the text is used. *)
Lemma markdown_falls_back_to_text :
  exists result,
    (go noCopy baseConfig sayOk).1 = inr result
    /\ answerMarkdownR result = units "OK"
    /\ answerTextR result = units "OK".
Proof. eexists. split; [vm_compute; reflexivity|]. split; reflexivity. Qed.

(** C3 on a complete call: what precedes its navigation. *)
Lemma priming_precedes_navigation_witness :
  primed allGood baseConfig
    [CallMkdtemp; CallLaunchChrome profileDir;
     CallRegisterTerminationHooks 4242 profileDir false;
     CallConnectToChrome 9222;
     CallNetworkEnable; CallPageEnable; CallRuntimeEnable;
     CallClearBrowserCookies; CallSyncCookies (url baseConfig) None].
Proof.
  eapply (priming_precedes_navigation id estimate allGood
            (options baseConfig sayOk) emptyWorld).
  vm_compute. reflexivity.
Defined.



(** C7 on a call whose local profile holds no cookies. *)
Lemma zero_cookies_is_not_an_error_witness :
  let sync := CallSyncCookies (url baseConfig) (chromeProfile baseConfig) in
  let none := go (withSyncCookies (inr 0) allGood) baseConfig sayOk in
  sync ∈ calls (world none.2)
  /\ (exists pre post,
         calls (world none.2)
         = pre ++ sync :: CallNavigate (url baseConfig) :: post)
  /\ LogNoCookies ∈ logged (world none.2)
  /\ none.1 = (go (withSyncCookies (inr 3) allGood) baseConfig sayOk).1.
Proof.
  intros sync none.
  assert (H1 : sync ∈ calls (world none.2)) by compute_done.
  destruct (zero_cookies_is_not_an_error id estimate allGood
              (options baseConfig sayOk) emptyWorld 3)
    as (Hgo & Hsame & _).
  destruct (Hgo H1) as [Hnext Hwarn].
  split; [exact H1|]. split; [exact Hnext|].
  split; [exact (Hwarn eq_refl) | exact Hsame].
Defined.



(** C9 on a page that was injected once. *)
Lemma picker_injection_is_idempotent_witness :
  Picker.toBoolean
    (Picker.globals (Picker.injectPicker Picker.blankPage)
       !! "pickOverlayInjected"%string) = true
  /\ Picker.injectPicker (Picker.injectPicker Picker.blankPage)
     = Picker.injectPicker Picker.blankPage.
Proof.
  assert (H : Picker.toBoolean
                (Picker.globals (Picker.injectPicker Picker.blankPage)
                   !! "pickOverlayInjected"%string) = true)
    by (vm_compute; reflexivity).
  split; [exact H|].
  exact (proj1 (PickerFacts.picker_injection_is_idempotent
                  (Picker.injectPicker Picker.blankPage)) H).
Defined.

(** C10 on a prompt made of a space, a tab, a line feed, a no-break
    space, an em space and a byte-order mark. *)
Lemma blank_prompt_throws_before_allocating_witness :
  let blank := Some [32; 9; 10; 160; 8195; 65279]%N in
  blankPrompt blank
  /\ (go allGood baseConfig blank).1 = inl promptRequired
  /\ calls (world (go allGood baseConfig blank).2) = []
  /\ dirs (world (go allGood baseConfig blank).2) = ∅
  /\ procs (world (go allGood baseConfig blank).2) = ∅
  /\ session (world (go allGood baseConfig blank).2) = false.
Proof.
  intros blank.
  assert (H : blankPrompt blank) by (repeat constructor).
  split; [exact H|].
  exact (blank_prompt_throws_before_allocating id estimate allGood
           (options baseConfig blank) emptyWorld H).
Defined.

(** ** The further properties at work *)

Import Cases.


(** X2 on a complete call. *)
Lemma prompt_is_submitted_after_the_checks_witness :
  CallSubmitPrompt (units "Say OK.")
    ∈ calls (world (go allGood baseConfig sayOk).2)
  /\ trim <$> prompt (options baseConfig sayOk) = Some (units "Say OK.")
  /\ navigateToChatGPTE allGood = inr tt
  /\ ensureNotBlockedE allGood = inr tt
  /\ ensurePromptReadyE allGood = inr tt
  /\ ensureModelSelectionE allGood = inr tt
  /\ ensurePromptReadyAgainE allGood = inr tt.
Proof.
  assert (H : CallSubmitPrompt (units "Say OK.")
                ∈ calls (world (go allGood baseConfig sayOk).2))
    by compute_done.
  split; [exact H|].
  destruct (prompt_is_submitted_after_the_checks id estimate allGood
              (options baseConfig sayOk) emptyWorld (units "Say OK.") H)
    as (Hp & Hnav & Hnb & Hr & Hmodel).
  destruct (Hmodel (units "GPT-5 Pro") eq_refl eq_refl) as [Hsel Hagain].
  auto 10.
Defined.

(** X4 on a call that hides the window. *)
Lemma window_is_hidden_only_when_asked_witness :
  CallHideChromeWindow ∈ calls (world (go allGood hiding sayOk).2)
  /\ headless hiding = false /\ hideWindow hiding = true
  /\ connectToChromeE allGood = inr tt.
Proof.
  assert (H : CallHideChromeWindow
                ∈ calls (world (go allGood hiding sayOk).2)) by compute_done.
  split; [exact H|].
  exact (window_is_hidden_only_when_asked id estimate allGood
           (options hiding sayOk) emptyWorld H).
Defined.

(** X5 on a complete call. *)
Lemma cookies_are_cleared_before_they_are_copied_witness :
  CallSyncCookies (url baseConfig) None
    ∈ calls (world (go allGood baseConfig sayOk).2)
  /\ clearBrowserCookiesE allGood = inr tt
  /\ exists pre post,
       calls (world (go allGood baseConfig sayOk).2)
       = pre ++ CallClearBrowserCookies
             :: CallSyncCookies (url baseConfig) None :: post
       /\ CallClearBrowserCookies ∉ post.
Proof.
  assert (H : CallSyncCookies (url baseConfig) None
                ∈ calls (world (go allGood baseConfig sayOk).2))
    by compute_done.
  split; [exact H|].
  destruct (cookies_are_cleared_before_they_are_copied id estimate allGood
              (options baseConfig sayOk) emptyWorld (url baseConfig) None H)
    as (_ & _ & _ & Hclear & Horder).
  split; [exact Hclear | exact Horder].
Defined.



(** X8 on a complete call. *)
Lemma result_describes_the_run_witness :
  exists result,
    (go allGood baseConfig sayOk).1 = inr result
    /\ userDataDirR result = profileDir
    /\ chromePid result = 4242
    /\ chromePort result = 9222
    /\ answerChars result = length (answerTextR result)
    /\ answerTokens result = estimate (answerMarkdownR result)
    /\ answerHtmlR result = Some (units "<p>OK</p>").
Proof.
  destruct (go allGood baseConfig sayOk).1 as [e|result] eqn:Hrun;
    [vm_compute in Hrun; discriminate|].
  exists result. split; [reflexivity|].
  destruct (result_describes_the_run id estimate allGood
              (options baseConfig sayOk) emptyWorld result Hrun)
    as (d & c & a & Hd & Hc & Ha & H1 & H2 & H3 & H4 & H5 & H6).
  injection Hd as <-. injection Hc as <-. injection Ha as <-.
  auto 10.
Defined.


(** X10 on the call whose response wait times out. *)
Lemma debug_lines_need_debug_witness :
  (debug (id (config (options baseConfig sayOk))) = false
   /\ traceEnv timesOut = false)
  /\ unlogged isDebugLine (go timesOut baseConfig sayOk).2.
Proof.
  assert (H1 : debug (id (config (options baseConfig sayOk))) = false)
    by reflexivity.
  assert (H2 : traceEnv timesOut = false) by reflexivity.
  split; [auto|].
  exact (debug_lines_need_debug id estimate timesOut
           (options baseConfig sayOk) emptyWorld H1 H2).
Defined.

(** X14 on a selection of two elements, ended by a click without
    Cmd or Ctrl on the button: the result is the two selections. *)
Lemma picked_is_one_or_the_selections_witness :
  let events := choosing ++ [Picking.Click false (on button) false false] in
  let done := Picking.after lower say ∅ events in
  Picking.settled done
  = Some (Picking.Many [Picking.serialize lower button;
                        Picking.serialize lower link])
  /\ [Picking.serialize lower button; Picking.serialize lower link]
     = Picking.selections done.
Proof.
  intros events done.
  assert (H : Picking.settled done
              = Some (Picking.Many [Picking.serialize lower button;
                                    Picking.serialize lower link]))
    by (vm_compute; reflexivity).
  split; [exact H|].
  exact (proj1 (PickingFacts.picked_is_one_or_the_selections lower say ∅
                  events _ H)).
Defined.


(** X16 on a pick cancelled with Escape. *)
Lemma settled_picker_ignores_events_witness :
  let cancelled := choosing ++ [Picking.KeyDown (units "Escape")] in
  Picking.settled (Picking.after lower say ∅ cancelled) <> None
  /\ Picking.after lower say ∅ (cancelled ++ choosing)
     = Picking.after lower say ∅ cancelled.
Proof.
  intros cancelled.
  assert (H : Picking.settled (Picking.after lower say ∅ cancelled) <> None)
    by (vm_compute; discriminate).
  split; [exact H|].
  exact (PickingFacts.settled_picker_ignores_events lower say ∅ cancelled
           choosing H).
Defined.

(** X18 when no browser listens. *)
Lemma start_gives_up_after_thirty_attempts_witness :
  (Tools.mkdirE down = inr tt
   /\ Tools.rsyncE down = inr tt
   /\ forall n, (n < 30)%nat -> ToolsSpec.up down n = false)
  /\ (Tools.startAction down 9222 true scrapingDir chromeBin
        Tools.freshHost).1
     = inl (Tools.Exited 1)
  /\ ToolsSpec.count ToolsSpec.isConnect
       (Tools.trace
          (Tools.startAction down 9222 true scrapingDir chromeBin
             Tools.freshHost).2)
     = 30%nat.
Proof.
  assert (H1 : Tools.mkdirE down = inr tt) by reflexivity.
  assert (H2 : Tools.rsyncE down = inr tt) by reflexivity.
  assert (H3 : forall n, (n < 30)%nat -> ToolsSpec.up down n = false)
    by (intros n _; reflexivity).
  split; [auto|].
  destruct (ToolsFacts.start_gives_up_after_thirty_attempts down 9222 true
              scrapingDir chromeBin H1 (fun _ => H2) H3)
    as (Hexit & Hcount & _).
  split; [exact Hexit | exact Hcount].
Defined.

(** X19 when the browser listens from the third attempt on. *)
Lemma start_stops_at_the_first_connection_witness :
  (Tools.mkdirE slow = inr tt
   /\ ToolsSpec.up slow 2 = true
   /\ forall k, (k < 2)%nat -> ToolsSpec.up slow k = false)
  /\ (Tools.startAction slow 9222 false scrapingDir chromeBin
        Tools.freshHost).1
     = inr tt
  /\ ToolsSpec.count ToolsSpec.isConnect
       (Tools.trace
          (Tools.startAction slow 9222 false scrapingDir chromeBin
             Tools.freshHost).2)
     = 3%nat
  /\ ToolsSpec.slept
       (Tools.trace
          (Tools.startAction slow 9222 false scrapingDir chromeBin
             Tools.freshHost).2)
     = 2000.
Proof.
  assert (H1 : Tools.mkdirE slow = inr tt) by reflexivity.
  assert (H2 : ToolsSpec.up slow 2 = true) by reflexivity.
  assert (H3 : forall k, (k < 2)%nat -> ToolsSpec.up slow k = false).
  { intros [|[|k]] Hk; [reflexivity | reflexivity | lia]. }
  split; [auto|].
  destruct (ToolsFacts.start_stops_at_the_first_connection slow 9222 false
              scrapingDir chromeBin 2 H1 (fun H => False_ind _ (diff_false_true H))
              ltac:(lia) H2 H3)
    as (Hdone & Hcount & Hslept & _).
  split; [exact Hdone|]. split; [exact Hcount | exact Hslept].
Defined.

(** X21 on a navigation of the current tab. *)
Lemma nav_always_disconnects_witness :
  Tools.connectE steady 0 = inr tt
  /\ ToolsSpec.closedOnce 0
       (Tools.trace
          (Tools.navAction steady (units "https://example.com/") 9222 false
             Tools.freshHost).2).
Proof.
  assert (H : Tools.connectE steady 0 = inr tt) by reflexivity.
  split; [exact H|].
  exact (ToolsFacts.nav_always_disconnects steady 9222
           (units "https://example.com/") false H).
Defined.

(** X22 on a navigation of the current tab: of the tabs 3 and 5 it
    is tab 5 that is navigated. *)
Lemma nav_goes_to_the_new_or_the_last_tab_witness :
  Tools.Goto 5 (units "https://example.com/")
    ∈ Tools.trace
        (Tools.navAction steady (units "https://example.com/") 9222 false
           Tools.freshHost).2
  /\ exists pages, Tools.pagesE steady = inr pages /\ last pages = Some 5%nat.
Proof.
  assert (H : Tools.Goto 5 (units "https://example.com/")
                ∈ Tools.trace
                    (Tools.navAction steady (units "https://example.com/")
                       9222 false Tools.freshHost).2).
  { change (Tools.Goto 5 (units "https://example.com/")
              ∈ [Tools.Connect 9222; Tools.Pages 0;
                 Tools.Goto 5 (units "https://example.com/");
                 Tools.Out
                   (Tools.NavigatedCurrentTab (units "https://example.com/"));
                 Tools.Disconnect 0]).
    rewrite !elem_of_cons. right; right; left. reflexivity. }
  split; [exact H|].
  destruct (ToolsFacts.nav_goes_to_the_new_or_the_last_tab steady 9222
              (units "https://example.com/") false 5
              (units "https://example.com/") H)
    as (_ & _ & Hlast & _).
  exact Hlast.
Defined.

(** X23 on a browser with two tabs. *)
Lemma page_commands_disconnect_once_witness :
  (Tools.connectE steady 0 = inr tt
   /\ Tools.pagesE steady = inr [3; 5]%nat)
  /\ ToolsSpec.closedOnce 0
       (Tools.trace
          (Tools.evalAction steady [units "document.title"] 9222
             Tools.freshHost).2)
  /\ ToolsSpec.closedOnce 0
       (Tools.trace (Tools.cookiesAction steady 9222 Tools.freshHost).2).
Proof.
  assert (H1 : Tools.connectE steady 0 = inr tt) by reflexivity.
  assert (H2 : Tools.pagesE steady = inr [3; 5]%nat) by reflexivity.
  split; [auto|].
  destruct (ToolsFacts.page_commands_disconnect_once steady 9222 [3; 5]%nat
              [units "document.title"] [] H1 H2)
    as (Heval & _ & _ & Hcookies).
  split; [exact Heval | exact Hcookies].
Defined.

(** X24 on a browser that fails to list its tabs. *)
Lemma failed_tab_listing_leaves_the_connection_open_witness :
  (Tools.connectE unlisted 0 = inr tt
   /\ Tools.pagesE unlisted = inl listingFailed)
  /\ Tools.cookiesAction unlisted 9222 Tools.freshHost
     = (inl (Tools.Threw listingFailed),
        {| Tools.trace := [Tools.Connect 9222; Tools.Pages 0];
           Tools.dialled := 1 |}).
Proof.
  assert (H1 : Tools.connectE unlisted 0 = inr tt) by reflexivity.
  assert (H2 : Tools.pagesE unlisted = inl listingFailed) by reflexivity.
  split; [auto|].
  destruct (ToolsFacts.failed_tab_listing_leaves_the_connection_open unlisted
              9222 listingFailed [] [] H1 H2)
    as (_ & _ & _ & Hcookies).
  exact Hcookies.
Defined.

(** X25 on a browser without a tab. *)
Lemma no_active_tab_is_reported_witness :
  (Tools.connectE tabless 0 = inr tt
   /\ Tools.pagesE tabless = inr []
   /\ Tools.disconnectE tabless 0 = inr tt)
  /\ (Tools.screenshotAction tabless 9222 Tools.freshHost).1
     = inl (Tools.Threw Tools.noActiveTab).
Proof.
  assert (H1 : Tools.connectE tabless 0 = inr tt) by reflexivity.
  assert (H2 : Tools.pagesE tabless = inr []) by reflexivity.
  assert (H3 : Tools.disconnectE tabless 0 = inr tt) by reflexivity.
  split; [auto|].
  destruct (ToolsFacts.no_active_tab_is_reported tabless 9222 [] [] []
              H1 H2 H3)
    as (_ & _ & Hshot & _).
  rewrite Hshot. reflexivity.
Defined.

(** X27 on the array [[{a: 1}, null, {b: 2}]]. *)
Lemma printing_stops_at_a_null_item_witness :
  let first := Tools.JObject [(units "a", Tools.JNumber 1)] in
  let third := Tools.JObject [(units "b", Tools.JNumber 2)] in
  Tools.printResult (Tools.JArray [first; Tools.JNull; third]) Tools.freshHost
  = (inl (Tools.Threw Tools.notAnObject),
     {| Tools.trace :=
          [Tools.Out (Tools.Entry (Tools.Name (units "a")) (Tools.JNumber 1));
           Tools.Out Tools.Blank];
        Tools.dialled := 0 |}).
Proof.
  intros first third.
  assert (H : Forall (fun item => isInr (Tools.entries item) = true) [first])
    by (repeat constructor).
  exact (ToolsFacts.printing_stops_at_a_null_item [first] [third]
           Tools.JNull Tools.freshHost (or_introl eq_refl) H).
Defined.

(** X28 on a browser with two tabs. *)
Lemma screenshot_prints_the_path_it_wrote_witness :
  (Tools.screenshotAction steady 9222 Tools.freshHost).1 = inr tt
  /\ exists page stamp,
       Tools.trace (Tools.screenshotAction steady 9222 Tools.freshHost).2
       = [Tools.Connect 9222; Tools.Pages 0;
          Tools.Screenshot page
            (units "/tmp/screenshot-" ++ stamp ++ units ".png");
          Tools.Out
            (Tools.FilePath
               (units "/tmp/screenshot-" ++ stamp ++ units ".png"));
          Tools.Disconnect 0]
       /\ Forall (fun u => u <> 58%N /\ u <> 46%N) stamp.
Proof.
  assert (H : (Tools.screenshotAction steady 9222 Tools.freshHost).1 = inr tt)
    by reflexivity.
  split; [exact H|].
  destruct (ToolsFacts.screenshot_prints_the_path_it_wrote steady 9222 H)
    as (page & stamp & Htrace & _ & _ & Hstamp).
  exists page, stamp. split; [exact Htrace | exact Hstamp].
Defined.

(** X29 on a file and the directory that holds it: the file named
    first comes first, and is listed once. *)
Lemma readFiles_lists_every_file_once_witness :
  let given := [units "docs/b.md"; units "docs"] in
  let files :=
    [{| Files.path := units "/w/docs/b.md"; Files.content := units "B" |};
     {| Files.path := units "/w/docs/a.md"; Files.content := units "A" |}] in
  Files.readFiles under under disk 3 given (units "/w") = Some (inr files)
  /\ NoDup (map Files.path files)
  /\ exists expansions,
       expandsTo under under disk 3 (units "/w") given expansions
       /\ map Files.path files = firstOccurrences (concat expansions).
Proof.
  intros given files.
  assert (H : Files.readFiles under under disk 3 given (units "/w")
              = Some (inr files)) by (vm_compute; reflexivity).
  split; [exact H|].
  destruct (FilesFacts.readFiles_lists_every_file_once under under disk 3
              given (units "/w") files H)
    as (Hnodup & _ & expansions & Hexp & Hpaths & _).
  split; [exact Hnodup|]. exists expansions. split; [exact Hexp | exact Hpaths].
Defined.
